(** * Dimensional boundary loss: the Phi metric and the cascade validator

    A shallow embedding of [validate_dimensional_cascade_multisize.py]
    (classes [PhiCalculator] and [DimensionalCascadeValidator]), of the
    trials of [tests/test_grid_size_sensitivity.py] and
    [tests/test_highlife_validation.py] and of the edge-case lattices of
    [tests/test_metric_sanity_check.py].

    Modelling conventions.
    - A numpy array of integers is a shape (its type index) together with
      nested lists of [Z] cells, outermost axis first.
    - Python floats are idealised as real numbers: [np.log2] is the real
      logarithm in base 2 and rounding is not modelled.  The properties
      stated are those that rounding does not disturb: the same expression
      on both sides, a single quotient of integers, or an inequality with a
      margin.
    - Where the code divides two floats of a trial, the division is
      Python's partial one: a zero divisor raises [ZeroDivisionError].
    - Arrays live in a heap of objects; allocation and slice assignment are
      steps of a state-and-exception monad.
    - The random generators are external; a seed outside [0, 2^32) is
      refused with [ValueError], as numpy does. *)

From Stdlib Require Import String.
From Stdlib Require Import List ZArith Lia Bool Arith Reals Lra.
From Stdlib Require Import Eqdep_dec.
From Stdlib Require Import Sorted.
Import ListNotations.

(** ** Arrays *)

Module Np.

(** [nd s] : the contents of an array of shape [s]. *)
Fixpoint nd (s : list nat) : Type :=
  match s with
  | [] => Z
  | _ :: s' => list (nd s')
  end.

(** Rectangularity: every axis has the extent its shape announces. *)
Fixpoint wf (s : list nat) : nd s -> Prop :=
  match s return nd s -> Prop with
  | [] => fun _ => True
  | n :: s' => fun a : list (nd s') => length a = n /\ Forall (wf s') a
  end.

(** [pattern.size] *)
Definition size (s : list nat) : nat := fold_right Nat.mul 1%nat s.

(** [pattern.ndim] *)
Definition ndim (s : list nat) : nat := length s.

(** [np.zeros(s, dtype=int)] and, more generally, a constant array. *)
Fixpoint full (s : list nat) (v : Z) : nd s :=
  match s return nd s with
  | [] => v
  | n :: s' => repeat (full s' v) n
  end.

Definition zeros (s : list nat) : nd s := full s 0%Z.
Definition ones (s : list nat) : nd s := full s 1%Z.

(** [pattern.flatten()], row-major. *)
Fixpoint flatten (s : list nat) : nd s -> list Z :=
  match s return nd s -> list Z with
  | [] => fun v => [v]
  | _ :: s' => fun a : list (nd s') => flat_map (flatten s') a
  end.

(** [np.sum] of a flat integer array. *)
Definition sum (l : list Z) : Z := fold_right Z.add 0%Z l.

(** [np.roll(l, 1)] on one axis: the last element wraps to the front. *)
Definition rotr {A : Type} (l : list A) : list A :=
  match l with
  | [] => []
  | x :: l' => last l x :: removelast l
  end.

(** [np.roll(pattern, 1, axis=axis)] *)
Fixpoint roll (s : list nat) (axis : nat) : nd s -> nd s :=
  match s return nd s -> nd s with
  | [] => fun v => v
  | _ :: s' =>
      match axis with
      | O => fun a : list (nd s') => rotr a
      | S k => fun a : list (nd s') => map (roll s' k) a
      end
  end.

(** [np.sum(a != b)] for two arrays of one shape. *)
Fixpoint count_ne (s : list nat) : nd s -> nd s -> Z :=
  match s return nd s -> nd s -> Z with
  | [] => fun x y => if Z.eqb x y then 0%Z else 1%Z
  | _ :: s' => fun a b : list (nd s') =>
      sum (map (fun p => count_ne s' (fst p) (snd p)) (combine a b))
  end.

(** Element at a multi-index, [None] out of range. *)
Fixpoint get (s : list nat) : nd s -> list nat -> option Z :=
  match s return nd s -> list nat -> option Z with
  | [] => fun v idx => match idx with [] => Some v | _ => None end
  | _ :: s' => fun (a : list (nd s')) idx =>
      match idx with
      | [] => None
      | i :: idx' =>
          match nth_error a i with
          | Some row => get s' row idx'
          | None => None
          end
      end
  end.

(** Every cell is 0 or 1. *)
Definition binary (s : list nat) (a : nd s) : Prop :=
  Forall (fun v => v = 0%Z \/ v = 1%Z) (flatten s a).

End Np.

(** ** The Phi metric: class [PhiCalculator] *)

Module PhiCalculator.
Import Np.

(** Python floats, idealised as real numbers: no rounding, no [inf], no
    [nan]. *)
Abbreviation float := R (only parsing).

(** [np.log2] *)
Definition log2 (x : float) : float := (ln x / ln 2)%R.

(** The [for axis in range(ndim)] loop of [_calculate_integration]: the
    final values of [transitions] and [total_edges]. *)
Definition integration_loop (s : list nat) (pattern : nd s) : Z * Z :=
  fold_left
    (fun (acc : Z * Z) (axis : nat) =>
       let '(transitions, total_edges) := acc in
       let shifted := roll s axis pattern in
       ((transitions + count_ne s pattern shifted)%Z,
        (total_edges + Z.of_nat (size s))%Z))
    (seq 0 (ndim s)) (0%Z, 0%Z).

Definition _calculate_integration (s : list nat) (pattern : nd s) : float :=
  let '(transitions, total_edges) := integration_loop s pattern in
  if (total_edges >? 0)%Z
  then (IZR transitions / IZR total_edges)%R
  else 0%R.

(** [alive_cells] and [n_cells] as [calculate_phi] computes them. *)
Definition alive_cells (s : list nat) (pattern : nd s) : Z :=
  sum (flatten s pattern).

Definition n_cells (s : list nat) (pattern : nd s) : Z :=
  Z.of_nat (length (flatten s pattern)).

(** The edge-case test: all dead or all alive. *)
Definition degenerate (s : list nat) (pattern : nd s) : bool :=
  (alive_cells s pattern =? 0)%Z
  || (alive_cells s pattern =? n_cells s pattern)%Z.

Definition calculate_phi (s : list nat) (pattern : nd s)
  : float * float * float * float :=
  if degenerate s pattern then (0, 0, 0, 0)%R
  else
    let R_ := (IZR (alive_cells s pattern) / IZR (n_cells s pattern))%R in
    let S_ := _calculate_integration s pattern in
    let p_alive := (IZR (alive_cells s pattern) / IZR (n_cells s pattern))%R in
    let p_dead := (1 - p_alive)%R in
    let D_ := (- (p_alive * log2 p_alive + p_dead * log2 p_dead))%R in
    let phi := (R_ * S_ + D_)%R in
    (phi, R_, S_, D_).

End PhiCalculator.

(** ** Python objects: a heap of arrays, exceptions *)

Module Py.
Import Np.

Inductive exn : Set :=
| ValueError   (* a negative dimension, a seed out of range, or shapes that
                  do not match *)
| IndexError   (* an index out of the bounds of its axis *)
| TypeError    (* a name that is bound to no array object *)
| ZeroDivisionError.   (* a float divided by zero *)

Inductive result (A : Type) : Type :=
| Ok (a : A)
| Raise (e : exn).
Arguments Ok {A} a.
Arguments Raise {A} e.

(** An array object carries its shape and its contents. *)
Definition obj : Type := { s : list nat & nd s }.
Definition mk_obj (s : list nat) (a : nd s) : obj := existT nd s a.
Definition shape (o : obj) : list nat := projT1 o.

(** A location is an index in the heap; allocation appends. *)
Definition loc : Set := nat.
Definition heap : Type := list obj.

Definition M (A : Type) : Type := heap -> result (A * heap).

Definition ret {A : Type} (a : A) : M A := fun h => Ok (a, h).

Definition bind {A B : Type} (m : M A) (k : A -> M B) : M B :=
  fun h => match m h with
           | Ok (a, h') => k a h'
           | Raise e => Raise e
           end.

Definition raise {A : Type} (e : exn) : M A := fun _ => Raise e.

Notation "x <- m ;; k" := (bind m (fun x => k))
  (at level 61, m at next level, right associativity).
Notation "m ;;; k" := (bind m (fun _ => k))
  (at level 61, right associativity).

(** Replace the element at position [i] (nothing happens out of range). *)
Fixpoint set_nth {A : Type} (i : nat) (x : A) (l : list A) : list A :=
  match l, i with
  | [], _ => []
  | _ :: l', O => x :: l'
  | y :: l', S i' => y :: set_nth i' x l'
  end.

Definition alloc (o : obj) : M loc :=
  fun h => Ok (length h, h ++ [o]).

Definition load (l : loc) : M obj :=
  fun h => match nth_error h l with
           | Some o => Ok (o, h)
           | None => Raise TypeError
           end.

Definition store (l : loc) (o : obj) : M unit :=
  fun h => if (l <? length h)%nat then Ok (tt, set_nth l o h)
           else Raise TypeError.

Definition shape_eq_dec : forall s s' : list nat, {s = s'} + {s <> s'} :=
  list_eq_dec Nat.eq_dec.

(** View the contents of an object at a shape known to be its own. *)
Definition cast {s s' : list nat} (e : s = s') (a : nd s) : nd s' :=
  eq_rect s nd a s' e.

(** [np.zeros(dims, dtype=int)]: a negative dimension is a [ValueError]. *)
Definition np_zeros (dims : list Z) : M loc :=
  if forallb (fun d => (0 <=? d)%Z) dims
  then alloc (mk_obj (map Z.to_nat dims) (zeros (map Z.to_nat dims)))
  else raise ValueError.

(** Python index normalisation on an axis of extent [n]: negative indices
    count from the end; anything else out of range is an [IndexError]. *)
Definition norm_index (i : Z) (n : nat) : option nat :=
  if ((0 <=? i) && (i <? Z.of_nat n))%Z then Some (Z.to_nat i)
  else if ((- Z.of_nat n <=? i) && (i <? 0))%Z
       then Some (Z.to_nat (i + Z.of_nat n))
  else None.

(** [a[i, ...] = v] on contents. *)
Definition assign_first (n : nat) (s : list nat) (i : nat)
    (a : nd (n :: s)) (v : nd s) : nd (n :: s) :=
  set_nth (A := nd s) i v a.

(** [a[..., j] = v] on contents: [a] has one more, last, axis than [v]. *)
Fixpoint assign_last (s : list nat) (m : nat) (j : nat)
  : nd (s ++ [m]) -> nd s -> nd (s ++ [m]) :=
  match s return nd (s ++ [m]) -> nd s -> nd (s ++ [m]) with
  | [] => fun (a : list Z) (v : Z) => set_nth j v a
  | _ :: s' => fun (a : list (nd (s' ++ [m]))) (v : list (nd s')) =>
      map (fun p => assign_last s' m j (fst p) (snd p)) (combine a v)
  end.

(** [dst[i, ...] = src] for array objects.  The source must have the shape
    of one slice; numpy's broadcasting of other shapes is not modelled and
    is reported as [ValueError]. *)
Definition setitem_first (dst : loc) (i : Z) (src : loc) : M unit :=
  d <- load dst ;;
  v <- load src ;;
  match d with
  | existT _ [] _ => raise IndexError
  | existT _ (n :: s) a =>
      match norm_index i n with
      | None => raise IndexError
      | Some i' =>
          match shape_eq_dec (shape v) s with
          | left e => store dst (mk_obj (n :: s)
                        (assign_first n s i' a (cast e (projT2 v))))
          | right _ => raise ValueError
          end
      end
  end.

(** [dst[..., j] = src] for array objects, with the same proviso. *)
Definition setitem_last (dst : loc) (j : Z) (src : loc) : M unit :=
  d <- load dst ;;
  v <- load src ;;
  if (ndim (shape d) =? 0)%nat then raise IndexError
  else
    let m := last (shape d) O in
    match norm_index j m with
    | None => raise IndexError
    | Some j' =>
        match shape_eq_dec (shape d) (shape v ++ [m]) with
        | left e =>
            store dst (mk_obj (shape v ++ [m])
              (assign_last (shape v) m j' (cast e (projT2 d)) (projT2 v)))
        | right _ => raise ValueError
        end
    end.

(** Python's [x / y] on floats: a zero divisor raises
    [ZeroDivisionError].  (A numpy scalar divided by zero gives [inf] or
    [nan] with a warning instead; the code divides only under a test that
    the divisor is positive, so the two are not told apart here.) *)
Definition truediv (x y : R) : M R :=
  if Req_dec_T y 0 then raise ZeroDivisionError else ret (x / y)%R.

(** The seeds numpy accepts: [np.random.RandomState(seed)] and
    [np.random.seed(seed)] raise [ValueError] for an integer outside
    [0, 2^32). *)
Definition valid_seed (seed : Z) : bool :=
  ((0 <=? seed) && (seed <? 2 ^ 32))%Z.



End Py.

(** ** The helpers of the test scripts *)

Module Tests.
Import Np Py PhiCalculator.

(** [embed_1d_to_2d] of [tests/test_grid_size_sensitivity.py], on a rank-1
    argument. *)
Definition embed_1d_to_2d (grid_1d : loc) (y_size : Z) : M loc :=
  g <- load grid_1d ;;
  match shape g with
  | [] => raise IndexError
  | x :: _ =>
      grid_2d <- np_zeros [Z.of_nat x; y_size] ;;
      let y_mid := (y_size / 2)%Z in
      setitem_last grid_2d y_mid grid_1d ;;;
      ret grid_2d
  end.

(** [l[start::2]], mapped: every second element from [start] on. *)
Fixpoint every_other {A : Type} (f : A -> A) (on : bool) (l : list A)
  : list A :=
  match l with
  | [] => []
  | x :: l' => (if on then f x else x) :: every_other f (negb on) l'
  end.

Fixpoint from_step2 {A : Type} (f : A -> A) (start : nat) (l : list A)
  : list A :=
  match start, l with
  | O, _ => every_other f true l
  | S k, x :: l' => x :: from_step2 f k l'
  | S _, [] => []
  end.

(** [a[r::2, c::2] = v] on a rank-2 array. *)
Definition assign_step2 (n m : nat) (r c : nat) (v : Z) (a : nd [n; m])
  : nd [n; m] :=
  from_step2 (from_step2 (fun _ => v) c) r a.

(** The checkerboard of [test_edge_cases]. *)
Definition grid_checker : nd [20; 20]%nat :=
  let grid_checker := zeros [20; 20]%nat in
  let grid_checker := assign_step2 20 20 0 0 1%Z grid_checker in
  let grid_checker := assign_step2 20 20 1 1 1%Z grid_checker in
  grid_checker.

End Tests.

(** ** Class [DimensionalCascadeValidator] *)

Module Validator.
Import Np Py PhiCalculator.

(** One trial, the dictionary the [test_*] methods return. *)
Record TransitionRecord : Type := {
  pattern_id : Z;
  transition : String.string;
  phi_lower : float;
  phi_higher : float;
  ratio_phi : float;
  loss_pct : float;
  R_lower : float;
  R_higher : float;
  ratio_R : float;
  S_lower : float;
  S_higher : float;
  ratio_S : float;
  D_lower : float;
  D_higher : float;
  ratio_D : float;
  alive_cells_lower : Z;
  alive_cells_higher : Z
}.

(** The dictionary of [run_all_tests]. *)
Record Results : Type := {
  test_1d_2d : list TransitionRecord;
  test_2d_3d : list TransitionRecord;
  test_3d_4d : list TransitionRecord
}.

(** The fields of [self]. *)
Record validator : Type := {
  n_patterns : Z;
  grid_size : Z
}.


(** [self.phi_calc.calculate_phi(pattern)] on an array object. *)
Definition calculate_phi_at (pattern : loc) : M (float * float * float * float) :=
  o <- load pattern ;;
  ret (calculate_phi (shape o) (projT2 o)).

(** [np.sum(pattern)] on an array object. *)
Definition np_sum (pattern : loc) : M Z :=
  o <- load pattern ;;
  ret (sum (flatten (shape o) (projT2 o))).

(** The value of [x / y if y > 0 else 0]. *)
Definition ratio_or_zero (x y : float) : float :=
  if Rlt_dec 0 y then (x / y)%R else 0%R.

(** [x / y if y > 0 else 0] as it is evaluated: the division is performed
    only when the test succeeds. *)
Definition div_if_positive (x y : float) : M float :=
  if Rlt_dec 0 y then truediv x y else ret 0%R.

(** The record of a trial as a function of the two patterns it measured:
    what each [test_*] method is shown to return. *)
Definition record_of (pattern_id : Z) (transition : String.string)
    (s_lo : list nat) (lo : nd s_lo) (s_hi : list nat) (hi : nd s_hi)
  : TransitionRecord :=
  let '(phi_lo, R_lo, S_lo, D_lo) := calculate_phi s_lo lo in
  let '(phi_hi, R_hi, S_hi, D_hi) := calculate_phi s_hi hi in
  {| pattern_id := pattern_id;
     transition := transition;
     phi_lower := phi_lo;
     phi_higher := phi_hi;
     ratio_phi := ratio_or_zero phi_hi phi_lo;
     loss_pct := ((1 - ratio_or_zero phi_hi phi_lo) * 100)%R;
     R_lower := R_lo;
     R_higher := R_hi;
     ratio_R := ratio_or_zero R_hi R_lo;
     S_lower := S_lo;
     S_higher := S_hi;
     ratio_S := ratio_or_zero S_hi S_lo;
     D_lower := D_lo;
     D_higher := D_hi;
     ratio_D := ratio_or_zero D_hi D_lo;
     alive_cells_lower := sum (flatten s_lo lo);
     alive_cells_higher := sum (flatten s_hi hi) |}.

Section Methods.

(** [np.random.RandomState(seed).randint(0, 2, size=s)]: the cells drawn
    for a seed and a shape.  The generator itself is external. *)
Variable randint : Z -> forall s : list nat, nd s.

Variable self : validator.

(** [np.random.RandomState(seed)] refuses a seed outside [0, 2^32) with a
    [ValueError]; a negative size is numpy's [ValueError] too. *)
Definition generate (seed : Z) (dims : list Z) : M loc :=
  if valid_seed seed
  then if forallb (fun d => (0 <=? d)%Z) dims
       then alloc (mk_obj (map Z.to_nat dims)
                     (randint seed (map Z.to_nat dims)))
       else raise ValueError
  else raise ValueError.

Definition generate_1d_pattern (seed : Z) : M loc :=
  generate seed [grid_size self].

Definition generate_2d_pattern (seed : Z) : M loc :=
  generate seed [grid_size self; grid_size self].

Definition generate_3d_pattern (seed : Z) : M loc :=
  generate seed [grid_size self; grid_size self; grid_size self].

(** "Embed in 2D (middle row)": the two statements of [test_1d_to_2d]. *)
Definition embed_middle_row (pattern_1d : loc) : M loc :=
  pattern_2d <- np_zeros [grid_size self; grid_size self] ;;
  setitem_first pattern_2d (grid_size self / 2)%Z pattern_1d ;;;
  ret pattern_2d.

(** "Embed in 3D (middle slice)": the two statements of [test_2d_to_3d]. *)
Definition embed_middle_slice (pattern_2d : loc) : M loc :=
  pattern_3d <- np_zeros [grid_size self; grid_size self; grid_size self] ;;
  setitem_last pattern_3d (grid_size self / 2)%Z pattern_2d ;;;
  ret pattern_3d.

(** "Embed in 4D (middle hyperslice)": the two statements of
    [test_3d_to_4d]. *)
Definition embed_middle_hyperslice (pattern_3d : loc) : M loc :=
  pattern_4d <- np_zeros
    [grid_size self; grid_size self; grid_size self; grid_size self] ;;
  setitem_last pattern_4d (grid_size self / 2)%Z pattern_3d ;;;
  ret pattern_4d.

Definition test_1d_to_2d (pattern_id seed : Z) : M TransitionRecord :=
  pattern_1d <- generate_1d_pattern seed ;;
  r1 <- calculate_phi_at pattern_1d ;;
  let '(phi_1d, R_1d, S_1d, D_1d) := r1 in
  pattern_2d <- embed_middle_row pattern_1d ;;
  r2 <- calculate_phi_at pattern_2d ;;
  let '(phi_2d, R_2d, S_2d, D_2d) := r2 in
  ratio <- div_if_positive phi_2d phi_1d ;;
  let loss := ((1 - ratio) * 100)%R in
  ratio_R <- div_if_positive R_2d R_1d ;;
  ratio_S <- div_if_positive S_2d S_1d ;;
  ratio_D <- div_if_positive D_2d D_1d ;;
  alive_lower <- np_sum pattern_1d ;;
  alive_higher <- np_sum pattern_2d ;;
  ret {| pattern_id := pattern_id;
         transition := "1D→2D"%string;
         phi_lower := phi_1d;
         phi_higher := phi_2d;
         ratio_phi := ratio;
         loss_pct := loss;
         R_lower := R_1d;
         R_higher := R_2d;
         ratio_R := ratio_R;
         S_lower := S_1d;
         S_higher := S_2d;
         ratio_S := ratio_S;
         D_lower := D_1d;
         D_higher := D_2d;
         ratio_D := ratio_D;
         alive_cells_lower := alive_lower;
         alive_cells_higher := alive_higher |}.

Definition test_2d_to_3d (pattern_id seed : Z) : M TransitionRecord :=
  pattern_2d <- generate_2d_pattern seed ;;
  r2 <- calculate_phi_at pattern_2d ;;
  let '(phi_2d, R_2d, S_2d, D_2d) := r2 in
  pattern_3d <- embed_middle_slice pattern_2d ;;
  r3 <- calculate_phi_at pattern_3d ;;
  let '(phi_3d, R_3d, S_3d, D_3d) := r3 in
  ratio <- div_if_positive phi_3d phi_2d ;;
  let loss := ((1 - ratio) * 100)%R in
  ratio_R <- div_if_positive R_3d R_2d ;;
  ratio_S <- div_if_positive S_3d S_2d ;;
  ratio_D <- div_if_positive D_3d D_2d ;;
  alive_lower <- np_sum pattern_2d ;;
  alive_higher <- np_sum pattern_3d ;;
  ret {| pattern_id := pattern_id;
         transition := "2D→3D"%string;
         phi_lower := phi_2d;
         phi_higher := phi_3d;
         ratio_phi := ratio;
         loss_pct := loss;
         R_lower := R_2d;
         R_higher := R_3d;
         ratio_R := ratio_R;
         S_lower := S_2d;
         S_higher := S_3d;
         ratio_S := ratio_S;
         D_lower := D_2d;
         D_higher := D_3d;
         ratio_D := ratio_D;
         alive_cells_lower := alive_lower;
         alive_cells_higher := alive_higher |}.

Definition test_3d_to_4d (pattern_id seed : Z) : M TransitionRecord :=
  pattern_3d <- generate_3d_pattern seed ;;
  r3 <- calculate_phi_at pattern_3d ;;
  let '(phi_3d, R_3d, S_3d, D_3d) := r3 in
  pattern_4d <- embed_middle_hyperslice pattern_3d ;;
  r4 <- calculate_phi_at pattern_4d ;;
  let '(phi_4d, R_4d, S_4d, D_4d) := r4 in
  ratio <- div_if_positive phi_4d phi_3d ;;
  let loss := ((1 - ratio) * 100)%R in
  ratio_R <- div_if_positive R_4d R_3d ;;
  ratio_S <- div_if_positive S_4d S_3d ;;
  ratio_D <- div_if_positive D_4d D_3d ;;
  alive_lower <- np_sum pattern_3d ;;
  alive_higher <- np_sum pattern_4d ;;
  ret {| pattern_id := pattern_id;
         transition := "3D→4D"%string;
         phi_lower := phi_3d;
         phi_higher := phi_4d;
         ratio_phi := ratio;
         loss_pct := loss;
         R_lower := R_3d;
         R_higher := R_4d;
         ratio_R := ratio_R;
         S_lower := S_3d;
         S_higher := S_4d;
         ratio_S := ratio_S;
         D_lower := D_3d;
         D_higher := D_4d;
         ratio_D := ratio_D;
         alive_cells_lower := alive_lower;
         alive_cells_higher := alive_higher |}.



End Methods.

End Validator.

(** ** The specification's own wording of the metric *)

Module Spec.
Import Np Py PhiCalculator.

(** All positions of an array of shape [s], in row-major order. *)
Fixpoint indices (s : list nat) : list (list nat) :=
  match s with
  | [] => [[]]
  | n :: s' => flat_map (fun i => map (cons i) (indices s')) (seq 0 n)
  end.

(** The position one step back along [axis], wrapping around. *)
Fixpoint prev_index (s : list nat) (axis : nat) (idx : list nat) : list nat :=
  match s, idx with
  | n :: s', i :: idx' =>
      match axis with
      | O => ((i + n - 1) mod n)%nat :: idx'
      | S k => i :: prev_index s' k idx'
      end
  | _, _ => idx
  end.

(** Do the cell of [a] at [idx] and the cell of [b] at [idx'] differ? *)
Definition differs (s : list nat) (a : nd s) (idx : list nat)
    (b : nd s) (idx' : list nat) : bool :=
  match get s a idx, get s b idx' with
  | Some x, Some y => negb (x =? y)%Z
  | _, _ => false
  end.

(** How many elements of a list pass a test. *)
Definition count {A : Type} (f : A -> bool) (l : list A) : Z :=
  Z.of_nat (length (filter f l)).

(** The number of positions whose cell differs from its cyclic
    predecessor along [axis]. *)
Definition shifted_diffs (s : list nat) (axis : nat) (a : nd s) : Z :=
  count (fun idx => differs s a idx a (prev_index s axis idx)) (indices s).

(** S as the specification words it: differing positions over all axes,
    divided by rank times cell count. *)
Definition integration (s : list nat) (a : nd s) : float :=
  (IZR (sum (map (fun axis => shifted_diffs s axis a) (seq 0 (ndim s))))
   / IZR (Z.of_nat (ndim s) * Z.of_nat (size s)))%R.

(** Binary Shannon entropy, base 2. *)
Definition binary_entropy (p : float) : float :=
  (- (p * log2 p + (1 - p) * log2 (1 - p)))%R.

(** What the specification asks of the contents [E] of an embedding of [P]
    when the new axis, of extent [m], comes last: the shape gains that one
    axis, the slice at index [mid] along it is [P], every other cell is 0. *)
Definition embedded_last (s : list nat) (m mid : nat) (P : nd s)
    (E : nd (s ++ [m])) : Prop :=
  wf (s ++ [m]) E /\
  forall idx j, In idx (indices s) -> (j < m)%nat ->
    get (s ++ [m]) E (idx ++ [j])
    = if (j =? mid)%nat then get s P idx else Some 0%Z.

(** The same when the new axis comes first. *)
Definition embedded_first (s : list nat) (m mid : nat) (P : nd s)
    (E : nd (m :: s)) : Prop :=
  wf (m :: s) E /\
  forall j idx, (j < m)%nat -> In idx (indices s) ->
    get (m :: s) E (j :: idx)
    = if (j =? mid)%nat then get s P idx else Some 0%Z.

(** The outcome asked of an embedding run from heap [h]: a new object,
    at a location unused in [h], whose rank is one more than the rank of
    [P] and whose contents embed [P]; every object of [h], the source
    pattern among them, is left as it was. *)
Definition embeds_last (h : heap) (s : list nat) (m mid : nat) (P : nd s)
    (r : result (loc * heap)) : Prop :=
  exists (dst : loc) (h' : heap) (E : nd (s ++ [m])),
    r = Ok (dst, h') /\
    nth_error h dst = None /\
    nth_error h' dst = Some (mk_obj (s ++ [m]) E) /\
    (forall l o, nth_error h l = Some o -> nth_error h' l = Some o) /\
    ndim (s ++ [m]) = S (ndim s) /\
    embedded_last s m mid P E.

Definition embeds_first (h : heap) (s : list nat) (m mid : nat) (P : nd s)
    (r : result (loc * heap)) : Prop :=
  exists (dst : loc) (h' : heap) (E : nd (m :: s)),
    r = Ok (dst, h') /\
    nth_error h dst = None /\
    nth_error h' dst = Some (mk_obj (m :: s) E) /\
    (forall l o, nth_error h l = Some o -> nth_error h' l = Some o) /\
    ndim (m :: s) = S (ndim s) /\
    embedded_first s m mid P E.

(** A pattern all of whose cells hold [v]. *)
Definition uniform (s : list nat) (a : nd s) (v : Z) : Prop :=
  Forall (fun c => c = v) (flatten s a).

End Spec.

(** ** Concrete inputs *)

Module Samples.
Import Np.

Definition sample_1d : nd [4%nat] := [1; 0; 1; 1]%Z.

Definition sample_2d : nd [2; 3]%nat := [[1; 0; 1]; [0; 0; 1]]%Z.

(** Fill an array of shape [s] in row-major order from a function of the
    flat position. *)
Fixpoint tabulate (f : nat -> Z) (s : list nat) (off : nat) : nd s :=
  match s return nd s with
  | [] => f off
  | n :: s' => map (fun i => tabulate f s' (off + i * size s')%nat) (seq 0 n)
  end.

(** A fixed, reproducible stand-in for the random generator. *)
Definition sample_randint (seed : Z) (s : list nat) : nd s :=
  tabulate (fun k => Z.of_nat ((k + k / 3 + Z.to_nat seed) mod 2)) s 0.

End Samples.

(** ** The trial of [tests/test_grid_size_sensitivity.py] *)

Module GridSizeTest.
Import Np Py PhiCalculator.

(** The dictionary [test_1d_to_2d_size] returns. *)
Record SizeRecord : Type := {
  pattern_id : Z;
  grid_size : Z;
  loss_pct : float;
  ratio_phi : float;
  phi_1d : float;
  phi_2d : float
}.

(** [measure_phi]: a fresh [PhiCalculator] applied to an array object.  The
    script imports the class from [validate_dimensional_cascade_unified];
    the class of that name in [validate_dimensional_cascade_multisize.py]
    is the one embedded here. *)
Definition measure_phi (grid : loc) : M (float * float * float * float) :=
  Validator.calculate_phi_at grid.

Section Trial.

(** [np.random.choice([0, 1], size=s, p=[1-density, density])] after
    [np.random.seed(seed)] and the draw of [density]: the cells drawn for a
    seed and a shape.  The generator itself is external. *)
Variable choice : Z -> forall s : list nat, nd s.

(** A negative size is numpy's [ValueError]. *)
Definition generate_pattern_1d (grid_size seed : Z) : M loc :=
  if valid_seed seed
  then if (0 <=? grid_size)%Z
       then alloc (mk_obj [Z.to_nat grid_size]
                     (choice seed [Z.to_nat grid_size]))
       else raise ValueError
  else raise ValueError.

Definition test_1d_to_2d_size (pattern_id grid_size seed_start : Z)
  : M SizeRecord :=
  let seed := (seed_start + pattern_id)%Z in
  grid_1d <- generate_pattern_1d grid_size seed ;;
  r1 <- measure_phi grid_1d ;;
  let '(phi_1d, _, _, _) := r1 in
  grid_2d <- Tests.embed_1d_to_2d grid_1d grid_size ;;
  r2 <- measure_phi grid_2d ;;
  let '(phi_2d, _, _, _) := r2 in
  ratio_phi <- Validator.div_if_positive phi_2d phi_1d ;;
  let loss_pct := ((1 - ratio_phi) * 100)%R in
  ret {| pattern_id := pattern_id;
         grid_size := grid_size;
         loss_pct := loss_pct;
         ratio_phi := ratio_phi;
         phi_1d := phi_1d;
         phi_2d := phi_2d |}.

End Trial.

End GridSizeTest.

(** ** The helpers of [tests/test_highlife_validation.py] *)

Module HighLifeTest.
Import Np Py PhiCalculator.

(** The dictionary [test_2d_to_3d_highlife] returns. *)
Record HighLifeRecord : Type := {
  pattern_id : Z;
  loss_pct : float;
  ratio_phi : float;
  phi_2d : float;
  phi_3d : float
}.

(** [embed_2d_to_3d]: [x, y = grid_2d.shape] asks for exactly two axes. *)
Definition embed_2d_to_3d (grid_2d : loc) (z_size : Z) : M loc :=
  g <- load grid_2d ;;
  match shape g with
  | [x; y] =>
      grid_3d <- np_zeros [Z.of_nat x; Z.of_nat y; z_size] ;;
      let z_mid := (z_size / 2)%Z in
      setitem_last grid_3d z_mid grid_2d ;;;
      ret grid_3d
  | _ => raise ValueError
  end.

(** [measure_phi], as in [GridSizeTest]. *)
Definition measure_phi (grid : loc) : M (float * float * float * float) :=
  Validator.calculate_phi_at grid.

Section Trial.

(** The seeded generator, as in [GridSizeTest]. *)
Variable choice : Z -> forall s : list nat, nd s.

Definition generate_pattern_2d (grid_size seed : Z) : M loc :=
  if valid_seed seed
  then if (0 <=? grid_size)%Z
       then alloc (mk_obj [Z.to_nat grid_size; Z.to_nat grid_size]
                     (choice seed [Z.to_nat grid_size; Z.to_nat grid_size]))
       else raise ValueError
  else raise ValueError.

Definition test_2d_to_3d_highlife (pattern_id grid_size seed_start : Z)
  : M HighLifeRecord :=
  let seed := (seed_start + pattern_id)%Z in
  grid_2d <- generate_pattern_2d grid_size seed ;;
  r2 <- measure_phi grid_2d ;;
  let '(phi_2d, _, _, _) := r2 in
  grid_3d <- embed_2d_to_3d grid_2d grid_size ;;
  r3 <- measure_phi grid_3d ;;
  let '(phi_3d, _, _, _) := r3 in
  ratio_phi <- Validator.div_if_positive phi_3d phi_2d ;;
  let loss_pct := ((1 - ratio_phi) * 100)%R in
  ret {| pattern_id := pattern_id;
         loss_pct := loss_pct;
         ratio_phi := ratio_phi;
         phi_2d := phi_2d;
         phi_3d := phi_3d |}.

End Trial.

End HighLifeTest.

(** ** Wording of the properties of the trial loops *)

Module Sequencing.
Import Np Py Validator.


End Sequencing.

(** ** The statistics of a run *)

Module Statistics.
Import Np Py PhiCalculator Validator.

(** A float64 computed by numpy from a list of numbers: a number, or
    [nan]. *)
Inductive f64 : Type :=
| Num (x : float)
| NaN.

Definition rsum (l : list float) : float := fold_right Rplus 0%R l.

(** [np.mean]: [nan] on an empty list.  The sum and the quotient are taken
    over the reals; float64 rounds both, so the computed mean need not
    equal this value exactly and can leave the range of the losses by a
    rounding error. *)
Definition np_mean (l : list float) : f64 :=
  match l with
  | [] => NaN
  | _ :: _ => Num (rsum l / INR (length l))
  end.

(** [np.std(l, ddof=1)]: the squared deviations from the mean are summed
    and divided by [len(l) - 1]; with fewer than two values this is 0/0, or
    starts from a [nan] mean, and the result is [nan]. *)
Definition np_std_ddof1 (l : list float) : f64 :=
  match l with
  | [] | [_] => NaN
  | _ :: _ :: _ =>
      let m := (rsum l / INR (length l))%R in
      Num (sqrt (rsum (map (fun x => (x - m) * (x - m))%R l)
                 / INR (length l - 1)))
  end.

(** [np.sqrt(len(l))] *)
Definition sqrt_len (l : list float) : float := sqrt (INR (length l)).

(** Division of a float64 by a number; the divisor is positive whenever the
    dividend is a number. *)
Definition f64_div (a : f64) (b : float) : f64 :=
  match a with
  | Num x => Num (x / b)
  | NaN => NaN
  end.

(** [np.min] and [np.max] raise [ValueError] on an empty list. *)
Definition np_min (l : list float) : M float :=
  match l with
  | [] => raise ValueError
  | x :: l' => ret (fold_right Rmin x l')
  end.

Definition np_max (l : list float) : M float :=
  match l with
  | [] => raise ValueError
  | x :: l' => ret (fold_right Rmax x l')
  end.

(** Sorting in increasing order. *)
Fixpoint insert (x : float) (l : list float) : list float :=
  match l with
  | [] => [x]
  | y :: l' => if Rle_dec x y then x :: l else y :: insert x l'
  end.

Definition np_sort (l : list float) : list float := fold_right insert [] l.

(** [np.median]: the middle value of the sorted list, or the mean of the two
    middle values when the length is even; [nan] on an empty list. *)
Definition np_median (l : list float) : f64 :=
  match l with
  | [] => NaN
  | _ :: _ =>
      let a := np_sort l in
      let sz := length l in
      if Nat.even sz
      then Num ((nth (sz / 2 - 1) a 0 + nth (sz / 2) a 0) / 2)%R
      else Num (nth ((sz - 1) / 2) a 0%R)
  end.

(** The value of a sorted list of [n] numbers at the virtual index
    [num / 100]: the entry below it, moved towards the next entry by the
    fractional part of the index. *)
Definition at_virtual_index (a : list float) (n : nat) (num : Z) : float :=
  let previous := Z.to_nat (num / 100) in
  let next := Nat.min (previous + 1) (n - 1) in
  let gamma := (IZR (num mod 100) / 100)%R in
  (nth previous a 0 + (nth next a 0 - nth previous a 0) * gamma)%R.

(** [np.percentile(l, q)] for a whole [q] from 0 to 100, with the default
    linear interpolation at the virtual index [(len(l) - 1) * q / 100];
    [nan] on an empty list. *)
Definition np_percentile (l : list float) (q : Z) : f64 :=
  match l with
  | [] => NaN
  | _ :: _ =>
      Num (at_virtual_index (np_sort l) (length l)
             (q * (Z.of_nat (length l) - 1)))
  end.

(** The dictionary [calculate_statistics] builds for one transition. *)
Record Stats : Type := {
  n : Z;
  mean_loss_pct : f64;
  std_loss_pct : f64;
  sem_loss_pct : f64;
  min_loss_pct : float;
  max_loss_pct : float;
  median_loss_pct : f64;
  q25_loss_pct : f64;
  q75_loss_pct : f64
}.

(** The dictionary [calculate_statistics] returns: one entry for each key
    of the dictionary of [run_all_tests]. *)
Record StatsTable : Type := {
  stats_1d_2d : Stats;
  stats_2d_3d : Stats;
  stats_3d_4d : Stats
}.

(** The body of the loop of [calculate_statistics]: the entries of the
    dictionary are evaluated in the order they are written. *)
Definition stats_of (test_data : list TransitionRecord) : M Stats :=
  let losses := map loss_pct test_data in
  let n := Z.of_nat (length losses) in
  let mean := np_mean losses in
  let std := np_std_ddof1 losses in
  let sem := f64_div (np_std_ddof1 losses) (sqrt_len losses) in
  mn <- np_min losses ;;
  mx <- np_max losses ;;
  ret {| n := n;
         mean_loss_pct := mean;
         std_loss_pct := std;
         sem_loss_pct := sem;
         min_loss_pct := mn;
         max_loss_pct := mx;
         median_loss_pct := np_median losses;
         q25_loss_pct := np_percentile losses 25;
         q75_loss_pct := np_percentile losses 75 |}.

Definition calculate_statistics (self : validator) (results : Results)
  : M StatsTable :=
  s12 <- stats_of (test_1d_2d results) ;;
  s23 <- stats_of (test_2d_3d results) ;;
  s34 <- stats_of (test_3d_4d results) ;;
  ret {| stats_1d_2d := s12; stats_2d_3d := s23; stats_3d_4d := s34 |}.


(** What an entry says of the losses it was computed from: their number,
    their least and greatest value, a mean that is a number, and a median
    and quartiles in increasing order between the least and the greatest
    value; the standard deviation and the standard error are [nan] exactly
    when there is a single loss, and are not negative otherwise. *)
Definition summarises (e : Stats) (losses : list float) : Prop :=
  n e = Z.of_nat (length losses) /\
  In (min_loss_pct e) losses /\ In (max_loss_pct e) losses /\
  (forall x, In x losses -> min_loss_pct e <= x <= max_loss_pct e)%R /\
  (exists mean med q25 q75 : float,
     mean_loss_pct e = Num mean /\ median_loss_pct e = Num med /\
     q25_loss_pct e = Num q25 /\ q75_loss_pct e = Num q75 /\
     (min_loss_pct e <= q25 /\ q25 <= med /\ med <= q75 /\
      q75 <= max_loss_pct e)%R) /\
  (std_loss_pct e = NaN <-> length losses = 1%nat) /\
  (sem_loss_pct e = NaN <-> length losses = 1%nat) /\
  (forall x, std_loss_pct e = Num x -> 0 <= x)%R /\
  (forall x, sem_loss_pct e = Num x -> 0 <= x)%R.

End Statistics.

(** * Properties *)

Import Np Py PhiCalculator.

(** ** Real-number facts about the entropy term *)

Section Entropy.
Open Scope R_scope.

Lemma ln2_pos : 0 < ln 2.
Proof. pose proof ln_lt_2; lra. Qed.

Lemma ln_le_sub1 (x : R) : 0 < x -> ln x <= x - 1.
Proof.
  intros Hx. pose proof (exp_ineq1_le (ln x)) as H.
  rewrite exp_ln in H by assumption. lra.
Qed.

Lemma ln_neg (x : R) : 0 < x < 1 -> ln x < 0.
Proof.
  intros [H0 H1]. rewrite <- ln_1. now apply ln_increasing.
Qed.

(** [x * ln x >= x * (- ln 2) + x - 1/2]: the tangent bound at [1/2]. *)
Lemma xlnx_lower (x : R) : 0 < x -> - (x * ln x) <= x * ln 2 + / 2 - x.
Proof.
  intros Hx.
  assert (H2x : 0 < / (2 * x)) by (apply Rinv_0_lt_compat; lra).
  pose proof (ln_le_sub1 _ H2x) as H.
  rewrite ln_Rinv in H by lra.
  rewrite ln_mult in H by lra.
  assert (Hm : x * (- (ln 2 + ln x)) <= x * (/ (2 * x) - 1))
    by (apply Rmult_le_compat_l; lra).
  replace (x * (/ (2 * x) - 1)) with (/ 2 - x) in Hm by (field; lra).
  lra.
Qed.

Lemma binary_entropy_pos (p : R) : 0 < p < 1 -> 0 < Spec.binary_entropy p.
Proof.
  intros Hp. unfold Spec.binary_entropy, log2.
  pose proof ln2_pos as H2.
  assert (Ha : ln p < 0) by (apply ln_neg; lra).
  assert (Hb : ln (1 - p) < 0) by (apply ln_neg; lra).
  assert (Hi : 0 < / ln 2) by now apply Rinv_0_lt_compat.
  assert (Hc : p * ln p + (1 - p) * ln (1 - p) < 0) by nra.
  replace (- (p * (ln p / ln 2) + (1 - p) * (ln (1 - p) / ln 2)))
    with (- (p * ln p + (1 - p) * ln (1 - p)) * / ln 2) by (field; lra).
  apply Rmult_lt_0_compat; lra.
Qed.

Lemma binary_entropy_le_1 (p : R) : 0 < p < 1 -> Spec.binary_entropy p <= 1.
Proof.
  intros Hp. unfold Spec.binary_entropy, log2.
  pose proof ln2_pos as H2.
  assert (Ha : - (p * ln p) <= p * ln 2 + / 2 - p) by (apply xlnx_lower; lra).
  assert (Hb : - ((1 - p) * ln (1 - p)) <= (1 - p) * ln 2 + / 2 - (1 - p))
    by (apply xlnx_lower; lra).
  replace (- (p * (ln p / ln 2) + (1 - p) * (ln (1 - p) / ln 2)))
    with (- (p * ln p + (1 - p) * ln (1 - p)) * / ln 2) by (field; lra).
  assert (Hi : 0 < / ln 2) by now apply Rinv_0_lt_compat.
  assert (Hs : - (p * ln p + (1 - p) * ln (1 - p)) <= ln 2) by lra.
  apply Rle_trans with (ln 2 * / ln 2).
  - apply Rmult_le_compat_r; lra.
  - right. field. lra.
Qed.

Lemma log2_half : log2 (/ 2) = -1.
Proof.
  unfold log2. rewrite ln_Rinv by lra. pose proof ln2_pos. field. lra.
Qed.

End Entropy.

(** ** Facts about arrays *)

Section ArrayFacts.
Open Scope Z_scope.

(** The equations of the array operations on a non-empty shape. *)
Lemma wf_cons (n : nat) (s : list nat) (a : list (nd s)) :
  wf (n :: s) a <-> length a = n /\ Forall (wf s) a.
Proof. reflexivity. Qed.

Lemma roll_O (n : nat) (s : list nat) (a : list (nd s)) :
  roll (n :: s) 0 a = rotr a.
Proof. reflexivity. Qed.

Lemma roll_S (n : nat) (s : list nat) (k : nat) (a : list (nd s)) :
  roll (n :: s) (S k) a = map (roll s k) a.
Proof. reflexivity. Qed.

Lemma flatten_cons (n : nat) (s : list nat) (a : list (nd s)) :
  flatten (n :: s) a = flat_map (flatten s) a.
Proof. reflexivity. Qed.

Lemma get_cons (n : nat) (s : list nat) (a : list (nd s)) (i : nat)
    (idx : list nat) :
  get (n :: s) a (i :: idx)
  = match nth_error a i with Some row => get s row idx | None => None end.
Proof. reflexivity. Qed.

Lemma sum_app (l l' : list Z) : sum (l ++ l') = sum l + sum l'.
Proof. induction l as [|x l IH]; simpl; [reflexivity | rewrite IH; ring]. Qed.

Lemma sum_repeat (v : Z) (n : nat) : sum (repeat v n) = v * Z.of_nat n.
Proof.
  induction n as [|n IH]; [simpl; ring|].
  rewrite Nat2Z.inj_succ. cbn [repeat sum fold_right].
  fold (sum (repeat v n)). rewrite IH. ring.
Qed.

Lemma flatten_full (s : list nat) (v : Z) :
  flatten s (full s v) = repeat v (size s).
Proof.
  induction s as [|n s IH]; [reflexivity|].
  cbn [flatten full size fold_right]. fold (size s).
  induction n as [|n IHn]; [reflexivity|].
  cbn [repeat flat_map Nat.mul]. rewrite IHn, IH, repeat_app. reflexivity.
Qed.

Lemma wf_full (s : list nat) (v : Z) : wf s (full s v).
Proof.
  induction s as [|n s IH]; [exact I|].
  cbn [wf full]. split; [apply repeat_length|].
  apply Forall_forall. intros x Hx. apply repeat_spec in Hx. now subst.
Qed.

Lemma length_flatten (s : list nat) (a : nd s) :
  wf s a -> length (flatten s a) = size s.
Proof.
  revert a. induction s as [|n s IH]; intros a Hw; [reflexivity|].
  assert (Haux : forall l : list (nd s), Forall (wf s) l ->
            length (flat_map (flatten s) l) = (length l * size s)%nat).
  { induction 1 as [|x l Hx _ IHl]; [reflexivity|].
    cbn [flat_map length Nat.mul]. rewrite length_app, IHl, (IH x Hx).
    reflexivity. }
  cbn [wf] in Hw. destruct Hw as [Hl Hf].
  cbn [flatten size fold_right]. fold (size s).
  rewrite (Haux a Hf). f_equal. exact Hl.
Qed.

(** A 0/1 list has between no and all cells set. *)
Lemma binary_sum_bounds (l : list Z) :
  Forall (fun v => v = 0 \/ v = 1) l -> 0 <= sum l <= Z.of_nat (length l).
Proof.
  induction 1 as [|x l Hx _ IH]; [simpl; lia|].
  cbn [sum fold_right length]. fold (sum l). rewrite Nat2Z.inj_succ.
  destruct Hx; subst; lia.
Qed.

Lemma binary_sum_zero (l : list Z) :
  Forall (fun v => v = 0 \/ v = 1) l -> sum l = 0 -> Forall (fun c => c = 0) l.
Proof.
  induction 1 as [|x l Hx Hl IH]; intros Hs; [constructor|].
  cbn [sum fold_right] in Hs. fold (sum l) in Hs.
  pose proof (binary_sum_bounds _ Hl).
  constructor; [destruct Hx; lia | apply IH; destruct Hx; lia].
Qed.

Lemma binary_sum_full (l : list Z) :
  Forall (fun v => v = 0 \/ v = 1) l -> sum l = Z.of_nat (length l) ->
  Forall (fun c => c = 1) l.
Proof.
  induction 1 as [|x l Hx Hl IH]; intros Hs; [constructor|].
  cbn [sum fold_right length] in Hs. fold (sum l) in Hs.
  rewrite Nat2Z.inj_succ in Hs.
  pose proof (binary_sum_bounds _ Hl).
  constructor; [destruct Hx; lia | apply IH; destruct Hx; lia].
Qed.

End ArrayFacts.

(** ** Rotation, comparison and the integration loop *)

Section RollFacts.
Open Scope Z_scope.

(** A non-empty list splits into its front and its last element. *)
Lemma rotr_split {A : Type} (x : A) (l : list A) :
  x :: l = removelast (x :: l) ++ [last (x :: l) x].
Proof. apply app_removelast_last. discriminate. Qed.

Lemma rotr_cons {A : Type} (x : A) (l : list A) :
  rotr (x :: l) = last (x :: l) x :: removelast (x :: l).
Proof. reflexivity. Qed.

Lemma length_rotr {A : Type} (l : list A) : length (rotr l) = length l.
Proof.
  destruct l as [|x l]; [reflexivity|].
  rewrite rotr_cons. rewrite (rotr_split x l) at 3.
  rewrite length_app. simpl length. lia.
Qed.

Lemma Forall_rotr {A : Type} (P : A -> Prop) (l : list A) :
  Forall P l -> Forall P (rotr l).
Proof.
  destruct l as [|x l]; [trivial|]. intros H.
  rewrite (rotr_split x l) in H. apply Forall_app in H. destruct H as [H1 H2].
  rewrite rotr_cons. constructor; [now inversion H2 | exact H1].
Qed.

Lemma wf_roll (s : list nat) (k : nat) (a : nd s) :
  wf s a -> wf s (roll s k a).
Proof.
  revert k a. induction s as [|n s IH]; intros k a Hw; [exact I|].
  destruct Hw as [Hl Hf]. destruct k as [|k]; cbn [roll wf]; split.
  - now rewrite length_rotr.
  - now apply Forall_rotr.
  - now rewrite length_map.
  - apply Forall_map. eapply Forall_impl; [|exact Hf]. intros x Hx. now apply IH.
Qed.

Lemma count_ne_bounds (s : list nat) (a b : nd s) :
  0 <= count_ne s a b <= Z.of_nat (length (flatten s a)).
Proof.
  revert a b. induction s as [|n s IH]; intros a b.
  - cbn. destruct (a =? b); lia.
  - cbn [count_ne flatten]. revert b.
    induction a as [|x a IHa]; intros [|y b]; cbn [combine map sum fold_right
      flat_map length]; try lia.
    rewrite length_app, Nat2Z.inj_add. cbn [fst snd].
    specialize (IH x y). specialize (IHa b). unfold sum in IHa. lia.
Qed.

Lemma uniform_count_ne (s : list nat) (v : Z) (a b : nd s) :
  Spec.uniform s a v -> Spec.uniform s b v -> count_ne s a b = 0.
Proof.
  unfold Spec.uniform. revert a b. induction s as [|n s IH]; intros a b Ha Hb.
  - cbn in *. inversion Ha; inversion Hb; subst. now rewrite Z.eqb_refl.
  - cbn [count_ne flatten] in *.
    apply Forall_flat_map in Ha. apply Forall_flat_map in Hb.
    revert b Hb. induction Ha as [|x a Hx _ IHa]; intros [|y b] Hb; try reflexivity.
    inversion Hb; subst. cbn [combine map sum fold_right fst snd].
    fold (sum (map (fun p => count_ne s (fst p) (snd p)) (combine a b))).
    rewrite (IH x y), IHa by assumption. reflexivity.
Qed.

Lemma uniform_roll (s : list nat) (v : Z) (k : nat) (a : nd s) :
  Spec.uniform s a v -> Spec.uniform s (roll s k a) v.
Proof.
  unfold Spec.uniform. revert k a. induction s as [|n s IH]; intros k a Ha;
    [exact Ha|].
  cbn [flatten] in *. apply Forall_flat_map in Ha. apply Forall_flat_map.
  destruct k as [|k]; cbn [roll].
  - now apply Forall_rotr.
  - apply Forall_map. eapply Forall_impl; [|exact Ha]. intros x Hx. now apply IH.
Qed.

(** The loop over the axes in closed form. *)
Lemma integration_loop_closed (s : list nat) (pattern : nd s) :
  integration_loop s pattern =
  (sum (map (fun axis => count_ne s pattern (roll s axis pattern)) (seq 0 (ndim s))),
   Z.of_nat (ndim s) * Z.of_nat (size s)).
Proof.
  unfold integration_loop.
  assert (H : forall (l : list nat) (t e : Z),
    fold_left (fun (acc : Z * Z) (axis : nat) =>
       let '(transitions, total_edges) := acc in
       let shifted := roll s axis pattern in
       (transitions + count_ne s pattern shifted, total_edges + Z.of_nat (size s)))
      l (t, e) =
    (t + sum (map (fun axis => count_ne s pattern (roll s axis pattern)) l),
     e + Z.of_nat (length l) * Z.of_nat (size s))).
  { induction l as [|k l IHl]; intros t e.
    - cbn. f_equal; ring.
    - cbn [fold_left map sum fold_right length]. rewrite IHl.
      rewrite Nat2Z.inj_succ. f_equal; unfold sum; ring. }
  rewrite H. rewrite length_seq. reflexivity.
Qed.

Lemma sum_map_bounds {A : Type} (f : A -> Z) (c : Z) (l : list A) :
  (forall x, 0 <= f x <= c) ->
  0 <= sum (map f l) <= Z.of_nat (length l) * c.
Proof.
  intros Hf. induction l as [|x l IH]; [cbn; lia|].
  cbn [map sum fold_right length]. fold (sum (map f l)).
  rewrite Nat2Z.inj_succ. specialize (Hf x). lia.
Qed.

End RollFacts.

(** ** The metric on degenerate and non-degenerate patterns *)

Section PhiFacts.

Lemma degenerate_iff (s : list nat) (pattern : nd s) :
  degenerate s pattern = true <->
  (alive_cells s pattern = 0 \/ alive_cells s pattern = n_cells s pattern)%Z.
Proof.
  unfold degenerate. rewrite orb_true_iff, !Z.eqb_eq. reflexivity.
Qed.

Lemma alive_full (s : list nat) (v : Z) :
  alive_cells s (full s v) = (v * Z.of_nat (size s))%Z.
Proof. unfold alive_cells. now rewrite flatten_full, sum_repeat. Qed.

Lemma n_cells_full (s : list nat) (v : Z) :
  n_cells s (full s v) = Z.of_nat (size s).
Proof. unfold n_cells. now rewrite flatten_full, repeat_length. Qed.

(** What [calculate_phi] returns past the edge-case test. *)
Lemma calculate_phi_regular (s : list nat) (pattern : nd s) :
  degenerate s pattern = false ->
  let p := (IZR (alive_cells s pattern) / IZR (n_cells s pattern))%R in
  calculate_phi s pattern =
  ((p * _calculate_integration s pattern + Spec.binary_entropy p)%R,
   p, _calculate_integration s pattern, Spec.binary_entropy p).
Proof. intros H. unfold calculate_phi. rewrite H. reflexivity. Qed.

Lemma binary_alive_bounds (s : list nat) (pattern : nd s) :
  binary s pattern ->
  (0 <= alive_cells s pattern <= n_cells s pattern)%Z.
Proof. intros H. now apply binary_sum_bounds. Qed.

Lemma regular_alive_strict (s : list nat) (pattern : nd s) :
  binary s pattern -> degenerate s pattern = false ->
  (0 < alive_cells s pattern < n_cells s pattern)%Z.
Proof.
  intros Hb Hd. pose proof (binary_alive_bounds s pattern Hb) as H.
  unfold degenerate in Hd. apply orb_false_iff in Hd. destruct Hd as [H0 H1].
  apply Z.eqb_neq in H0, H1. lia.
Qed.

Lemma ratio_unit (a b : Z) :
  (0 <= a <= b)%Z -> (0 < b)%Z -> (0 <= IZR a / IZR b <= 1)%R.
Proof.
  intros [Ha Hab] Hb.
  apply IZR_le in Ha, Hab. apply IZR_lt in Hb.
  assert (Hi : (0 < / IZR b)%R) by now apply Rinv_0_lt_compat.
  unfold Rdiv. split.
  - apply Rmult_le_pos; lra.
  - apply Rle_trans with (IZR b * / IZR b)%R.
    + apply Rmult_le_compat_r; lra.
    + right. field. lra.
Qed.

Lemma ratio_strict (a b : Z) :
  (0 < a < b)%Z -> (0 < IZR a / IZR b < 1)%R.
Proof.
  intros [Ha Hab].
  apply IZR_lt in Ha, Hab.
  assert (Hi : (0 < / IZR b)%R) by (apply Rinv_0_lt_compat; lra).
  unfold Rdiv. split.
  - apply Rmult_lt_0_compat; lra.
  - apply Rlt_le_trans with (IZR b * / IZR b)%R.
    + apply Rmult_lt_compat_r; lra.
    + right. field. lra.
Qed.

Lemma integration_bounds (s : list nat) (pattern : nd s) :
  wf s pattern -> (0 <= _calculate_integration s pattern <= 1)%R.
Proof.
  intros Hw. unfold _calculate_integration.
  rewrite integration_loop_closed.
  destruct (Z.gtb_spec (Z.of_nat (ndim s) * Z.of_nat (size s)) 0) as [Hpos|_];
    [|lra].
  apply ratio_unit; [|lia].
  pose proof (sum_map_bounds
    (fun axis => count_ne s pattern (roll s axis pattern))
    (Z.of_nat (size s)) (seq 0 (ndim s))) as H.
  rewrite length_seq in H. apply H. intros k.
  rewrite <- (length_flatten s pattern Hw). apply count_ne_bounds.
Qed.

Lemma integration_uniform (s : list nat) (v : Z) (pattern : nd s) :
  Spec.uniform s pattern v -> _calculate_integration s pattern = 0%R.
Proof.
  intros Hu. unfold _calculate_integration. rewrite integration_loop_closed.
  assert (H0 : sum (map (fun axis => count_ne s pattern (roll s axis pattern))
                        (seq 0 (ndim s))) = 0%Z).
  { induction (seq 0 (ndim s)) as [|k l IH]; [reflexivity|].
    cbn [map sum fold_right]. fold (sum (map (fun axis => count_ne s pattern
      (roll s axis pattern)) l)).
    rewrite IH, (uniform_count_ne s v) by (trivial; now apply uniform_roll).
    reflexivity. }
  rewrite H0. destruct (_ >? _)%Z; [|reflexivity].
  unfold Rdiv. apply Rmult_0_l.
Qed.

Lemma sum_uniform (v : Z) (l : list Z) :
  Forall (fun c => c = v) l -> sum l = (v * Z.of_nat (length l))%Z.
Proof.
  induction 1 as [|x l Hx _ IH]; [cbn; ring|].
  cbn [sum fold_right length]. fold (sum l). rewrite IH, Nat2Z.inj_succ, Hx.
  ring.
Qed.

(** A binary pattern is degenerate exactly when it is uniform. *)
Lemma degenerate_uniform (s : list nat) (pattern : nd s) :
  binary s pattern ->
  (degenerate s pattern = true <->
   Spec.uniform s pattern 0 \/ Spec.uniform s pattern 1).
Proof.
  intros Hb. rewrite degenerate_iff. unfold alive_cells, n_cells, Spec.uniform.
  split.
  - intros [H|H]; [left; now apply binary_sum_zero
                  | right; now apply binary_sum_full].
  - intros [H|H]; apply sum_uniform in H; lia.
Qed.

End PhiFacts.

(** ** The metric engine: claims about [calculate_phi] *)

(** C1. Whenever the count of set cells is 0 or equals the number of cells,
    and in particular on the all-zero and the all-one array of any shape,
    [calculate_phi] returns exactly (0.0, 0.0, 0.0, 0.0). *)
Theorem calculate_phi_degenerate (s : list nat) (pattern : nd s) :
  (alive_cells s pattern = 0%Z \/
   alive_cells s pattern = n_cells s pattern \/
   pattern = zeros s \/ pattern = ones s) ->
  calculate_phi s pattern = (0, 0, 0, 0)%R.
Proof.
  intros H. unfold calculate_phi.
  replace (degenerate s pattern) with true; [reflexivity|].
  symmetry. apply degenerate_iff.
  destruct H as [H|[H|[H|H]]]; [now left | now right | subst | subst].
  - left. unfold zeros. rewrite alive_full. lia.
  - right. unfold ones. rewrite alive_full, n_cells_full. lia.
Qed.

Lemma calculate_phi_degenerate_witness :
  (alive_cells [2; 3]%nat (ones [2; 3]%nat) = 0%Z \/
   alive_cells [2; 3]%nat (ones [2; 3]%nat) = n_cells [2; 3]%nat (ones [2; 3]%nat) \/
   ones [2; 3]%nat = zeros [2; 3]%nat \/ ones [2; 3]%nat = ones [2; 3]%nat) /\
  calculate_phi [2; 3]%nat (ones [2; 3]%nat) = (0, 0, 0, 0)%R.
Proof.
  split.
  - right. left. reflexivity.
  - apply (calculate_phi_degenerate [2; 3]%nat (ones [2; 3]%nat)).
    right. left. reflexivity.
Defined.

(** C2. On a pattern whose count of set cells lies strictly between 0 and
    the number of cells, the tuple (phi, R, S, D) that [calculate_phi]
    returns satisfies phi = R * S + D. *)
Theorem phi_is_RS_plus_D (s : list nat) (pattern : nd s)
    (phi R_ S_ D_ : float) :
  (0 < alive_cells s pattern < n_cells s pattern)%Z ->
  calculate_phi s pattern = (phi, R_, S_, D_) ->
  phi = (R_ * S_ + D_)%R.
Proof.
  intros Hnd Hc.
  assert (Hd : degenerate s pattern = false).
  { unfold degenerate. apply orb_false_iff. split; apply Z.eqb_neq; lia. }
  rewrite (calculate_phi_regular s pattern Hd) in Hc. cbv zeta in Hc.
  injection Hc as <- <- <- <-. reflexivity.
Qed.

Lemma phi_is_RS_plus_D_witness :
  let r := calculate_phi [4%nat] Samples.sample_1d in
  (0 < alive_cells [4%nat] Samples.sample_1d
     < n_cells [4%nat] Samples.sample_1d)%Z /\
  fst (fst (fst r)) = (snd (fst (fst r)) * snd (fst r) + snd r)%R.
Proof.
  intros r. split.
  - vm_compute. split; reflexivity.
  - apply (phi_is_RS_plus_D [4%nat] Samples.sample_1d).
    + vm_compute. split; reflexivity.
    + subst r. repeat rewrite <- surjective_pairing. reflexivity.
Defined.

(** C6. On every rectangular array of 0/1 cells each of the components
    R, S and D returned by [calculate_phi] lies in the closed interval
    from 0 to 1. *)
Theorem components_in_unit_interval (s : list nat) (pattern : nd s)
    (phi R_ S_ D_ : float) :
  wf s pattern -> binary s pattern ->
  calculate_phi s pattern = (phi, R_, S_, D_) ->
  (0 <= R_ <= 1 /\ 0 <= S_ <= 1 /\ 0 <= D_ <= 1)%R.
Proof.
  intros Hw Hb Hc. destruct (degenerate s pattern) eqn:Hd.
  - unfold calculate_phi in Hc. rewrite Hd in Hc.
    injection Hc as <- <- <- <-. lra.
  - rewrite (calculate_phi_regular s pattern Hd) in Hc. cbv zeta in Hc.
    injection Hc as <- <- <- <-.
    pose proof (ratio_strict _ _ (regular_alive_strict s pattern Hb Hd)) as Hp.
    pose proof (integration_bounds s pattern Hw).
    pose proof (binary_entropy_pos _ Hp).
    pose proof (binary_entropy_le_1 _ Hp).
    lra.
Qed.

Lemma components_in_unit_interval_witness :
  let r := calculate_phi [2; 3]%nat Samples.sample_2d in
  wf [2; 3]%nat Samples.sample_2d /\ binary [2; 3]%nat Samples.sample_2d /\
  (0 <= snd (fst (fst r)) <= 1 /\ 0 <= snd (fst r) <= 1 /\ 0 <= snd r <= 1)%R.
Proof.
  intros r.
  assert (Hw : wf [2; 3]%nat Samples.sample_2d)
    by (cbn; repeat (split || constructor)).
  assert (Hb : binary [2; 3]%nat Samples.sample_2d)
    by (unfold binary; cbn; repeat constructor; auto).
  split; [exact Hw|]. split; [exact Hb|].
  apply (components_in_unit_interval [2; 3]%nat Samples.sample_2d
           (fst (fst (fst r)))); [exact Hw | exact Hb |].
  subst r. repeat rewrite <- surjective_pairing. reflexivity.
Defined.

(** The checkerboard of the sanity test: cell (i, j) is set exactly when
    i + j is even. *)
Lemma grid_checker_cells (i j : nat) :
  (i < 20)%nat -> (j < 20)%nat ->
  get [20; 20]%nat Tests.grid_checker [i; j] =
  Some (if Nat.even (i + j) then 1%Z else 0%Z).
Proof.
  intros Hi Hj.
  assert (H : forallb (fun i => forallb (fun j =>
    match get [20; 20]%nat Tests.grid_checker [i; j] with
    | Some v => (v =? (if Nat.even (i + j) then 1 else 0))%Z
    | None => false
    end) (seq 0 20)) (seq 0 20) = true) by (vm_compute; reflexivity).
  rewrite forallb_forall in H.
  specialize (H i). rewrite in_seq in H. specialize (H ltac:(lia)).
  rewrite forallb_forall in H.
  specialize (H j). rewrite in_seq in H. specialize (H ltac:(lia)).
  destruct (get _ _ _) as [v|]; [|discriminate].
  apply Z.eqb_eq in H. now subst.
Qed.

Lemma grid_checker_counts :
  degenerate [20; 20]%nat Tests.grid_checker = false /\
  alive_cells [20; 20]%nat Tests.grid_checker = 200%Z /\
  n_cells [20; 20]%nat Tests.grid_checker = 400%Z /\
  integration_loop [20; 20]%nat Tests.grid_checker = (800, 800)%Z.
Proof. repeat split; vm_compute; reflexivity. Qed.

(** C8. On the 20x20 checkerboard [calculate_phi] returns R = 1/2, S = 1,
    D = 1 and Phi = 3/2, which is strictly greater than 1.0. *)
Theorem checkerboard_phi_gt_1 :
  calculate_phi [20; 20]%nat Tests.grid_checker = (3 / 2, 1 / 2, 1, 1)%R /\
  (1 < fst (fst (fst (calculate_phi [20; 20]%nat Tests.grid_checker))))%R.
Proof.
  destruct grid_checker_counts as (Hd & Ha & Hn & Hl).
  assert (Hc : calculate_phi [20; 20]%nat Tests.grid_checker
               = (3 / 2, 1 / 2, 1, 1)%R).
  { rewrite (calculate_phi_regular _ _ Hd). cbv zeta.
    unfold _calculate_integration. rewrite Hl, Ha, Hn.
    change (800 >? 0)%Z with true. cbv iota.
    assert (Hp : (200 / 400 = / 2)%R) by lra.
    rewrite Hp. unfold Spec.binary_entropy.
    replace (1 - / 2)%R with (/ 2)%R by lra. rewrite log2_half.
    f_equal; [f_equal; [f_equal|]|]; lra. }
  split; [exact Hc|]. rewrite Hc. cbn [fst]. lra.
Qed.

(** ** The integration loop against the position-wise wording *)

Section Refinement.
Open Scope Z_scope.

Lemma count_app {A : Type} (f : A -> bool) (l l' : list A) :
  Spec.count f (l ++ l') = Spec.count f l + Spec.count f l'.
Proof.
  unfold Spec.count. now rewrite filter_app, length_app, Nat2Z.inj_add.
Qed.

Lemma count_flat_map {A B : Type} (f : B -> bool) (g : A -> list B)
    (l : list A) :
  Spec.count f (flat_map g l) = sum (map (fun x => Spec.count f (g x)) l).
Proof.
  induction l as [|x l IH]; [reflexivity|].
  cbn [flat_map map sum fold_right]. rewrite count_app, IH. reflexivity.
Qed.

Lemma count_map {A B : Type} (f : B -> bool) (h : A -> B) (l : list A) :
  Spec.count f (map h l) = Spec.count (fun x => f (h x)) l.
Proof.
  unfold Spec.count. f_equal.
  induction l as [|x l IH]; [reflexivity|].
  cbn [map filter]. destruct (f (h x)); cbn [length]; now rewrite IH.
Qed.

(** A sum over the pairs of two lists, read as a sum over positions. *)
Lemma sum_combine_seq {A : Type} (F : A -> A -> Z) (a b : list A)
    (G : nat -> Z) :
  length a = length b ->
  (forall i x y, nth_error a i = Some x -> nth_error b i = Some y ->
                 F x y = G i) ->
  sum (map (fun p => F (fst p) (snd p)) (combine a b))
  = sum (map G (seq 0 (length a))).
Proof.
  revert b G. induction a as [|x a IH]; intros [|y b] G Hl HG;
    try discriminate; [reflexivity|].
  cbn [combine map sum fold_right length seq fst snd].
  rewrite <- seq_shift, map_map.
  rewrite (HG 0%nat x y eq_refl eq_refl). f_equal.
  apply (IH b (fun i => G (S i))).
  - now injection Hl.
  - intros i x' y' Hx Hy. now apply (HG (S i)).
Qed.

Lemma in_indices_cons (n : nat) (s : list nat) (idx : list nat) :
  In idx (Spec.indices (n :: s)) <->
  exists i idx', idx = i :: idx' /\ (i < n)%nat /\ In idx' (Spec.indices s).
Proof.
  cbn [Spec.indices]. rewrite in_flat_map. split.
  - intros (i & Hi & Hin). apply in_map_iff in Hin.
    destruct Hin as (idx' & <- & Hin'). apply in_seq in Hi.
    exists i, idx'. repeat split; trivial; lia.
  - intros (i & idx' & -> & Hi & Hin). exists i. split.
    + apply in_seq. lia.
    + now apply in_map.
Qed.

(** [np.sum(a != b)] counts the positions at which the cells differ. *)
Lemma count_ne_get (s : list nat) (a b : nd s) :
  wf s a -> wf s b ->
  count_ne s a b
  = Spec.count (fun idx => Spec.differs s a idx b idx) (Spec.indices s).
Proof.
  revert a b. induction s as [|n s IH]; intros a b Ha Hb.
  - unfold Spec.count, Spec.differs. cbn. destruct (a =? b); reflexivity.
  - destruct (proj1 (wf_cons n s a) Ha) as [Hla Hfa].
    destruct (proj1 (wf_cons n s b) Hb) as [Hlb Hfb].
    cbn [count_ne Spec.indices]. rewrite count_flat_map.
    replace (seq 0 n) with (seq 0 (length (A := nd s) a)) by now rewrite Hla.
    apply (sum_combine_seq (A := nd s));
      [transitivity n; [exact Hla | symmetry; exact Hlb]|].
    intros i x y Hx Hy. rewrite count_map.
    rewrite (IH x y).
    + unfold Spec.count. do 2 f_equal. apply filter_ext. intros idx.
      unfold Spec.differs. rewrite !get_cons. now rewrite Hx, Hy.
    + rewrite Forall_forall in Hfa. eapply Hfa, nth_error_In, Hx.
    + rewrite Forall_forall in Hfb. eapply Hfb, nth_error_In, Hy.
Qed.

(** Position [i] of the rotated list holds what position [i - 1] held,
    position 0 what the last one held. *)
Lemma nth_error_rotr {A : Type} (l : list A) (i : nat) :
  (i < length l)%nat ->
  nth_error (rotr l) i = nth_error l ((i + length l - 1) mod length l).
Proof.
  destruct l as [|x l]; [cbn; lia|]. intros Hi.
  assert (Hlen : length (removelast (x :: l)) = length l).
  { pose proof (f_equal (@length A) (rotr_split x l)) as H.
    rewrite length_app in H. cbn [length] in H. lia. }
  rewrite rotr_cons. cbn [length] in *.
  remember (S (length l)) as n eqn:Hn.
  rewrite (rotr_split x l) at 3.
  destruct i as [|j].
  - rewrite Nat.mod_small by lia.
    rewrite nth_error_app2 by lia.
    replace (0 + n - 1 - length (removelast (x :: l)))%nat
      with 0%nat by lia.
    reflexivity.
  - replace (S j + n - 1)%nat with (j + 1 * n)%nat by lia.
    rewrite Nat.Div0.mod_add, Nat.mod_small by lia.
    rewrite nth_error_app1 by lia. reflexivity.
Qed.

(** [np.roll(a, 1, axis)] at a position is [a] one step back along [axis]. *)
Lemma roll_get (s : list nat) (k : nat) (a : nd s) (idx : list nat) :
  wf s a -> In idx (Spec.indices s) ->
  get s (roll s k a) idx = get s a (Spec.prev_index s k idx).
Proof.
  revert k a idx. induction s as [|n s IH]; intros k a idx Hw Hin;
    [reflexivity|].
  apply in_indices_cons in Hin. destruct Hin as (i & idx' & -> & Hi & Hin).
  destruct (proj1 (wf_cons n s a) Hw) as [Hl Hf].
  destruct k as [|k]; cbn [Spec.prev_index];
    [rewrite roll_O | rewrite roll_S]; rewrite !get_cons.
  - rewrite nth_error_rotr by lia. rewrite Hl. reflexivity.
  - rewrite nth_error_map.
    destruct (nth_error (A := nd s) a i) as [row|] eqn:Hrow; [|reflexivity].
    cbn [option_map]. apply IH; [|exact Hin].
    rewrite Forall_forall in Hf. eapply Hf, nth_error_In, Hrow.
Qed.

Lemma count_ne_roll (s : list nat) (k : nat) (a : nd s) :
  wf s a -> count_ne s a (roll s k a) = Spec.shifted_diffs s k a.
Proof.
  intros Hw. rewrite count_ne_get by (trivial; now apply wf_roll).
  unfold Spec.shifted_diffs, Spec.count. do 2 f_equal.
  apply filter_ext_in. intros idx Hin. unfold Spec.differs.
  now rewrite roll_get.
Qed.

End Refinement.

Lemma integration_spec (s : list nat) (pattern : nd s) :
  wf s pattern -> (1 <= ndim s)%nat -> (1 <= size s)%nat ->
  _calculate_integration s pattern = Spec.integration s pattern.
Proof.
  intros Hw Hd Hn. unfold _calculate_integration, Spec.integration.
  rewrite integration_loop_closed.
  destruct (Z.gtb_spec (Z.of_nat (ndim s) * Z.of_nat (size s)) 0) as [_|Hz];
    [|nia].
  do 2 f_equal. f_equal. apply map_ext. intros k. now apply count_ne_roll.
Qed.

(** C3. On a rectangular 0/1 pattern of rank d >= 1 with n >= 1 cells, the
    S component that [calculate_phi] returns, and what
    [_calculate_integration] computes, is the number of positions whose cell
    differs from the cell one cyclic step away along an axis, summed over
    the d axes, divided by d * n. *)
Theorem integration_is_shift_and_compare (s : list nat) (pattern : nd s)
    (phi R_ S_ D_ : float) :
  wf s pattern -> binary s pattern ->
  (1 <= ndim s)%nat -> (1 <= size s)%nat ->
  calculate_phi s pattern = (phi, R_, S_, D_) ->
  S_ = Spec.integration s pattern /\
  _calculate_integration s pattern = Spec.integration s pattern.
Proof.
  intros Hw Hb Hd Hn Hc.
  pose proof (integration_spec s pattern Hw Hd Hn) as Hs.
  split; [|exact Hs]. rewrite <- Hs.
  destruct (degenerate s pattern) eqn:Hdeg.
  - unfold calculate_phi in Hc. rewrite Hdeg in Hc.
    injection Hc as <- <- <- <-.
    apply (degenerate_uniform s pattern Hb) in Hdeg.
    destruct Hdeg as [Hu|Hu]; symmetry; eapply integration_uniform; exact Hu.
  - rewrite (calculate_phi_regular s pattern Hdeg) in Hc. cbv zeta in Hc.
    injection Hc as <- <- <- <-. reflexivity.
Qed.

Lemma integration_is_shift_and_compare_witness :
  let r := calculate_phi [2; 3]%nat Samples.sample_2d in
  (wf [2; 3]%nat Samples.sample_2d /\ binary [2; 3]%nat Samples.sample_2d /\
   (1 <= ndim [2; 3]%nat)%nat /\ (1 <= size [2; 3]%nat)%nat) /\
  snd (fst r) = Spec.integration [2; 3]%nat Samples.sample_2d /\
  _calculate_integration [2; 3]%nat Samples.sample_2d
  = Spec.integration [2; 3]%nat Samples.sample_2d.
Proof.
  intros r.
  assert (Hw : wf [2; 3]%nat Samples.sample_2d)
    by (cbn; repeat (split || constructor)).
  assert (Hb : binary [2; 3]%nat Samples.sample_2d)
    by (unfold binary; cbn; repeat constructor; auto).
  assert (Hd : (1 <= ndim [2; 3]%nat)%nat) by (cbn; lia).
  assert (Hn : (1 <= size [2; 3]%nat)%nat) by (cbn; lia).
  split; [exact (conj Hw (conj Hb (conj Hd Hn)))|].
  apply (integration_is_shift_and_compare [2; 3]%nat Samples.sample_2d
           (fst (fst (fst r))) (snd (fst (fst r))) (snd (fst r)) (snd r));
    try assumption.
  subst r. repeat rewrite <- surjective_pairing. reflexivity.
Defined.

(** The position-wise count on a concrete pattern: along axis 1 the rows
    [1;0;1] and [0;0;1] hold 2 + 2 cyclic changes, along axis 0 two of the
    three columns differ, each counted at both of its positions. *)
Example shifted_diffs_sample :
  Spec.shifted_diffs [2; 3]%nat 0 Samples.sample_2d = 2%Z /\
  Spec.shifted_diffs [2; 3]%nat 1 Samples.sample_2d = 4%Z /\
  integration_loop [2; 3]%nat Samples.sample_2d = (6, 12)%Z.
Proof. repeat split; vm_compute; reflexivity. Qed.

(** ** Slice assignment on array contents *)

Section AssignFacts.
Open Scope Z_scope.

Lemma length_set_nth {A : Type} (i : nat) (x : A) (l : list A) :
  length (set_nth i x l) = length l.
Proof.
  revert i. induction l as [|y l IH]; intros [|i]; cbn; trivial.
  now rewrite IH.
Qed.

Lemma nth_error_set_nth {A : Type} (i j : nat) (x : A) (l : list A) :
  (i < length l)%nat ->
  nth_error (set_nth i x l) j = if (j =? i)%nat then Some x else nth_error l j.
Proof.
  revert i j. induction l as [|y l IH]; intros i j Hi; [cbn in Hi; lia|].
  destruct i as [|i], j as [|j]; cbn; trivial.
  apply IH. cbn in Hi. lia.
Qed.

Lemma Forall_set_nth {A : Type} (P : A -> Prop) (i : nat) (x : A)
    (l : list A) :
  P x -> Forall P l -> Forall P (set_nth i x l).
Proof.
  intros Hx Hl. revert i. induction Hl as [|y l Hy Hl IH]; intros [|i]; cbn;
    constructor; auto.
Qed.

Lemma set_nth_app_last {A : Type} (x y : A) (l : list A) :
  set_nth (length l) x (l ++ [y]) = l ++ [x].
Proof. induction l as [|z l IH]; cbn; [reflexivity | now rewrite IH]. Qed.

Lemma nth_error_combine {A B : Type} (a : list A) (b : list B) (i : nat)
    (x : A) (y : B) :
  nth_error a i = Some x -> nth_error b i = Some y ->
  nth_error (combine a b) i = Some (x, y).
Proof.
  revert b i. induction a as [|x' a IH]; intros [|y' b] [|i] Hx Hy;
    cbn in *; try discriminate.
  - now injection Hx as ->; injection Hy as ->.
  - now apply IH.
Qed.

Lemma Forall_map_combine {A B C : Type} (P : A -> Prop) (Q : B -> Prop)
    (R : C -> Prop) (f : A -> B -> C) (a : list A) (b : list B) :
  (forall x y, P x -> Q y -> R (f x y)) ->
  Forall P a -> Forall Q b ->
  Forall R (map (fun p => f (fst p) (snd p)) (combine a b)).
Proof.
  intros Hf Ha. revert b. induction Ha as [|x a Hx _ IH]; intros b Hb;
    [constructor|].
  destruct Hb as [|y b Hy Hb]; cbn; constructor; auto.
Qed.

Lemma in_indices_nil (idx : list nat) : In idx (Spec.indices []) <-> idx = [].
Proof. cbn. intuition congruence. Qed.

Lemma get_full (s : list nat) (v : Z) (idx : list nat) :
  In idx (Spec.indices s) -> get s (full s v) idx = Some v.
Proof.
  revert idx. induction s as [|n s IH]; intros idx Hin.
  - apply in_indices_nil in Hin. now subst.
  - apply in_indices_cons in Hin. destruct Hin as (i & idx' & -> & Hi & Hin).
    cbn [full]. rewrite get_cons, nth_error_repeat by assumption. now apply IH.
Qed.

(** [a[..., j] = v] keeps the shape. *)
Lemma wf_assign_last (s : list nat) (m j : nat) (a : nd (s ++ [m]))
    (v : nd s) :
  wf (s ++ [m]) a -> wf s v -> wf (s ++ [m]) (assign_last s m j a v).
Proof.
  revert a v. induction s as [|n s IH]; intros a v Ha Hv.
  - destruct (proj1 (wf_cons m [] a) Ha) as [Hl Hf].
    apply wf_cons. cbn [assign_last].
    split; [now rewrite length_set_nth|].
    apply Forall_forall. intros; exact I.
  - change ((n :: s) ++ [m])%list with (n :: (s ++ [m]))%list in *.
    destruct (proj1 (wf_cons n (s ++ [m]) a) Ha) as [Hla Hfa].
    destruct (proj1 (wf_cons n s v) Hv) as [Hlv Hfv].
    apply wf_cons. cbn [assign_last]. split.
    + rewrite length_map, length_combine.
      transitivity (Nat.min n n); [|apply Nat.min_id].
      f_equal; [exact Hla | exact Hlv].
    + apply (Forall_map_combine (wf (s ++ [m])) (wf s) (wf (s ++ [m]))
               (assign_last s m j)); auto.
Qed.

(** [a[..., j] = v] then read back at a position. *)
Lemma get_assign_last (s : list nat) (m j : nat) (a : nd (s ++ [m]))
    (v : nd s) (idx : list nat) (j' : nat) :
  wf (s ++ [m]) a -> wf s v -> (j < m)%nat ->
  In idx (Spec.indices s) ->
  get (s ++ [m]) (assign_last s m j a v) (idx ++ [j'])
  = if (j' =? j)%nat then get s v idx else get (s ++ [m]) a (idx ++ [j']).
Proof.
  revert a v idx. induction s as [|n s IH]; intros a v idx Ha Hv Hj Hin.
  - apply in_indices_nil in Hin. subst idx.
    destruct (proj1 (wf_cons m [] a) Ha) as [Hl Hf].
    change ([] ++ [m])%list with [m] in *. change ([] ++ [j'])%list with [j'].
    cbn [assign_last]. rewrite !get_cons.
    rewrite nth_error_set_nth by lia.
    destruct (j' =? j)%nat; reflexivity.
  - change ((n :: s) ++ [m])%list with (n :: (s ++ [m]))%list in *.
    apply in_indices_cons in Hin. destruct Hin as (i & idx' & -> & Hi & Hin).
    destruct (proj1 (wf_cons n (s ++ [m]) a) Ha) as [Hla Hfa].
    destruct (proj1 (wf_cons n s v) Hv) as [Hlv Hfv].
    change ((i :: idx') ++ [j'])%list with (i :: (idx' ++ [j']))%list.
    cbn [assign_last]. rewrite !get_cons, nth_error_map.
    destruct (nth_error (A := nd (s ++ [m])) a i) as [x|] eqn:Hx;
      [|apply nth_error_None in Hx; lia].
    destruct (nth_error (A := nd s) v i) as [y|] eqn:Hy;
      [|apply nth_error_None in Hy; lia].
    rewrite (nth_error_combine (A := nd (s ++ [m])) (B := nd s) a v i x y Hx Hy).
    cbn [option_map fst snd].
    apply IH; trivial.
    + rewrite Forall_forall in Hfa. eapply Hfa, nth_error_In, Hx.
    + rewrite Forall_forall in Hfv. eapply Hfv, nth_error_In, Hy.
Qed.

End AssignFacts.

Section EmbedFacts.
Open Scope Z_scope.

Lemma in_indices_snoc (s : list nat) (m : nat) (idx : list nat) (j : nat) :
  In idx (Spec.indices s) -> (j < m)%nat ->
  In (idx ++ [j]) (Spec.indices (s ++ [m])).
Proof.
  revert idx. induction s as [|n s IH]; intros idx Hin Hj.
  - apply in_indices_nil in Hin. subst idx.
    apply (in_indices_cons m [] [j]). exists j, []. repeat split; trivial.
    now left.
  - apply in_indices_cons in Hin. destruct Hin as (i & idx' & -> & Hi & Hin).
    apply (in_indices_cons n (s ++ [m])). exists i, (idx' ++ [j])%list.
    repeat split; trivial. now apply IH.
Qed.

Lemma flatten_1d (m : nat) (l : list Z) : flatten [m] l = l.
Proof.
  rewrite flatten_cons. induction l as [|x l IH]; [reflexivity|].
  cbn [flat_map]. rewrite IH. reflexivity.
Qed.

Lemma sum_set_nth_zeros (m j : nat) (v : Z) :
  (j < m)%nat -> sum (set_nth j v (repeat 0 m)) = v.
Proof.
  revert j. induction m as [|m IH]; intros j Hj; [lia|].
  destruct j as [|j]; cbn [repeat set_nth sum fold_right].
  - fold (sum (repeat 0 m)). rewrite sum_repeat. ring.
  - fold (sum (set_nth j v (repeat 0 m))). rewrite IH by lia. ring.
Qed.

Lemma sum_flatten_zeros (s : list nat) : sum (flatten s (zeros s)) = 0.
Proof. unfold zeros. rewrite flatten_full, sum_repeat. ring. Qed.

(** Writing [v] into one slice of a fresh all-zero array keeps the number
    of set cells of [v]. *)
Lemma sum_assign_last_zeros (s : list nat) (m j : nat) (v : nd s) :
  wf s v -> (j < m)%nat ->
  sum (flatten (s ++ [m]) (assign_last s m j (zeros (s ++ [m])) v))
  = sum (flatten s v).
Proof.
  revert v. induction s as [|n s IH]; intros v Hv Hj.
  - change Z in (type of v).
    change ([] ++ [m])%list with [m]. cbn [assign_last].
    rewrite flatten_1d. unfold zeros. cbn [full flatten sum fold_right].
    rewrite sum_set_nth_zeros by assumption. ring.
  - change ((n :: s) ++ [m])%list with (n :: (s ++ [m]))%list.
    assert (Haux : forall l : list (nd s), Forall (wf s) l ->
      sum (flat_map (flatten (s ++ [m]))
             (map (fun p => assign_last s m j (fst p) (snd p))
                  (combine (repeat (zeros (s ++ [m])) (length l)) l)))
      = sum (flat_map (flatten s) l)).
    { induction 1 as [|x l Hx _ IHl]; [reflexivity|].
      cbn [length repeat combine map flat_map fst snd]. rewrite !sum_app.
      rewrite (IH x Hx Hj), IHl. reflexivity. }
    destruct Hv as [Hl Hf]. rewrite !flatten_cons.
    unfold zeros. cbn [assign_last full]. fold (zeros (s ++ [m])).
    rewrite <- Hl. now apply Haux.
Qed.

Lemma sum_assign_first_zeros (n : nat) (s : list nat) (i : nat) (v : nd s) :
  (i < n)%nat ->
  sum (flatten (n :: s) (assign_first n s i (zeros (n :: s)) v))
  = sum (flatten s v).
Proof.
  unfold assign_first, zeros. cbn [full]. rewrite flatten_cons.
  revert i. induction n as [|n IH]; intros i Hi; [lia|].
  destruct i as [|i]; cbn [repeat set_nth flat_map]; rewrite sum_app.
  - assert (H0 : sum (flat_map (flatten s) (repeat (full s 0) n)) = 0).
    { pose proof (sum_flatten_zeros (n :: s)) as H. exact H. }
    rewrite H0. ring.
  - rewrite IH by lia. fold (zeros s). rewrite sum_flatten_zeros. ring.
Qed.

Lemma wf_assign_first (n : nat) (s : list nat) (i : nat) (a : nd (n :: s))
    (v : nd s) :
  wf (n :: s) a -> wf s v -> wf (n :: s) (assign_first n s i a v).
Proof.
  intros [Hl Hf] Hv. unfold assign_first. split.
  - now rewrite length_set_nth.
  - now apply Forall_set_nth.
Qed.

Lemma get_assign_first (n : nat) (s : list nat) (i : nat) (a : nd (n :: s))
    (v : nd s) (j : nat) (idx : list nat) :
  wf (n :: s) a -> (i < n)%nat ->
  get (n :: s) (assign_first n s i a v) (j :: idx)
  = if (j =? i)%nat then get s v idx else get (n :: s) a (j :: idx).
Proof.
  intros [Hl Hf] Hi. unfold assign_first. rewrite !get_cons.
  rewrite nth_error_set_nth by lia. destruct (j =? i)%nat; reflexivity.
Qed.

(** Slice assignment into zeros meets the specification of an embedding. *)
Lemma embedded_last_zeros (s : list nat) (m mid : nat) (P : nd s) :
  wf s P -> (mid < m)%nat ->
  Spec.embedded_last s m mid P (assign_last s m mid (zeros (s ++ [m])) P).
Proof.
  intros HP Hmid. split.
  - apply wf_assign_last; [apply wf_full | exact HP].
  - intros idx j Hin Hj.
    rewrite get_assign_last by (trivial; apply wf_full).
    destruct (j =? mid)%nat; [reflexivity|].
    apply get_full. now apply in_indices_snoc.
Qed.

Lemma embedded_first_zeros (s : list nat) (m mid : nat) (P : nd s) :
  wf s P -> (mid < m)%nat ->
  Spec.embedded_first s m mid P (assign_first m s mid (zeros (m :: s)) P).
Proof.
  intros HP Hmid. split.
  - apply wf_assign_first; [apply wf_full | exact HP].
  - intros j idx Hj Hin.
    rewrite get_assign_first by (trivial; apply wf_full).
    destruct (j =? mid)%nat; [reflexivity|].
    apply (get_full (m :: s)). apply in_indices_cons.
    exists j, idx. repeat split; trivial.
Qed.

End EmbedFacts.

(** ** Running the heap operations *)

Section HeapFacts.

Lemma bind_ok {A B : Type} (m : M A) (k : A -> M B) (h h' : heap) (a : A) :
  m h = Ok (a, h') -> bind m k h = k a h'.
Proof. intros H. unfold bind. now rewrite H. Qed.

Lemma bind_raise {A B : Type} (m : M A) (k : A -> M B) (h : heap) (e : exn) :
  m h = Raise e -> bind m k h = Raise e.
Proof. intros H. unfold bind. now rewrite H. Qed.

Lemma cast_id (s : list nat) (e : s = s) (a : nd s) : cast e a = a.
Proof.
  unfold cast. symmetry. apply (eq_rect_eq_dec shape_eq_dec).
Qed.

Lemma load_run (h : heap) (l : loc) (o : obj) :
  nth_error h l = Some o -> load l h = Ok (o, h).
Proof. intros H. unfold load. now rewrite H. Qed.

Lemma store_run (h : heap) (l : loc) (o : obj) :
  (l < length h)%nat -> store l o h = Ok (tt, set_nth l o h).
Proof.
  intros H. unfold store. apply Nat.ltb_lt in H. now rewrite H.
Qed.

Lemma np_zeros_run (dims : list Z) (h : heap) :
  forallb (fun d => (0 <=? d)%Z) dims = true ->
  np_zeros dims h
  = Ok (length h, h ++ [mk_obj (map Z.to_nat dims) (zeros (map Z.to_nat dims))]).
Proof. intros H. unfold np_zeros. now rewrite H. Qed.

Lemma np_zeros_negative (dims : list Z) (h : heap) :
  forallb (fun d => (0 <=? d)%Z) dims = false ->
  np_zeros dims h = Raise ValueError.
Proof. intros H. unfold np_zeros. now rewrite H. Qed.

Lemma nth_error_old (h : heap) (o o' : obj) (l : loc) :
  nth_error h l = Some o -> nth_error (h ++ [o']) l = Some o.
Proof.
  intros H. rewrite nth_error_app1; [exact H|].
  apply nth_error_Some. congruence.
Qed.

Lemma nth_error_new (h : heap) (o : obj) :
  nth_error (h ++ [o]) (length h) = Some o.
Proof. rewrite nth_error_app2, Nat.sub_diag by lia. reflexivity. Qed.

(** The midpoint of an axis of positive extent is a valid index. *)
Lemma norm_index_mid (g : Z) :
  (1 <= g)%Z ->
  norm_index (g / 2) (Z.to_nat g) = Some (Z.to_nat (g / 2)) /\
  (Z.to_nat (g / 2) < Z.to_nat g)%nat.
Proof.
  intros Hg.
  assert (H : (0 <= g / 2 < g)%Z).
  { split; [apply Z.div_pos; lia | apply Z.div_lt_upper_bound; lia]. }
  split; [|lia]. unfold norm_index. rewrite Z2Nat.id by lia.
  destruct (Z.leb_spec 0 (g / 2)); [|lia].
  destruct (Z.ltb_spec (g / 2) g); [|lia]. reflexivity.
Qed.

(** An axis of extent 0 has no valid index. *)
Lemma norm_index_empty (i : Z) : norm_index i 0 = None.
Proof.
  unfold norm_index. cbn [Z.of_nat Z.opp].
  destruct (Z.leb_spec 0 i), (Z.ltb_spec i 0); cbn [andb]; trivial; lia.
Qed.

Lemma setitem_last_run (h : heap) (dst src : loc) (s : list nat) (m : nat)
    (a : nd (s ++ [m])) (v : nd s) (j : Z) (j' : nat) :
  nth_error h dst = Some (mk_obj (s ++ [m]) a) ->
  nth_error h src = Some (mk_obj s v) ->
  norm_index j m = Some j' ->
  setitem_last dst j src h
  = Ok (tt, set_nth dst (mk_obj (s ++ [m]) (assign_last s m j' a v)) h).
Proof.
  intros Hd Hs Hj. unfold setitem_last.
  rewrite (bind_ok _ _ _ _ _ (load_run _ _ _ Hd)).
  rewrite (bind_ok _ _ _ _ _ (load_run _ _ _ Hs)).
  cbn [shape mk_obj projT1 projT2]. unfold ndim.
  rewrite length_app, Nat.add_comm. cbn [length Nat.add Nat.eqb].
  rewrite last_last, Hj.
  destruct (shape_eq_dec (s ++ [m]) (s ++ [m])) as [e|ne]; [|contradiction].
  rewrite cast_id. apply store_run.
  apply nth_error_Some. congruence.
Qed.

Lemma setitem_last_index_error (h : heap) (dst src : loc) (s : list nat)
    (m : nat) (a : nd (s ++ [m])) (o : obj) (j : Z) :
  nth_error h dst = Some (mk_obj (s ++ [m]) a) ->
  nth_error h src = Some o ->
  norm_index j m = None ->
  setitem_last dst j src h = Raise IndexError.
Proof.
  intros Hd Hs Hj. unfold setitem_last.
  rewrite (bind_ok _ _ _ _ _ (load_run _ _ _ Hd)).
  rewrite (bind_ok _ _ _ _ _ (load_run _ _ _ Hs)).
  cbn [shape mk_obj projT1 projT2]. unfold ndim.
  rewrite length_app, Nat.add_comm. cbn [length Nat.add Nat.eqb].
  rewrite last_last, Hj. reflexivity.
Qed.

Lemma setitem_first_run (h : heap) (dst src : loc) (n : nat) (s : list nat)
    (a : nd (n :: s)) (v : nd s) (i : Z) (i' : nat) :
  nth_error h dst = Some (mk_obj (n :: s) a) ->
  nth_error h src = Some (mk_obj s v) ->
  norm_index i n = Some i' ->
  setitem_first dst i src h
  = Ok (tt, set_nth dst (mk_obj (n :: s) (assign_first n s i' a v)) h).
Proof.
  intros Hd Hs Hi. unfold setitem_first.
  rewrite (bind_ok _ _ _ _ _ (load_run _ _ _ Hd)).
  rewrite (bind_ok _ _ _ _ _ (load_run _ _ _ Hs)).
  cbn [mk_obj shape projT1 projT2]. rewrite Hi.
  destruct (shape_eq_dec s s) as [e|ne]; [|contradiction].
  rewrite cast_id. apply store_run.
  apply nth_error_Some. congruence.
Qed.

Lemma setitem_first_index_error (h : heap) (dst src : loc) (n : nat)
    (s : list nat) (a : nd (n :: s)) (o : obj) (i : Z) :
  nth_error h dst = Some (mk_obj (n :: s) a) ->
  nth_error h src = Some o ->
  norm_index i n = None ->
  setitem_first dst i src h = Raise IndexError.
Proof.
  intros Hd Hs Hi. unfold setitem_first.
  rewrite (bind_ok _ _ _ _ _ (load_run _ _ _ Hd)).
  rewrite (bind_ok _ _ _ _ _ (load_run _ _ _ Hs)).
  cbn [mk_obj]. rewrite Hi. reflexivity.
Qed.

End HeapFacts.

(** ** Running the embeddings *)

Section EmbedRuns.
Import Validator.

(** Allocate zeros, assign the source to one slice along the last axis. *)
Lemma zeros_setitem_last_run (h : heap) (src : loc) (s : list nat) (P : nd s)
    (dims : list Z) (m : nat) (j : Z) (j' : nat) :
  forallb (fun d => (0 <=? d)%Z) dims = true ->
  map Z.to_nat dims = (s ++ [m])%list ->
  nth_error h src = Some (mk_obj s P) ->
  norm_index j m = Some j' ->
  (dst <- np_zeros dims ;; setitem_last dst j src ;;; ret dst) h
  = Ok (length h,
        h ++ [mk_obj (s ++ [m]) (assign_last s m j' (zeros (s ++ [m])) P)]).
Proof.
  intros Hd Hm Hs Hj.
  rewrite (bind_ok _ _ _ _ _ (np_zeros_run dims h Hd)). rewrite Hm.
  erewrite bind_ok.
  2:{ apply (setitem_last_run _ _ src s m (zeros (s ++ [m])) P j j');
        [apply nth_error_new | now apply nth_error_old | exact Hj]. }
  unfold ret. now rewrite set_nth_app_last.
Qed.

Lemma zeros_setitem_last_error (h : heap) (src : loc) (o : obj)
    (s : list nat) (dims : list Z) (m : nat) (j : Z) :
  forallb (fun d => (0 <=? d)%Z) dims = true ->
  map Z.to_nat dims = (s ++ [m])%list ->
  nth_error h src = Some o ->
  norm_index j m = None ->
  (dst <- np_zeros dims ;; setitem_last dst j src ;;; ret dst) h
  = Raise IndexError.
Proof.
  intros Hd Hm Hs Hj.
  rewrite (bind_ok _ _ _ _ _ (np_zeros_run dims h Hd)). rewrite Hm.
  apply bind_raise.
  apply (setitem_last_index_error _ _ src s m (zeros (s ++ [m])) o j);
    [apply nth_error_new | now apply nth_error_old | exact Hj].
Qed.

(** The same along the first axis. *)
Lemma zeros_setitem_first_run (h : heap) (src : loc) (s : list nat)
    (P : nd s) (dims : list Z) (n : nat) (i : Z) (i' : nat) :
  forallb (fun d => (0 <=? d)%Z) dims = true ->
  map Z.to_nat dims = n :: s ->
  nth_error h src = Some (mk_obj s P) ->
  norm_index i n = Some i' ->
  (dst <- np_zeros dims ;; setitem_first dst i src ;;; ret dst) h
  = Ok (length h,
        h ++ [mk_obj (n :: s) (assign_first n s i' (zeros (n :: s)) P)]).
Proof.
  intros Hd Hm Hs Hi.
  rewrite (bind_ok _ _ _ _ _ (np_zeros_run dims h Hd)). rewrite Hm.
  erewrite bind_ok.
  2:{ apply (setitem_first_run _ _ src n s (zeros (n :: s)) P i i');
        [apply nth_error_new | now apply nth_error_old | exact Hi]. }
  unfold ret. now rewrite set_nth_app_last.
Qed.

Lemma zeros_setitem_first_error (h : heap) (src : loc) (o : obj)
    (s : list nat) (dims : list Z) (n : nat) (i : Z) :
  forallb (fun d => (0 <=? d)%Z) dims = true ->
  map Z.to_nat dims = n :: s ->
  nth_error h src = Some o ->
  norm_index i n = None ->
  (dst <- np_zeros dims ;; setitem_first dst i src ;;; ret dst) h
  = Raise IndexError.
Proof.
  intros Hd Hm Hs Hi.
  rewrite (bind_ok _ _ _ _ _ (np_zeros_run dims h Hd)). rewrite Hm.
  apply bind_raise.
  apply (setitem_first_index_error _ _ src n s (zeros (n :: s)) o i);
    [apply nth_error_new | now apply nth_error_old | exact Hi].
Qed.

Lemma nonneg_dims (g : Z) (dims : list Z) :
  (0 <= g)%Z -> Forall (fun d => d = g) dims ->
  forallb (fun d => (0 <=? d)%Z) dims = true.
Proof.
  intros Hg H. apply forallb_forall. intros d Hd.
  rewrite Forall_forall in H. rewrite (H d Hd). now apply Z.leb_le.
Qed.

Lemma embed_1d_to_2d_run (h : heap) (grid_1d : loc) (x : nat) (P : nd [x])
    (y_size : Z) :
  nth_error h grid_1d = Some (mk_obj [x] P) -> (1 <= y_size)%Z ->
  Tests.embed_1d_to_2d grid_1d y_size h
  = Ok (length h,
        h ++ [mk_obj ([x] ++ [Z.to_nat y_size])
                (assign_last [x] (Z.to_nat y_size) (Z.to_nat (y_size / 2))
                   (zeros ([x] ++ [Z.to_nat y_size])) P)]).
Proof.
  intros Hs Hy. unfold Tests.embed_1d_to_2d.
  rewrite (bind_ok _ _ _ _ _ (load_run _ _ _ Hs)).
  cbn [shape mk_obj projT1]. cbv zeta.
  apply zeros_setitem_last_run; trivial.
  - cbn [forallb]. rewrite andb_true_r. apply andb_true_iff.
    split; apply Z.leb_le; lia.
  - cbn [map app]. now rewrite Nat2Z.id.
  - apply norm_index_mid, Hy.
Qed.

Lemma embed_middle_row_run (self : validator) (h : heap) (pattern_1d : loc)
    (P : nd [Z.to_nat (grid_size self)]) :
  let g := Z.to_nat (grid_size self) in
  nth_error h pattern_1d = Some (mk_obj [g] P) -> (1 <= grid_size self)%Z ->
  embed_middle_row self pattern_1d h
  = Ok (length h,
        h ++ [mk_obj [g; g]
                (assign_first g [g] (Z.to_nat (grid_size self / 2))
                   (zeros [g; g]) P)]).
Proof.
  intros g Hs Hg. unfold embed_middle_row.
  apply zeros_setitem_first_run; trivial.
  - apply (nonneg_dims (grid_size self)); [lia | repeat constructor].
  - apply norm_index_mid, Hg.
Qed.

Lemma embed_middle_slice_run (self : validator) (h : heap) (pattern_2d : loc)
    (P : nd [Z.to_nat (grid_size self); Z.to_nat (grid_size self)]) :
  let g := Z.to_nat (grid_size self) in
  nth_error h pattern_2d = Some (mk_obj [g; g] P) -> (1 <= grid_size self)%Z ->
  embed_middle_slice self pattern_2d h
  = Ok (length h,
        h ++ [mk_obj ([g; g] ++ [g])
                (assign_last [g; g] g (Z.to_nat (grid_size self / 2))
                   (zeros ([g; g] ++ [g])) P)]).
Proof.
  intros g Hs Hg. unfold embed_middle_slice.
  apply zeros_setitem_last_run; trivial.
  - apply (nonneg_dims (grid_size self)); [lia | repeat constructor].
  - apply norm_index_mid, Hg.
Qed.

Lemma embed_middle_hyperslice_run (self : validator) (h : heap)
    (pattern_3d : loc)
    (P : nd [Z.to_nat (grid_size self); Z.to_nat (grid_size self);
             Z.to_nat (grid_size self)]) :
  let g := Z.to_nat (grid_size self) in
  nth_error h pattern_3d = Some (mk_obj [g; g; g] P) ->
  (1 <= grid_size self)%Z ->
  embed_middle_hyperslice self pattern_3d h
  = Ok (length h,
        h ++ [mk_obj ([g; g; g] ++ [g])
                (assign_last [g; g; g] g (Z.to_nat (grid_size self / 2))
                   (zeros ([g; g; g] ++ [g])) P)]).
Proof.
  intros g Hs Hg. unfold embed_middle_hyperslice.
  apply zeros_setitem_last_run; trivial.
  - apply (nonneg_dims (grid_size self)); [lia | repeat constructor].
  - apply norm_index_mid, Hg.
Qed.

End EmbedRuns.

(** ** The dimensional embedder *)

Section Embedder.
Import Validator.

Lemma fresh_last (h : heap) (s : list nat) (m mid : nat) (P : nd s) :
  wf s P -> (mid < m)%nat ->
  Spec.embeds_last h s m mid P
    (Ok (length h,
         h ++ [mk_obj (s ++ [m]) (assign_last s m mid (zeros (s ++ [m])) P)])).
Proof.
  intros HP Hmid.
  exists (length h), (h ++ [mk_obj (s ++ [m])
            (assign_last s m mid (zeros (s ++ [m])) P)]),
         (assign_last s m mid (zeros (s ++ [m])) P).
  split; [reflexivity|]. split; [now apply nth_error_None|].
  split; [apply nth_error_new|].
  split; [intros l o Hl; now apply nth_error_old|].
  split; [unfold ndim; rewrite length_app; cbn; lia|].
  now apply embedded_last_zeros.
Qed.

Lemma fresh_first (h : heap) (s : list nat) (m mid : nat) (P : nd s) :
  wf s P -> (mid < m)%nat ->
  Spec.embeds_first h s m mid P
    (Ok (length h,
         h ++ [mk_obj (m :: s) (assign_first m s mid (zeros (m :: s)) P)])).
Proof.
  intros HP Hmid.
  exists (length h), (h ++ [mk_obj (m :: s)
            (assign_first m s mid (zeros (m :: s)) P)]),
         (assign_first m s mid (zeros (m :: s)) P).
  split; [reflexivity|]. split; [now apply nth_error_None|].
  split; [apply nth_error_new|].
  split; [intros l o Hl; now apply nth_error_old|].
  split; [reflexivity|].
  now apply embedded_first_zeros.
Qed.

(** C4. Each embedding of the source -- [embed_1d_to_2d] of the test script
    for any target extent m >= 1, and the three embeddings of the validator
    at a grid size g >= 1 -- allocates one new array of rank one more than
    the source, whose slice at index floor(m/2) along the new axis is the
    source pattern and whose every other cell is 0; the source pattern and
    every other existing array are left unchanged. *)
Theorem embedding_at_midpoint :
  (forall (h : heap) (grid_1d : loc) (x : nat) (P : nd [x]) (y_size : Z),
     nth_error h grid_1d = Some (mk_obj [x] P) -> wf [x] P ->
     (1 <= y_size)%Z ->
     Spec.embeds_last h [x] (Z.to_nat y_size) (Z.to_nat (y_size / 2)) P
       (Tests.embed_1d_to_2d grid_1d y_size h)) /\
  (forall (self : validator) (h : heap) (src : loc),
     let g := Z.to_nat (grid_size self) in
     let mid := Z.to_nat (grid_size self / 2) in
     (1 <= grid_size self)%Z ->
     (forall P : nd [g],
        nth_error h src = Some (mk_obj [g] P) -> wf [g] P ->
        Spec.embeds_first h [g] g mid P (embed_middle_row self src h)) /\
     (forall P : nd [g; g],
        nth_error h src = Some (mk_obj [g; g] P) -> wf [g; g] P ->
        Spec.embeds_last h [g; g] g mid P (embed_middle_slice self src h)) /\
     (forall P : nd [g; g; g],
        nth_error h src = Some (mk_obj [g; g; g] P) -> wf [g; g; g] P ->
        Spec.embeds_last h [g; g; g] g mid P
          (embed_middle_hyperslice self src h))).
Proof.
  split.
  - intros h grid_1d x P y_size Hs HP Hy.
    rewrite (embed_1d_to_2d_run h grid_1d x P y_size Hs Hy).
    apply fresh_last; [exact HP | apply norm_index_mid, Hy].
  - intros self h src g mid Hg.
    pose proof (proj2 (norm_index_mid _ Hg)) as Hmid.
    repeat split; intros P Hs HP.
    + rewrite (embed_middle_row_run self h src P Hs Hg).
      now apply fresh_first.
    + rewrite (embed_middle_slice_run self h src P Hs Hg).
      now apply fresh_last.
    + rewrite (embed_middle_hyperslice_run self h src P Hs Hg).
      now apply fresh_last.
Qed.

Lemma embedding_at_midpoint_witness :
  let h := [mk_obj [4%nat] Samples.sample_1d] in
  (nth_error h 0 = Some (mk_obj [4%nat] Samples.sample_1d) /\
   wf [4%nat] Samples.sample_1d /\ (1 <= 3)%Z) /\
  Spec.embeds_last h [4%nat] (Z.to_nat 3) (Z.to_nat (3 / 2))
    Samples.sample_1d (Tests.embed_1d_to_2d 0%nat 3 h).
Proof.
  intros h.
  assert (Hs : nth_error h 0 = Some (mk_obj [4%nat] Samples.sample_1d))
    by reflexivity.
  assert (HP : wf [4%nat] Samples.sample_1d)
    by (cbn; repeat (split || constructor)).
  assert (Hy : (1 <= 3)%Z) by lia.
  split; [exact (conj Hs (conj HP Hy))|].
  exact (proj1 embedding_at_midpoint h 0%nat 4%nat Samples.sample_1d 3%Z
           Hs HP Hy).
Defined.

(** The embedding of [1;0;1;1] at extent 3, cell by cell. *)
Example embed_1d_to_2d_sample :
  Tests.embed_1d_to_2d 0%nat 3 [mk_obj [4%nat] Samples.sample_1d]
  = Ok (1%nat,
        [mk_obj [4%nat] Samples.sample_1d;
         mk_obj [4; 3]%nat [[0; 1; 0]; [0; 0; 0]; [0; 1; 0]; [0; 1; 0]]%Z]).
Proof. vm_compute. reflexivity. Qed.

End Embedder.

(** ** Running the trials of the validator *)

Lemma valid_seed_range (seed : Z) :
  valid_seed seed = true <-> (0 <= seed < 2 ^ 32)%Z.
Proof.
  unfold valid_seed. rewrite andb_true_iff, Z.leb_le, Z.ltb_lt. tauto.
Qed.

Section TrialRuns.
Import Validator.

Variable randint : Z -> forall s : list nat, nd s.
Variable self : validator.

Lemma generate_run (seed : Z) (dims : list Z) (h : heap) :
  valid_seed seed = true ->
  forallb (fun d => (0 <=? d)%Z) dims = true ->
  generate randint seed dims h
  = Ok (length h,
        h ++ [mk_obj (map Z.to_nat dims) (randint seed (map Z.to_nat dims))]).
Proof. intros Hs H. unfold generate. now rewrite Hs, H. Qed.

Lemma generate_negative (seed : Z) (dims : list Z) (h : heap) :
  forallb (fun d => (0 <=? d)%Z) dims = false ->
  generate randint seed dims h = Raise ValueError.
Proof.
  intros H. unfold generate. rewrite H. now destruct (valid_seed seed).
Qed.

Lemma generate_bad_seed (seed : Z) (dims : list Z) (h : heap) :
  valid_seed seed = false -> generate randint seed dims h = Raise ValueError.
Proof. intros H. unfold generate. now rewrite H. Qed.

(** Under its test the division has a divisor other than 0. *)
Lemma div_if_positive_run (x y : float) (h : heap) :
  div_if_positive x y h = Ok (ratio_or_zero x y, h).
Proof.
  unfold div_if_positive, ratio_or_zero, truediv.
  destruct (Rlt_dec 0 y) as [Hy|Hy]; [|reflexivity].
  destruct (Req_dec_T y 0) as [H0|H0]; [lra | reflexivity].
Qed.

Lemma calculate_phi_at_run (h : heap) (l : loc) (s : list nat) (a : nd s) :
  nth_error h l = Some (mk_obj s a) ->
  calculate_phi_at l h = Ok (calculate_phi s a, h).
Proof.
  intros H. unfold calculate_phi_at.
  now rewrite (bind_ok _ _ _ _ _ (load_run _ _ _ H)).
Qed.

Lemma np_sum_run (h : heap) (l : loc) (s : list nat) (a : nd s) :
  nth_error h l = Some (mk_obj s a) ->
  np_sum l h = Ok (sum (flatten s a), h).
Proof.
  intros H. unfold np_sum.
  now rewrite (bind_ok _ _ _ _ _ (load_run _ _ _ H)).
Qed.

Hypothesis Hg : (1 <= grid_size self)%Z.

Lemma grid_dims_ok (dims : list Z) :
  Forall (fun d => d = grid_size self) dims ->
  forallb (fun d => (0 <=? d)%Z) dims = true.
Proof. apply nonneg_dims. lia. Qed.

Lemma test_1d_to_2d_run (pattern_id seed : Z) (h : heap) :
  valid_seed seed = true ->
  let g := Z.to_nat (grid_size self) in
  let mid := Z.to_nat (grid_size self / 2) in
  let P := randint seed [g] in
  let E := assign_first g [g] mid (zeros [g; g]) P in
  test_1d_to_2d randint self pattern_id seed h
  = Ok (record_of pattern_id "1D→2D" [g] P [g; g] E,
        (h ++ [mk_obj [g] P]) ++ [mk_obj [g; g] E]).
Proof.
  intros Hseed g mid P E. unfold test_1d_to_2d, generate_1d_pattern.
  erewrite bind_ok
    by (apply generate_run; [exact Hseed | apply grid_dims_ok; repeat constructor]).
  cbn [map]. fold g. fold P.
  erewrite bind_ok by (apply calculate_phi_at_run, nth_error_new).
  unfold record_of.
  destruct (calculate_phi [g] P) as [[[phi_lo R_lo] S_lo] D_lo].
  erewrite bind_ok by (apply embed_middle_row_run; [apply nth_error_new | exact Hg]).
  fold g mid E.
  erewrite bind_ok by (apply calculate_phi_at_run, nth_error_new).
  destruct (calculate_phi [g; g] E) as [[[phi_hi R_hi] S_hi] D_hi].
  do 4 (erewrite bind_ok by apply div_if_positive_run).
  erewrite bind_ok by (apply np_sum_run, nth_error_old, nth_error_new).
  erewrite bind_ok by (apply np_sum_run, nth_error_new).
  reflexivity.
Qed.

Lemma test_2d_to_3d_run (pattern_id seed : Z) (h : heap) :
  valid_seed seed = true ->
  let g := Z.to_nat (grid_size self) in
  let mid := Z.to_nat (grid_size self / 2) in
  let P := randint seed [g; g] in
  let E := assign_last [g; g] g mid (zeros ([g; g] ++ [g])) P in
  test_2d_to_3d randint self pattern_id seed h
  = Ok (record_of pattern_id "2D→3D" [g; g] P ([g; g] ++ [g]) E,
        (h ++ [mk_obj [g; g] P]) ++ [mk_obj ([g; g] ++ [g]) E]).
Proof.
  intros Hseed g mid P E. unfold test_2d_to_3d, generate_2d_pattern.
  erewrite bind_ok
    by (apply generate_run; [exact Hseed | apply grid_dims_ok; repeat constructor]).
  cbn [map]. fold g. fold P.
  erewrite bind_ok by (apply calculate_phi_at_run, nth_error_new).
  unfold record_of.
  destruct (calculate_phi [g; g] P) as [[[phi_lo R_lo] S_lo] D_lo].
  erewrite bind_ok
    by (apply embed_middle_slice_run; [apply nth_error_new | exact Hg]).
  fold g mid E.
  erewrite bind_ok by (apply calculate_phi_at_run, nth_error_new).
  destruct (calculate_phi ([g; g] ++ [g]) E) as [[[phi_hi R_hi] S_hi] D_hi].
  do 4 (erewrite bind_ok by apply div_if_positive_run).
  erewrite bind_ok by (apply np_sum_run, nth_error_old, nth_error_new).
  erewrite bind_ok by (apply np_sum_run, nth_error_new).
  reflexivity.
Qed.

Lemma test_3d_to_4d_run (pattern_id seed : Z) (h : heap) :
  valid_seed seed = true ->
  let g := Z.to_nat (grid_size self) in
  let mid := Z.to_nat (grid_size self / 2) in
  let P := randint seed [g; g; g] in
  let E := assign_last [g; g; g] g mid (zeros ([g; g; g] ++ [g])) P in
  test_3d_to_4d randint self pattern_id seed h
  = Ok (record_of pattern_id "3D→4D" [g; g; g] P ([g; g; g] ++ [g]) E,
        (h ++ [mk_obj [g; g; g] P]) ++ [mk_obj ([g; g; g] ++ [g]) E]).
Proof.
  intros Hseed g mid P E. unfold test_3d_to_4d, generate_3d_pattern.
  erewrite bind_ok
    by (apply generate_run; [exact Hseed | apply grid_dims_ok; repeat constructor]).
  cbn [map]. fold g. fold P.
  erewrite bind_ok by (apply calculate_phi_at_run, nth_error_new).
  unfold record_of.
  destruct (calculate_phi [g; g; g] P) as [[[phi_lo R_lo] S_lo] D_lo].
  erewrite bind_ok
    by (apply embed_middle_hyperslice_run; [apply nth_error_new | exact Hg]).
  fold g mid E.
  erewrite bind_ok by (apply calculate_phi_at_run, nth_error_new).
  destruct (calculate_phi ([g; g; g] ++ [g]) E) as [[[phi_hi R_hi] S_hi] D_hi].
  do 4 (erewrite bind_ok by apply div_if_positive_run).
  erewrite bind_ok by (apply np_sum_run, nth_error_old, nth_error_new).
  erewrite bind_ok by (apply np_sum_run, nth_error_new).
  reflexivity.
Qed.

End TrialRuns.

(** ** Rejected and accepted configurations *)

Section Configurations.
Import Validator.

Variable randint : Z -> forall s : list nat, nd s.





(** With a grid size of 0 the slice assignment is out of bounds; with a
    negative one the generator is refused its size. *)
Lemma test_1d_to_2d_invalid (self : validator) (pattern_id seed : Z)
    (h : heap) :
  (grid_size self <= 0)%Z ->
  exists e, test_1d_to_2d randint self pattern_id seed h = Raise e /\
            (e = ValueError \/ e = IndexError).
Proof.
  intros Hg. unfold test_1d_to_2d, generate_1d_pattern.
  destruct (valid_seed seed) eqn:Hseed.
  2:{ exists ValueError. split; [|now left].
      apply bind_raise. now apply generate_bad_seed. }
  destruct (Z.eq_dec (grid_size self) 0) as [H0|Hn].
  - exists IndexError. split; [|now right]. rewrite H0.
    erewrite bind_ok by (now apply generate_run).
    erewrite bind_ok by (apply calculate_phi_at_run, nth_error_new).
    destruct (calculate_phi _ _) as [[[phi_lo R_lo] S_lo] D_lo].
    apply bind_raise. unfold embed_middle_row. rewrite H0.
    eapply (zeros_setitem_first_error _ _ _ [0%nat] [0; 0]%Z 0%nat);
      [reflexivity | reflexivity | apply nth_error_new
      | apply norm_index_empty].
  - exists ValueError. split; [|now left].
    apply bind_raise, generate_negative.
    cbn [forallb]. rewrite andb_true_r. apply Z.leb_gt. lia.
Qed.

Lemma test_1d_to_2d_bad_seed (self : validator) (pattern_id seed : Z)
    (h : heap) :
  valid_seed seed = false ->
  test_1d_to_2d randint self pattern_id seed h = Raise ValueError.
Proof.
  intros Hseed. unfold test_1d_to_2d, generate_1d_pattern.
  apply bind_raise. now apply generate_bad_seed.
Qed.

Lemma test_2d_to_3d_invalid (self : validator) (pattern_id seed : Z)
    (h : heap) :
  (grid_size self <= 0)%Z ->
  exists e, test_2d_to_3d randint self pattern_id seed h = Raise e /\
            (e = ValueError \/ e = IndexError).
Proof.
  intros Hg. unfold test_2d_to_3d, generate_2d_pattern.
  destruct (valid_seed seed) eqn:Hseed.
  2:{ exists ValueError. split; [|now left].
      apply bind_raise. now apply generate_bad_seed. }
  destruct (Z.eq_dec (grid_size self) 0) as [H0|Hn].
  - exists IndexError. split; [|now right]. rewrite H0.
    erewrite bind_ok by (now apply generate_run).
    erewrite bind_ok by (apply calculate_phi_at_run, nth_error_new).
    destruct (calculate_phi _ _) as [[[phi_lo R_lo] S_lo] D_lo].
    apply bind_raise. unfold embed_middle_slice. rewrite H0.
    eapply (zeros_setitem_last_error _ _ _ [0; 0]%nat [0; 0; 0]%Z 0%nat);
      [reflexivity | reflexivity | apply nth_error_new
      | apply norm_index_empty].
  - exists ValueError. split; [|now left].
    apply bind_raise, generate_negative.
    cbn [forallb]. replace (0 <=? grid_size self)%Z with false; [reflexivity|].
    symmetry. apply Z.leb_gt. lia.
Qed.

Lemma test_2d_to_3d_bad_seed (self : validator) (pattern_id seed : Z)
    (h : heap) :
  valid_seed seed = false ->
  test_2d_to_3d randint self pattern_id seed h = Raise ValueError.
Proof.
  intros Hseed. unfold test_2d_to_3d, generate_2d_pattern.
  apply bind_raise. now apply generate_bad_seed.
Qed.

Lemma test_3d_to_4d_invalid (self : validator) (pattern_id seed : Z)
    (h : heap) :
  (grid_size self <= 0)%Z ->
  exists e, test_3d_to_4d randint self pattern_id seed h = Raise e /\
            (e = ValueError \/ e = IndexError).
Proof.
  intros Hg. unfold test_3d_to_4d, generate_3d_pattern.
  destruct (valid_seed seed) eqn:Hseed.
  2:{ exists ValueError. split; [|now left].
      apply bind_raise. now apply generate_bad_seed. }
  destruct (Z.eq_dec (grid_size self) 0) as [H0|Hn].
  - exists IndexError. split; [|now right]. rewrite H0.
    erewrite bind_ok by (now apply generate_run).
    erewrite bind_ok by (apply calculate_phi_at_run, nth_error_new).
    destruct (calculate_phi _ _) as [[[phi_lo R_lo] S_lo] D_lo].
    apply bind_raise. unfold embed_middle_hyperslice. rewrite H0.
    eapply (zeros_setitem_last_error _ _ _ [0; 0; 0]%nat [0; 0; 0; 0]%Z 0%nat);
      [reflexivity | reflexivity | apply nth_error_new
      | apply norm_index_empty].
  - exists ValueError. split; [|now left].
    apply bind_raise, generate_negative.
    cbn [forallb]. replace (0 <=? grid_size self)%Z with false; [reflexivity|].
    symmetry. apply Z.leb_gt. lia.
Qed.

Lemma test_3d_to_4d_bad_seed (self : validator) (pattern_id seed : Z)
    (h : heap) :
  valid_seed seed = false ->
  test_3d_to_4d randint self pattern_id seed h = Raise ValueError.
Proof.
  intros Hseed. unfold test_3d_to_4d, generate_3d_pattern.
  apply bind_raise. now apply generate_bad_seed.
Qed.

Lemma embed_1d_to_2d_invalid (h : heap) (grid_1d : loc) (y_size : Z) :
  (y_size < 1)%Z -> exists e, Tests.embed_1d_to_2d grid_1d y_size h = Raise e.
Proof.
  intros Hy. unfold Tests.embed_1d_to_2d.
  destruct (nth_error h grid_1d) as [o|] eqn:Ho.
  - rewrite (bind_ok _ _ _ _ _ (load_run _ _ _ Ho)).
    destruct (shape o) as [|x rest]; [now exists IndexError|]. cbv zeta.
    destruct (Z.eq_dec y_size 0) as [->|Hn].
    + exists IndexError.
      apply (zeros_setitem_last_error _ _ o [x] [Z.of_nat x; 0%Z] 0%nat);
        [|cbn [map app]; now rewrite Nat2Z.id | exact Ho
         | apply norm_index_empty].
      apply forallb_forall. intros d [<-|[<-|[]]]; apply Z.leb_le; lia.
    + exists ValueError. apply bind_raise, np_zeros_negative.
      cbn [forallb]. rewrite andb_true_r. apply andb_false_iff. right.
      apply Z.leb_gt. lia.
  - exists TypeError. apply bind_raise. unfold load. now rewrite Ho.
Qed.

End Configurations.

(** ** The records of the trials *)

Section Records.
Import Validator.

Lemma record_of_fields (pattern_id : Z) (name : String.string)
    (s_lo : list nat) (lo : nd s_lo) (s_hi : list nat) (hi : nd s_hi) :
  let r := record_of pattern_id name s_lo lo s_hi hi in
  phi_lower r = fst (fst (fst (calculate_phi s_lo lo))) /\
  phi_higher r = fst (fst (fst (calculate_phi s_hi hi))) /\
  ratio_phi r = ratio_or_zero (phi_higher r) (phi_lower r) /\
  loss_pct r = ((1 - ratio_phi r) * 100)%R /\
  alive_cells_lower r = sum (flatten s_lo lo) /\
  alive_cells_higher r = sum (flatten s_hi hi).
Proof.
  unfold record_of.
  destruct (calculate_phi s_lo lo) as [[[phi_lo R_lo] S_lo] D_lo].
  destruct (calculate_phi s_hi hi) as [[[phi_hi R_hi] S_hi] D_hi].
  cbn. repeat split.
Qed.

(** The ratio policy, on any record whose ratio and loss are computed the
    way the trials compute them. *)
Lemma ratio_policy_of_fields (r : TransitionRecord) :
  ratio_phi r = ratio_or_zero (phi_higher r) (phi_lower r) ->
  loss_pct r = ((1 - ratio_phi r) * 100)%R ->
  (phi_lower r = 0%R -> ratio_phi r = 0%R /\ loss_pct r = 100%R) /\
  ((0 < phi_lower r)%R ->
   ratio_phi r = (phi_higher r / phi_lower r)%R /\
   loss_pct r = ((1 - phi_higher r / phi_lower r) * 100)%R).
Proof.
  intros Hr Hl. unfold ratio_or_zero in Hr. split.
  - intros H0. rewrite H0 in Hr.
    destruct (Rlt_dec 0 0) as [Hlt|_]; [lra|].
    rewrite Hl, Hr. split; [reflexivity | lra].
  - intros Hpos. destruct (Rlt_dec 0 (phi_lower r)) as [_|Hn]; [|lra].
    rewrite Hl, Hr. split; reflexivity.
Qed.

Lemma record_of_policy (pattern_id : Z) (name : String.string)
    (s_lo : list nat) (lo : nd s_lo) (s_hi : list nat) (hi : nd s_hi) :
  let r := record_of pattern_id name s_lo lo s_hi hi in
  (phi_lower r = 0%R -> ratio_phi r = 0%R /\ loss_pct r = 100%R) /\
  ((0 < phi_lower r)%R ->
   ratio_phi r = (phi_higher r / phi_lower r)%R /\
   loss_pct r = ((1 - phi_higher r / phi_lower r) * 100)%R).
Proof.
  intros r.
  destruct (record_of_fields pattern_id name s_lo lo s_hi hi)
    as (_ & _ & Hr & Hl & _).
  now apply ratio_policy_of_fields.
Qed.

(** What a trial returns at a grid size of at least 1 and a seed numpy
    accepts. *)
Lemma trial_record (randint : Z -> forall s : list nat, nd s)
    (self : validator) (test : Z -> Z -> M TransitionRecord)
    (pattern_id seed : Z) (h : heap) :
  (1 <= grid_size self)%Z -> valid_seed seed = true ->
  In test [test_1d_to_2d randint self; test_2d_to_3d randint self;
           test_3d_to_4d randint self] ->
  exists (name : String.string) (s s' : list nat) (E : nd s') (h' : heap),
    test pattern_id seed h
    = Ok (record_of pattern_id name s (randint seed s) s' E, h').
Proof.
  intros Hg Hseed [<-|[<-|[<-|[]]]].
  - rewrite (test_1d_to_2d_run randint self Hg _ _ _ Hseed). cbv zeta.
    do 5 eexists. reflexivity.
  - rewrite (test_2d_to_3d_run randint self Hg _ _ _ Hseed). cbv zeta.
    do 5 eexists. reflexivity.
  - rewrite (test_3d_to_4d_run randint self Hg _ _ _ Hseed). cbv zeta.
    do 5 eexists. reflexivity.
Qed.

(** The only errors of a trial are numpy's [ValueError] and
    [IndexError]. *)
Lemma trial_raises (randint : Z -> forall s : list nat, nd s)
    (self : validator) (test : Z -> Z -> M TransitionRecord)
    (pattern_id seed : Z) (h : heap) (e : exn) :
  In test [test_1d_to_2d randint self; test_2d_to_3d randint self;
           test_3d_to_4d randint self] ->
  test pattern_id seed h = Raise e -> e = ValueError \/ e = IndexError.
Proof.
  intros Hin Hrun.
  destruct (valid_seed seed) eqn:Hseed.
  - destruct (Z_le_gt_dec 1 (grid_size self)) as [Hg|Hg].
    + destruct (trial_record randint self test pattern_id seed h Hg Hseed
                  Hin) as (name & s & s' & E & h' & Hok).
      rewrite Hok in Hrun. discriminate.
    + assert (Hg0 : (grid_size self <= 0)%Z) by lia.
      destruct Hin as [<-|[<-|[<-|[]]]].
      * destruct (test_1d_to_2d_invalid randint self pattern_id seed h Hg0)
          as (e' & He' & Hc). rewrite He' in Hrun. now injection Hrun as <-.
      * destruct (test_2d_to_3d_invalid randint self pattern_id seed h Hg0)
          as (e' & He' & Hc). rewrite He' in Hrun. now injection Hrun as <-.
      * destruct (test_3d_to_4d_invalid randint self pattern_id seed h Hg0)
          as (e' & He' & Hc). rewrite He' in Hrun. now injection Hrun as <-.
  - left. destruct Hin as [<-|[<-|[<-|[]]]].
    + rewrite (test_1d_to_2d_bad_seed randint self pattern_id seed h Hseed)
        in Hrun. now injection Hrun as <-.
    + rewrite (test_2d_to_3d_bad_seed randint self pattern_id seed h Hseed)
        in Hrun. now injection Hrun as <-.
    + rewrite (test_3d_to_4d_bad_seed randint self pattern_id seed h Hseed)
        in Hrun. now injection Hrun as <-.
Qed.

(** A trial returns a record only at a grid size of at least 1 and with a
    seed numpy accepts. *)
Lemma trial_ok_configuration (randint : Z -> forall s : list nat, nd s)
    (self : validator) (test : Z -> Z -> M TransitionRecord)
    (pattern_id seed : Z) (h h' : heap) (r : TransitionRecord) :
  In test [test_1d_to_2d randint self; test_2d_to_3d randint self;
           test_3d_to_4d randint self] ->
  test pattern_id seed h = Ok (r, h') ->
  (1 <= grid_size self)%Z /\ valid_seed seed = true.
Proof.
  intros Hin Hrun.
  destruct (valid_seed seed) eqn:Hseed.
  - split; [|reflexivity].
    destruct (Z_le_gt_dec 1 (grid_size self)) as [Hg|Hg]; [exact Hg|].
    assert (Hg0 : (grid_size self <= 0)%Z) by lia. exfalso.
    destruct Hin as [<-|[<-|[<-|[]]]].
    + destruct (test_1d_to_2d_invalid randint self pattern_id seed h Hg0)
        as (e & He & _). rewrite He in Hrun. discriminate.
    + destruct (test_2d_to_3d_invalid randint self pattern_id seed h Hg0)
        as (e & He & _). rewrite He in Hrun. discriminate.
    + destruct (test_3d_to_4d_invalid randint self pattern_id seed h Hg0)
        as (e & He & _). rewrite He in Hrun. discriminate.
  - exfalso. destruct Hin as [<-|[<-|[<-|[]]]].
    + rewrite (test_1d_to_2d_bad_seed randint self pattern_id seed h Hseed)
        in Hrun. discriminate.
    + rewrite (test_2d_to_3d_bad_seed randint self pattern_id seed h Hseed)
        in Hrun. discriminate.
    + rewrite (test_3d_to_4d_bad_seed randint self pattern_id seed h Hseed)
        in Hrun. discriminate.
Qed.

(** C5. In every trial of the validator -- each of [test_1d_to_2d],
    [test_2d_to_3d] and [test_3d_to_4d] -- at a grid size g >= 1 and with a
    seed that numpy accepts (0 <= seed < 2^32), the method returns a record
    and raises nothing; when the lower-rank Phi is 0 the division is not
    performed, the record's ratio is 0 and its loss_pct is 100; when the
    lower-rank Phi is positive the ratio is Phi_higher / Phi_lower and
    loss_pct is (1 - ratio) * 100.  Whatever the grid size and the seed, a
    trial never raises [ZeroDivisionError]. *)
Theorem ratio_policy (randint : Z -> forall s : list nat, nd s)
    (self : validator) (test : Z -> Z -> M TransitionRecord)
    (pattern_id seed : Z) (h : heap) :
  In test [test_1d_to_2d randint self; test_2d_to_3d randint self;
           test_3d_to_4d randint self] ->
  ((1 <= grid_size self)%Z -> (0 <= seed < 2 ^ 32)%Z ->
   exists (r : TransitionRecord) (h' : heap),
     test pattern_id seed h = Ok (r, h') /\
     (phi_lower r = 0%R -> ratio_phi r = 0%R /\ loss_pct r = 100%R) /\
     ((0 < phi_lower r)%R ->
      ratio_phi r = (phi_higher r / phi_lower r)%R /\
      loss_pct r = ((1 - phi_higher r / phi_lower r) * 100)%R)) /\
  test pattern_id seed h <> Raise ZeroDivisionError.
Proof.
  intros Hin. split.
  - intros Hg Hseed. apply valid_seed_range in Hseed.
    destruct (trial_record randint self test pattern_id seed h Hg Hseed Hin)
      as (name & s & s' & E & h' & Hok).
    rewrite Hok. do 2 eexists. split; [reflexivity | apply record_of_policy].
  - intros Hrun.
    destruct (trial_raises randint self test pattern_id seed h _ Hin Hrun);
      discriminate.
Qed.

End Records.

Lemma ratio_policy_witness :
  let self := {| Validator.n_patterns := 1; Validator.grid_size := 4 |} in
  let test := Validator.test_1d_to_2d Samples.sample_randint self in
  (In test [Validator.test_1d_to_2d Samples.sample_randint self;
            Validator.test_2d_to_3d Samples.sample_randint self;
            Validator.test_3d_to_4d Samples.sample_randint self] /\
   (1 <= Validator.grid_size self)%Z /\ (0 <= 100 < 2 ^ 32)%Z) /\
  (exists (r : Validator.TransitionRecord) (h' : heap),
     test 0%Z 100%Z [] = Ok (r, h') /\
     (Validator.phi_lower r = 0%R ->
      Validator.ratio_phi r = 0%R /\ Validator.loss_pct r = 100%R) /\
     ((0 < Validator.phi_lower r)%R ->
      Validator.ratio_phi r
      = (Validator.phi_higher r / Validator.phi_lower r)%R /\
      Validator.loss_pct r
      = ((1 - Validator.phi_higher r / Validator.phi_lower r) * 100)%R)) /\
  test 0%Z 100%Z [] <> Raise ZeroDivisionError.
Proof.
  intros self test.
  assert (Hg : (1 <= Validator.grid_size self)%Z) by (cbn; lia).
  assert (Hseed : (0 <= 100 < 2 ^ 32)%Z) by lia.
  assert (Hin : In test
    [Validator.test_1d_to_2d Samples.sample_randint self;
     Validator.test_2d_to_3d Samples.sample_randint self;
     Validator.test_3d_to_4d Samples.sample_randint self])
    by (left; reflexivity).
  split; [exact (conj Hin (conj Hg Hseed))|]. split.
  - exact (proj1 (ratio_policy Samples.sample_randint self test 0%Z 100%Z []
                    Hin) Hg Hseed).
  - exact (proj2 (ratio_policy Samples.sample_randint self test 0%Z 100%Z []
                    Hin)).
Defined.

(** ** The stand-in generator is a legitimate one *)

Section SampleFacts.

Lemma wf_tabulate (f : nat -> Z) (s : list nat) (off : nat) :
  wf s (Samples.tabulate f s off).
Proof.
  revert off. induction s as [|n s IH]; intros off; [exact I|].
  cbn [Samples.tabulate]. apply wf_cons. split.
  - now rewrite length_map, length_seq.
  - apply Forall_map, Forall_forall. intros i _. apply IH.
Qed.

Lemma binary_tabulate (f : nat -> Z) (s : list nat) (off : nat) :
  (forall k, f k = 0%Z \/ f k = 1%Z) ->
  binary s (Samples.tabulate f s off).
Proof.
  intros Hf. unfold binary. revert off.
  induction s as [|n s IH]; intros off.
  - cbn. constructor; [apply Hf | constructor].
  - cbn [Samples.tabulate]. rewrite flatten_cons.
    apply Forall_flat_map, Forall_map, Forall_forall. intros i _. apply IH.
Qed.

Lemma sample_randint_ok (seed : Z) (s : list nat) :
  wf s (Samples.sample_randint seed s) /\
  binary s (Samples.sample_randint seed s).
Proof.
  unfold Samples.sample_randint. split; [apply wf_tabulate|].
  apply binary_tabulate. intros k.
  pose proof (Nat.mod_upper_bound (k + k / 3 + Z.to_nat seed) 2) as H.
  destruct ((k + k / 3 + Z.to_nat seed) mod 2) as [|[|m]]; [now left | now right
    | lia].
Qed.

End SampleFacts.

(** ** Set cells across the embedding *)

Section AliveCells.
Import Validator.

(** Read the alive-cell fields of the record in the goal. *)
Ltac record_fields Hlo Hhi :=
  match goal with
  | |- context [record_of ?i ?n ?s ?lo ?s' ?hi] =>
      destruct (record_of_fields i n s lo s' hi)
        as (_ & _ & _ & _ & Hlo & Hhi)
  end.

Lemma trial_alive_cells (randint : Z -> forall s : list nat, nd s)
    (self : validator) (test : Z -> Z -> M TransitionRecord)
    (pattern_id seed : Z) (h : heap) :
  (forall seed s, wf s (randint seed s)) ->
  (1 <= grid_size self)%Z -> valid_seed seed = true ->
  In test [test_1d_to_2d randint self; test_2d_to_3d randint self;
           test_3d_to_4d randint self] ->
  exists (r : TransitionRecord) (h' : heap),
    test pattern_id seed h = Ok (r, h') /\
    alive_cells_higher r = alive_cells_lower r.
Proof.
  intros Hwf Hg Hseed Hin.
  pose proof (proj2 (norm_index_mid _ Hg)) as Hmid.
  destruct Hin as [<-|[<-|[<-|[]]]].
  - rewrite (test_1d_to_2d_run randint self Hg _ _ _ Hseed). cbv zeta.
    do 2 eexists. split; [reflexivity|]. record_fields Hlo Hhi.
    rewrite Hlo, Hhi. now apply sum_assign_first_zeros.
  - rewrite (test_2d_to_3d_run randint self Hg _ _ _ Hseed). cbv zeta.
    do 2 eexists. split; [reflexivity|]. record_fields Hlo Hhi.
    rewrite Hlo, Hhi. now apply sum_assign_last_zeros.
  - rewrite (test_3d_to_4d_run randint self Hg _ _ _ Hseed). cbv zeta.
    do 2 eexists. split; [reflexivity|]. record_fields Hlo Hhi.
    rewrite Hlo, Hhi. now apply sum_assign_last_zeros.
Qed.

(** C9. Embedding keeps the number of set cells: after [embed_1d_to_2d]
    with a target extent m >= 1, [np.sum] of the new array equals [np.sum]
    of the source; and every record that [test_1d_to_2d], [test_2d_to_3d]
    or [test_3d_to_4d] returns has alive_cells_higher equal to
    alive_cells_lower (a record is returned whenever the grid size is at
    least 1 and the seed is one numpy accepts, 0 <= seed < 2^32). *)
Theorem embedding_preserves_alive_cells :
  (forall (h : heap) (grid_1d : loc) (x : nat) (P : nd [x]) (y_size : Z),
     nth_error h grid_1d = Some (mk_obj [x] P) -> wf [x] P ->
     (1 <= y_size)%Z ->
     exists (grid_2d : loc) (h' : heap),
       Tests.embed_1d_to_2d grid_1d y_size h = Ok (grid_2d, h') /\
       np_sum grid_1d h' = Ok (sum (flatten [x] P), h') /\
       np_sum grid_2d h' = Ok (sum (flatten [x] P), h')) /\
  (forall (randint : Z -> forall s : list nat, nd s) (self : validator)
          (test : Z -> Z -> M TransitionRecord) (pattern_id seed : Z)
          (h : heap),
     (forall seed s, wf s (randint seed s)) ->
     In test [test_1d_to_2d randint self; test_2d_to_3d randint self;
              test_3d_to_4d randint self] ->
     (forall r h', test pattern_id seed h = Ok (r, h') ->
                   alive_cells_higher r = alive_cells_lower r) /\
     ((1 <= grid_size self)%Z -> (0 <= seed < 2 ^ 32)%Z ->
      exists r h', test pattern_id seed h = Ok (r, h'))).
Proof.
  split.
  - intros h grid_1d x P y_size Hs HP Hy.
    rewrite (embed_1d_to_2d_run h grid_1d x P y_size Hs Hy).
    do 2 eexists. split; [reflexivity|]. split.
    + apply np_sum_run. now apply nth_error_old.
    + erewrite np_sum_run by apply nth_error_new.
      rewrite sum_assign_last_zeros;
        [reflexivity | exact HP | apply norm_index_mid, Hy].
  - intros randint self test pattern_id seed h Hwf Hin. split.
    + intros r h' Hrun.
      destruct (trial_ok_configuration randint self test pattern_id seed
                  h h' r Hin Hrun) as [Hg Hseed].
      destruct (trial_alive_cells randint self test pattern_id seed h
                  Hwf Hg Hseed Hin) as (r0 & h0 & Hrun0 & Heq).
      rewrite Hrun0 in Hrun. now injection Hrun as -> _.
    + intros Hg Hseed. apply valid_seed_range in Hseed.
      destruct (trial_alive_cells randint self test pattern_id seed h
                  Hwf Hg Hseed Hin) as (r0 & h0 & Hrun0 & _).
      now exists r0, h0.
Qed.

Lemma embedding_preserves_alive_cells_witness :
  let h := [mk_obj [4%nat] Samples.sample_1d] in
  let self := {| n_patterns := 1; grid_size := 4 |} in
  let test := test_2d_to_3d Samples.sample_randint self in
  (nth_error h 0 = Some (mk_obj [4%nat] Samples.sample_1d) /\
   wf [4%nat] Samples.sample_1d /\ (1 <= 3)%Z /\
   (forall seed s, wf s (Samples.sample_randint seed s)) /\
   In test [test_1d_to_2d Samples.sample_randint self;
            test_2d_to_3d Samples.sample_randint self;
            test_3d_to_4d Samples.sample_randint self] /\
   (1 <= grid_size self)%Z /\ (0 <= 1000 < 2 ^ 32)%Z) /\
  (exists (grid_2d : loc) (h' : heap),
     Tests.embed_1d_to_2d 0%nat 3 h = Ok (grid_2d, h') /\
     np_sum 0%nat h' = Ok (sum (flatten [4%nat] Samples.sample_1d), h') /\
     np_sum grid_2d h' = Ok (sum (flatten [4%nat] Samples.sample_1d), h')) /\
  (forall r h', test 0%Z 1000%Z [] = Ok (r, h') ->
                alive_cells_higher r = alive_cells_lower r) /\
  (exists r h', test 0%Z 1000%Z [] = Ok (r, h')).
Proof.
  intros h self test.
  assert (Hs : nth_error h 0 = Some (mk_obj [4%nat] Samples.sample_1d))
    by reflexivity.
  assert (HP : wf [4%nat] Samples.sample_1d)
    by (cbn; repeat (split || constructor)).
  assert (Hy : (1 <= 3)%Z) by lia.
  assert (Hwf : forall seed s, wf s (Samples.sample_randint seed s))
    by (intros seed s; apply sample_randint_ok).
  assert (Hin : In test [test_1d_to_2d Samples.sample_randint self;
                         test_2d_to_3d Samples.sample_randint self;
                         test_3d_to_4d Samples.sample_randint self])
    by (right; left; reflexivity).
  assert (Hg : (1 <= grid_size self)%Z) by (cbn; lia).
  assert (Hseed : (0 <= 1000 < 2 ^ 32)%Z) by lia.
  split; [exact (conj Hs (conj HP (conj Hy (conj Hwf (conj Hin
                   (conj Hg Hseed))))))|].
  split; [|split].
  - exact (proj1 embedding_preserves_alive_cells h 0%nat 4%nat
             Samples.sample_1d 3%Z Hs HP Hy).
  - exact (proj1 (proj2 embedding_preserves_alive_cells
                    Samples.sample_randint self test 0%Z 1000%Z [] Hwf Hin)).
  - exact (proj2 (proj2 embedding_preserves_alive_cells
                    Samples.sample_randint self test 0%Z 1000%Z [] Hwf Hin)
             Hg Hseed).
Defined.

End AliveCells.

(** ** When Phi vanishes *)

Section PhiZero.
Import Validator.

Lemma phi_regular_positive (s : list nat) (pattern : nd s)
    (phi R_ S_ D_ : float) :
  wf s pattern -> binary s pattern -> degenerate s pattern = false ->
  calculate_phi s pattern = (phi, R_, S_, D_) ->
  (0 < D_ /\ 0 < R_ /\ 0 <= S_ /\ 0 < phi)%R.
Proof.
  intros Hw Hb Hd Hc.
  rewrite (calculate_phi_regular s pattern Hd) in Hc. cbv zeta in Hc.
  injection Hc as <- <- <- <-.
  pose proof (ratio_strict _ _ (regular_alive_strict s pattern Hb Hd)) as Hp.
  pose proof (integration_bounds s pattern Hw) as HS.
  pose proof (binary_entropy_pos _ Hp) as HD.
  repeat split; try lra. nra.
Qed.

Lemma phi_positive_iff (s : list nat) (pattern : nd s) :
  wf s pattern -> binary s pattern ->
  ((0 < fst (fst (fst (calculate_phi s pattern))))%R <->
   degenerate s pattern = false).
Proof.
  intros Hw Hb. destruct (degenerate s pattern) eqn:Hd.
  - unfold calculate_phi. rewrite Hd. cbn [fst]. split; [lra | discriminate].
  - split; [reflexivity|]. intros _.
    destruct (calculate_phi s pattern) as [[[phi R_] S_] D_] eqn:Hc.
    cbn [fst]. now apply (phi_regular_positive s pattern phi R_ S_ D_).
Qed.

Lemma trial_lower_pattern (randint : Z -> forall s : list nat, nd s)
    (self : validator) (test : Z -> Z -> M TransitionRecord)
    (pattern_id seed : Z) (h : heap) :
  (1 <= grid_size self)%Z -> valid_seed seed = true ->
  In test [test_1d_to_2d randint self; test_2d_to_3d randint self;
           test_3d_to_4d randint self] ->
  exists (r : TransitionRecord) (h' : heap) (s : list nat),
    test pattern_id seed h = Ok (r, h') /\
    nth_error h' (length h) = Some (mk_obj s (randint seed s)) /\
    phi_lower r = fst (fst (fst (calculate_phi s (randint seed s)))) /\
    ratio_phi r = ratio_or_zero (phi_higher r) (phi_lower r).
Proof.
  intros Hg Hseed [<-|[<-|[<-|[]]]].
  - rewrite (test_1d_to_2d_run randint self Hg _ _ _ Hseed). cbv zeta.
    do 3 eexists. split; [reflexivity|]. split.
    + apply nth_error_old, nth_error_new.
    + split; apply record_of_fields.
  - rewrite (test_2d_to_3d_run randint self Hg _ _ _ Hseed). cbv zeta.
    do 3 eexists. split; [reflexivity|]. split.
    + apply nth_error_old, nth_error_new.
    + split; apply record_of_fields.
  - rewrite (test_3d_to_4d_run randint self Hg _ _ _ Hseed). cbv zeta.
    do 3 eexists. split; [reflexivity|]. split.
    + apply nth_error_old, nth_error_new.
    + split; apply record_of_fields.
Qed.

(** C10. On a rectangular 0/1 pattern [calculate_phi] returns Phi = 0 if
    and only if the pattern is degenerate, that is uniform: on every other
    pattern D is strictly positive, R and S are non-negative and Phi is
    strictly positive.  Hence, in a trial of the validator (at a grid size
    of at least 1 and with a seed numpy accepts, 0 <= seed < 2^32, so that
    the trial gets to measure a pattern), the lower-rank Phi fails the test
    [phi > 0] -- which makes the ratio fall back to 0 -- only when the
    generated lower-rank pattern is uniformly 0 or uniformly 1. *)
Theorem phi_zero_iff_degenerate :
  (forall (s : list nat) (pattern : nd s) (phi R_ S_ D_ : float),
     wf s pattern -> binary s pattern ->
     calculate_phi s pattern = (phi, R_, S_, D_) ->
     (degenerate s pattern = false ->
      (0 < D_ /\ 0 <= R_ /\ 0 <= S_ /\ 0 < phi)%R) /\
     (phi = 0%R <-> degenerate s pattern = true) /\
     (degenerate s pattern = true <->
      Spec.uniform s pattern 0 \/ Spec.uniform s pattern 1) /\
     (~ (0 < phi)%R ->
      Spec.uniform s pattern 0 \/ Spec.uniform s pattern 1)) /\
  (forall (randint : Z -> forall s : list nat, nd s) (self : validator)
          (test : Z -> Z -> M TransitionRecord) (pattern_id seed : Z)
          (h : heap),
     (forall seed s, wf s (randint seed s) /\ binary s (randint seed s)) ->
     (1 <= grid_size self)%Z -> (0 <= seed < 2 ^ 32)%Z ->
     In test [test_1d_to_2d randint self; test_2d_to_3d randint self;
              test_3d_to_4d randint self] ->
     exists (r : TransitionRecord) (h' : heap) (s : list nat) (P : nd s),
       test pattern_id seed h = Ok (r, h') /\
       nth_error h' (length h) = Some (mk_obj s P) /\
       (~ (0 < phi_lower r)%R ->
        ratio_phi r = 0%R /\
        (Spec.uniform s P 0 \/ Spec.uniform s P 1))).
Proof.
  split.
  - intros s pattern phi R_ S_ D_ Hw Hb Hc.
    pose proof (phi_positive_iff s pattern Hw Hb) as Hpos.
    rewrite Hc in Hpos. cbn [fst] in Hpos.
    pose proof (degenerate_uniform s pattern Hb) as Hu.
    assert (Hreg : degenerate s pattern = false ->
                   (0 < D_ /\ 0 <= R_ /\ 0 <= S_ /\ 0 < phi)%R).
    { intros Hd.
      destruct (phi_regular_positive s pattern phi R_ S_ D_ Hw Hb Hd Hc)
        as (HD & HR & HS & Hphi).
      repeat split; lra. }
    split; [exact Hreg|]. split; [|split; [exact Hu|]].
    + split.
      * intros H0. destruct (degenerate s pattern); [reflexivity|].
        destruct (Hreg eq_refl) as (_ & _ & _ & Hphi). lra.
      * intros Hd. unfold calculate_phi in Hc. rewrite Hd in Hc.
        now injection Hc as <- _ _ _.
    + intros Hn. apply Hu. destruct (degenerate s pattern); [reflexivity|].
      exfalso. apply Hn, Hpos. reflexivity.
  - intros randint self test pattern_id seed h Hgen Hg Hseed Hin.
    apply valid_seed_range in Hseed.
    destruct (trial_lower_pattern randint self test pattern_id seed h Hg
                Hseed Hin)
      as (r & h' & s & Hrun & Hobj & Hphi & Hratio).
    exists r, h', s, (randint seed s).
    split; [exact Hrun|]. split; [exact Hobj|]. intros Hn.
    destruct (Hgen seed s) as [Hw Hb]. split.
    + rewrite Hratio. unfold ratio_or_zero.
      destruct (Rlt_dec 0 (phi_lower r)); [contradiction | reflexivity].
    + apply (degenerate_uniform s (randint seed s) Hb).
      destruct (degenerate s (randint seed s)) eqn:Hd; [reflexivity|].
      exfalso. apply Hn. rewrite Hphi.
      now apply (phi_positive_iff s (randint seed s) Hw Hb).
Qed.

End PhiZero.

Lemma phi_zero_iff_degenerate_witness :
  let r := calculate_phi [2; 3]%nat Samples.sample_2d in
  let self := {| Validator.n_patterns := 1; Validator.grid_size := 4 |} in
  let test := Validator.test_1d_to_2d Samples.sample_randint self in
  (wf [2; 3]%nat Samples.sample_2d /\ binary [2; 3]%nat Samples.sample_2d /\
   (forall seed s, wf s (Samples.sample_randint seed s) /\
                   binary s (Samples.sample_randint seed s)) /\
   (1 <= Validator.grid_size self)%Z /\ (0 <= 100 < 2 ^ 32)%Z /\
   In test [Validator.test_1d_to_2d Samples.sample_randint self;
            Validator.test_2d_to_3d Samples.sample_randint self;
            Validator.test_3d_to_4d Samples.sample_randint self]) /\
  ((degenerate [2; 3]%nat Samples.sample_2d = false ->
    (0 < snd r /\ 0 <= snd (fst (fst r)) /\ 0 <= snd (fst r)
     /\ 0 < fst (fst (fst r)))%R) /\
   (fst (fst (fst r)) = 0%R <->
    degenerate [2; 3]%nat Samples.sample_2d = true) /\
   (degenerate [2; 3]%nat Samples.sample_2d = true <->
    Spec.uniform [2; 3]%nat Samples.sample_2d 0 \/
    Spec.uniform [2; 3]%nat Samples.sample_2d 1) /\
   (~ (0 < fst (fst (fst r)))%R ->
    Spec.uniform [2; 3]%nat Samples.sample_2d 0 \/
    Spec.uniform [2; 3]%nat Samples.sample_2d 1)) /\
  (exists (t : Validator.TransitionRecord) (h' : heap) (s : list nat)
          (P : nd s),
     test 0%Z 100%Z [] = Ok (t, h') /\
     nth_error h' (length (A := obj) []) = Some (mk_obj s P) /\
     (~ (0 < Validator.phi_lower t)%R ->
      Validator.ratio_phi t = 0%R /\
      (Spec.uniform s P 0 \/ Spec.uniform s P 1))).
Proof.
  intros r self test.
  assert (Hw : wf [2; 3]%nat Samples.sample_2d)
    by (cbn; repeat (split || constructor)).
  assert (Hb : binary [2; 3]%nat Samples.sample_2d)
    by (unfold binary; cbn; repeat constructor; auto).
  assert (Hg : (1 <= Validator.grid_size self)%Z) by (cbn; lia).
  assert (Hseed : (0 <= 100 < 2 ^ 32)%Z) by lia.
  assert (Hin : In test
    [Validator.test_1d_to_2d Samples.sample_randint self;
     Validator.test_2d_to_3d Samples.sample_randint self;
     Validator.test_3d_to_4d Samples.sample_randint self])
    by (left; reflexivity).
  split; [exact (conj Hw (conj Hb (conj sample_randint_ok
                   (conj Hg (conj Hseed Hin)))))|].
  split.
  - apply (proj1 phi_zero_iff_degenerate [2; 3]%nat Samples.sample_2d
             (fst (fst (fst r))) (snd (fst (fst r))) (snd (fst r)) (snd r)
             Hw Hb).
    subst r. repeat rewrite <- surjective_pairing. reflexivity.
  - exact (proj2 phi_zero_iff_degenerate Samples.sample_randint self test
             0%Z 100%Z [] sample_randint_ok Hg Hseed Hin).
Defined.

(** ** Configurations the validator does not reject *)

Section ConfigurationClaims.
Import Validator.




End ConfigurationClaims.

(** * Further properties of the code *)

(** ** The range of Phi *)

Section PhiRange.
Open Scope R_scope.

(** [p + H(p)] never exceeds [log2 3]: the tangent bound of the logarithm
    at 2/(3p) and at 1/(3(1-p)). *)
Lemma fraction_plus_entropy_le (p : R) :
  0 < p < 1 -> p + Spec.binary_entropy p <= log2 3.
Proof.
  intros Hp. unfold Spec.binary_entropy, log2.
  pose proof ln2_pos as H2.
  assert (Ha : 0 < 2 / (3 * p)) by (apply Rdiv_lt_0_compat; lra).
  assert (Hb : 0 < / (3 * (1 - p))) by (apply Rinv_0_lt_compat; lra).
  pose proof (ln_le_sub1 _ Ha) as H1. pose proof (ln_le_sub1 _ Hb) as H3.
  unfold Rdiv in H1. rewrite ln_mult in H1 by (try apply Rinv_0_lt_compat; lra).
  rewrite ln_Rinv in H1, H3 by lra. rewrite ln_mult in H1, H3 by lra.
  assert (Hm1 : p * (ln 2 + - (ln 3 + ln p)) <= p * (2 * / (3 * p) - 1))
    by (apply Rmult_le_compat_l; lra).
  assert (Hm3 : (1 - p) * (- (ln 3 + ln (1 - p)))
                <= (1 - p) * (/ (3 * (1 - p)) - 1))
    by (apply Rmult_le_compat_l; lra).
  replace (p * (2 * / (3 * p) - 1)) with (2 / 3 - p) in Hm1 by (field; lra).
  replace ((1 - p) * (/ (3 * (1 - p)) - 1)) with (/ 3 - (1 - p)) in Hm3
    by (field; lra).
  assert (Hs : p * ln 2 - (p * ln p + (1 - p) * ln (1 - p)) <= ln 3) by lra.
  assert (Hi : 0 < / ln 2) by now apply Rinv_0_lt_compat.
  replace (p + - (p * (ln p / ln 2) + (1 - p) * (ln (1 - p) / ln 2)))
    with ((p * ln 2 - (p * ln p + (1 - p) * ln (1 - p))) * / ln 2)
    by (field; lra).
  unfold Rdiv. apply Rmult_le_compat_r; lra.
Qed.

Lemma log2_3_lt_2 : log2 3 < 2.
Proof.
  unfold log2. pose proof ln2_pos as H2.
  assert (H : ln 3 < ln 4) by (apply ln_increasing; lra).
  replace 4 with (2 * 2) in H by lra. rewrite ln_mult in H by lra.
  assert (Hi : 0 < / ln 2) by now apply Rinv_0_lt_compat.
  apply Rlt_le_trans with ((ln 2 + ln 2) * / ln 2).
  - unfold Rdiv. apply Rmult_lt_compat_r; lra.
  - right. field. lra.
Qed.

(** X1. On every rectangular 0/1 pattern the Phi that [calculate_phi]
    returns satisfies 0 <= Phi <= R + D <= log2 3 < 2. *)
Theorem phi_range (s : list nat) (pattern : nd s) (phi R_ S_ D_ : float) :
  wf s pattern -> binary s pattern ->
  calculate_phi s pattern = (phi, R_, S_, D_) ->
  0 <= phi /\ phi <= R_ + D_ /\ R_ + D_ <= log2 3 /\ log2 3 < 2.
Proof.
  intros Hw Hb Hc. pose proof log2_3_lt_2 as H32.
  destruct (degenerate s pattern) eqn:Hd.
  - unfold calculate_phi in Hc. rewrite Hd in Hc.
    injection Hc as <- <- <- <-.
    assert (0 < log2 3).
    { unfold log2. apply Rdiv_lt_0_compat; [|apply ln2_pos].
      rewrite <- ln_1. apply ln_increasing; lra. }
    lra.
  - rewrite (calculate_phi_regular s pattern Hd) in Hc. cbv zeta in Hc.
    injection Hc as <- <- <- <-.
    pose proof (ratio_strict _ _ (regular_alive_strict s pattern Hb Hd)) as Hp.
    pose proof (integration_bounds s pattern Hw) as HS.
    pose proof (binary_entropy_pos _ Hp) as HD.
    pose proof (fraction_plus_entropy_le _ Hp) as HL.
    repeat split; try lra; nra.
Qed.

Lemma phi_range_witness :
  let r := calculate_phi [2; 3]%nat Samples.sample_2d in
  (wf [2; 3]%nat Samples.sample_2d /\ binary [2; 3]%nat Samples.sample_2d) /\
  0 <= fst (fst (fst r)) /\
  fst (fst (fst r)) <= snd (fst (fst r)) + snd r /\
  snd (fst (fst r)) + snd r <= log2 3 /\ log2 3 < 2.
Proof.
  intros r.
  assert (Hw : wf [2; 3]%nat Samples.sample_2d)
    by (cbn; repeat (split || constructor)).
  assert (Hb : binary [2; 3]%nat Samples.sample_2d)
    by (unfold binary; cbn; repeat constructor; auto).
  split; [exact (conj Hw Hb)|].
  apply (phi_range [2; 3]%nat Samples.sample_2d
           (fst (fst (fst r))) (snd (fst (fst r))) (snd (fst r)) (snd r)
           Hw Hb).
  subst r. repeat rewrite <- surjective_pairing. reflexivity.
Defined.

End PhiRange.

(** ** Invariance of the metric under cyclic shifts *)

Section ShiftInvariance.
Open Scope Z_scope.

Lemma rotr_snoc {A : Type} (l : list A) (x : A) : rotr (l ++ [x]) = x :: l.
Proof.
  destruct l as [|y l]; [reflexivity|].
  change ((y :: l) ++ [x])%list with (y :: (l ++ [x]))%list.
  rewrite rotr_cons.
  change (y :: (l ++ [x]))%list with ((y :: l) ++ [x])%list.
  now rewrite last_last, removelast_last.
Qed.

Lemma snoc_cases {A : Type} (l : list A) :
  l = [] \/ exists l' x, l = (l' ++ [x])%list.
Proof.
  destruct l as [|y l]; [now left | right].
  exists (removelast (y :: l)), (last (y :: l) y). apply rotr_split.
Qed.

Lemma rotr_map {A B : Type} (f : A -> B) (l : list A) :
  rotr (map f l) = map f (rotr l).
Proof.
  destruct (snoc_cases l) as [->|(l' & x & ->)]; [reflexivity|].
  rewrite map_app. cbn [map]. now rewrite !rotr_snoc.
Qed.

Lemma sum_map_rotr {A : Type} (F : A -> Z) (l : list A) :
  sum (map F (rotr l)) = sum (map F l).
Proof.
  destruct (snoc_cases l) as [->|(l' & x & ->)]; [reflexivity|].
  rewrite rotr_snoc, map_app, sum_app. cbn [map].
  unfold sum. cbn [fold_right]. ring.
Qed.

Lemma combine_snoc {A B : Type} (a : list A) (b : list B) (x : A) (y : B) :
  length a = length b ->
  combine (a ++ [x]) (b ++ [y]) = (combine a b ++ [(x, y)])%list.
Proof.
  revert b. induction a as [|x' a IH]; intros [|y' b] Hl; try discriminate;
    [reflexivity|].
  cbn. f_equal. apply IH. now injection Hl.
Qed.

Lemma combine_rotr {A B : Type} (a : list A) (b : list B) :
  length a = length b -> combine (rotr a) (rotr b) = rotr (combine a b).
Proof.
  intros Hl.
  destruct (snoc_cases a) as [->|(a' & x & ->)];
    destruct (snoc_cases b) as [->|(b' & y & ->)];
    rewrite ?length_app in Hl; cbn in Hl; try lia; [reflexivity|].
  rewrite combine_snoc by lia. now rewrite !rotr_snoc.
Qed.

Lemma combine_map_both {A B : Type} (f : A -> B) (a b : list A) :
  combine (map f a) (map f b)
  = map (fun p => (f (fst p), f (snd p))) (combine a b).
Proof.
  revert b. induction a as [|x a IH]; intros [|y b]; cbn; trivial.
  now rewrite IH.
Qed.

Lemma sum_flat_map {A : Type} (f : A -> list Z) (l : list A) :
  sum (flat_map f l) = sum (map (fun x => sum (f x)) l).
Proof.
  induction l as [|x l IH]; [reflexivity|].
  cbn [flat_map map]. rewrite sum_app, IH. reflexivity.
Qed.

(** Shifts along two axes commute. *)
Lemma roll_roll_comm (s : list nat) (j k : nat) (a : nd s) :
  roll s j (roll s k a) = roll s k (roll s j a).
Proof.
  revert j k a. induction s as [|n s IH]; intros j k a; [reflexivity|].
  destruct j as [|j], k as [|k]; rewrite ?roll_O, ?roll_S; trivial.
  - now rewrite rotr_map.
  - now rewrite rotr_map.
  - rewrite !map_map. apply map_ext. intros x. apply IH.
Qed.

(** Shifting both arrays alike keeps the number of differing cells. *)
Lemma count_ne_roll_both (s : list nat) (k : nat) (a b : nd s) :
  wf s a -> wf s b -> count_ne s (roll s k a) (roll s k b) = count_ne s a b.
Proof.
  revert k a b. induction s as [|n s IH]; intros k a b Ha Hb; [reflexivity|].
  destruct (proj1 (wf_cons n s a) Ha) as [Hla Hfa].
  destruct (proj1 (wf_cons n s b) Hb) as [Hlb Hfb].
  destruct k as [|k]; rewrite ?roll_O, ?roll_S; cbn [count_ne].
  - rewrite combine_rotr by congruence. apply sum_map_rotr.
  - rewrite combine_map_both, map_map. f_equal.
    apply map_ext_in. intros [x y] Hin. cbn [fst snd].
    rewrite Forall_forall in Hfa, Hfb.
    apply IH; [eapply Hfa, in_combine_l, Hin | eapply Hfb, in_combine_r, Hin].
Qed.

Lemma sum_flatten_roll (s : list nat) (k : nat) (a : nd s) :
  sum (flatten s (roll s k a)) = sum (flatten s a).
Proof.
  revert k a. induction s as [|n s IH]; intros k a; [reflexivity|].
  destruct k as [|k]; rewrite ?roll_O, ?roll_S, !flatten_cons, !sum_flat_map.
  - apply sum_map_rotr.
  - rewrite map_map. f_equal. apply map_ext. intros x. apply IH.
Qed.

Lemma integration_loop_roll (s : list nat) (k : nat) (pattern : nd s) :
  wf s pattern ->
  integration_loop s (roll s k pattern) = integration_loop s pattern.
Proof.
  intros Hw. rewrite !integration_loop_closed. f_equal. f_equal.
  apply map_ext. intros j.
  rewrite roll_roll_comm. apply count_ne_roll_both; [exact Hw|].
  now apply wf_roll.
Qed.

(** X2. The metric is invariant under a cyclic shift by one position along
    any axis of the array: [calculate_phi] of [np.roll(pattern, 1, axis)]
    is [calculate_phi] of [pattern], component by component. *)
Theorem calculate_phi_roll_invariant (s : list nat) (axis : nat)
    (pattern : nd s) :
  wf s pattern -> (axis < ndim s)%nat ->
  calculate_phi s (roll s axis pattern) = calculate_phi s pattern.
Proof.
  intros Hw _.
  assert (Ha : alive_cells s (roll s axis pattern) = alive_cells s pattern)
    by apply sum_flatten_roll.
  assert (Hn : n_cells s (roll s axis pattern) = n_cells s pattern).
  { unfold n_cells. rewrite !length_flatten; trivial. now apply wf_roll. }
  unfold calculate_phi, degenerate, _calculate_integration.
  now rewrite Ha, Hn, integration_loop_roll.
Qed.

Lemma calculate_phi_roll_invariant_witness :
  (wf [2; 3]%nat Samples.sample_2d /\ (1 < ndim [2; 3]%nat)%nat) /\
  calculate_phi [2; 3]%nat (roll [2; 3]%nat 1 Samples.sample_2d)
  = calculate_phi [2; 3]%nat Samples.sample_2d.
Proof.
  assert (Hw : wf [2; 3]%nat Samples.sample_2d)
    by (cbn; repeat (split || constructor)).
  assert (Ha : (1 < ndim [2; 3]%nat)%nat) by (cbn; lia).
  split; [exact (conj Hw Ha)|].
  exact (calculate_phi_roll_invariant [2; 3]%nat 1 Samples.sample_2d Hw Ha).
Defined.

End ShiftInvariance.

(** ** What embedding does to the counts of the metric *)

Section EmbeddingCounts.
Open Scope Z_scope.

Lemma count_ne_sym (s : list nat) (a b : nd s) :
  count_ne s a b = count_ne s b a.
Proof.
  revert a b. induction s as [|n s IH]; intros a b.
  - cbn. now rewrite Z.eqb_sym.
  - cbn [count_ne]. revert b.
    induction a as [|x a IHa]; intros [|y b]; trivial.
    cbn [combine map sum fold_right fst snd]. unfold sum in IHa.
    now rewrite (IH x y), IHa.
Qed.

Lemma count_ne_refl (s : list nat) (a : nd s) : count_ne s a a = 0.
Proof.
  revert a. induction s as [|n s IH]; intros a.
  - cbn. now rewrite Z.eqb_refl.
  - cbn [count_ne]. induction a as [|x a IHa]; [reflexivity|].
    cbn [combine map sum fold_right fst snd]. unfold sum in IHa.
    now rewrite (IH x), IHa.
Qed.

(** On a 0/1 array the cells that differ from 0 are the set cells. *)
Lemma count_ne_zeros_binary (s : list nat) (P : nd s) :
  wf s P -> binary s P -> count_ne s P (zeros s) = sum (flatten s P).
Proof.
  unfold binary, zeros. revert P. induction s as [|n s IH]; intros P Hw Hb.
  - cbn in *. inversion Hb as [|? ? [H|H] _]; subst; reflexivity.
  - destruct (proj1 (wf_cons n s P) Hw) as [Hl Hf].
    rewrite flatten_cons in *. apply Forall_flat_map in Hb.
    cbn [count_ne full]. rewrite sum_flat_map. rewrite <- Hl. clear Hl Hw.
    induction P as [|x P IHP]; [reflexivity|].
    inversion Hf; inversion Hb; subst.
    cbn [length repeat combine map sum fold_right fst snd].
    unfold sum in IHP. rewrite IH, IHP by assumption. reflexivity.
Qed.

Lemma sum_map_add {A : Type} (f g : A -> Z) (l : list A) :
  sum (map (fun x => f x + g x) l) = sum (map f l) + sum (map g l).
Proof.
  induction l as [|x l IH]; [reflexivity|].
  cbn [map sum fold_right]. unfold sum in *. rewrite IH. ring.
Qed.

Lemma sum_map_scale {A : Type} (c : Z) (f : A -> Z) (l : list A) :
  sum (map (fun x => c * f x) l) = c * sum (map f l).
Proof.
  induction l as [|x l IH]; [cbn; ring|].
  cbn [map sum fold_right]. unfold sum in *. rewrite IH. ring.
Qed.

(** A sum with a single non-zero term. *)
Lemma sum_indicator (j n : nat) (c : Z) :
  (j < n)%nat ->
  sum (map (fun i => if (i =? j)%nat then c else 0) (seq 0 n)) = c.
Proof.
  intros Hj.
  assert (H : forall start len, (start <= j < start + len)%nat ->
    sum (map (fun i => if (i =? j)%nat then c else 0) (seq start len)) = c).
  { intros start len. revert start.
    induction len as [|len IH]; intros start Hr; [lia|].
    cbn [seq map sum fold_right].
    fold (sum (map (fun i => if (i =? j)%nat then c else 0)
                   (seq (S start) len))).
    destruct (Nat.eqb_spec start j) as [->|Hne].
    - assert (H0 : sum (map (fun i => if (i =? j)%nat then c else 0)
                            (seq (S j) len)) = 0).
      { clear. remember (S j) as st eqn:Hst.
        assert (Hlt : (j < st)%nat) by lia. clear Hst. revert st Hlt.
        induction len as [|len IH]; intros st Hlt; [reflexivity|].
        cbn [seq map sum fold_right].
        destruct (Nat.eqb_spec st j); [lia|].
        unfold sum in IH. rewrite IH by lia. reflexivity. }
      rewrite H0. ring.
    - rewrite IH by lia. ring. }
  apply H. lia.
Qed.

(** [np.sum(a != b)] on a non-empty shape, read position by position along
    the first axis. *)
Lemma count_ne_rows (n : nat) (s : list nat) (a b : list (nd s))
    (G : nat -> Z) :
  length a = n -> length b = n ->
  (forall i x y, nth_error a i = Some x -> nth_error b i = Some y ->
                 count_ne s x y = G i) ->
  count_ne (n :: s) a b = sum (map G (seq 0 n)).
Proof.
  intros Ha Hb HG. cbn [count_ne]. rewrite <- Ha.
  apply (sum_combine_seq (A := nd s)); [congruence | exact HG].
Qed.

(** The cyclic predecessor of position [i] is [mid] exactly when [i] is the
    cyclic successor of [mid]. *)
Lemma pred_is_mid (g mid i : nat) :
  (i < g)%nat -> (mid < g)%nat ->
  ((i + g - 1) mod g = mid <-> i = (mid + 1) mod g)%nat.
Proof.
  intros Hi Hm.
  assert (Hp : ((i + g - 1) mod g = if (i =? 0) then g - 1 else i - 1)%nat).
  { destruct (Nat.eqb_spec i 0) as [->|Hne].
    - apply Nat.mod_small. lia.
    - replace (i + g - 1)%nat with (i - 1 + 1 * g)%nat by lia.
      rewrite Nat.Div0.mod_add. apply Nat.mod_small. lia. }
  assert (Hs : ((mid + 1) mod g = if (mid + 1 =? g) then 0 else mid + 1)%nat).
  { destruct (Nat.eqb_spec (mid + 1) g) as [<-|Hne].
    - apply Nat.Div0.mod_same.
    - apply Nat.mod_small. lia. }
  rewrite Hp, Hs.
  destruct (Nat.eqb_spec i 0), (Nat.eqb_spec (mid + 1) g); lia.
Qed.

(** The rows of an embedding along the first axis. *)
Lemma nth_error_assign_first (g : nat) (s : list nat) (mid : nat) (P : nd s)
    (i : nat) :
  (mid < g)%nat -> (i < g)%nat ->
  nth_error (assign_first g s mid (zeros (g :: s)) P) i
  = Some (if (i =? mid)%nat then P else zeros s).
Proof.
  intros Hm Hi. unfold assign_first, zeros. cbn [full].
  rewrite nth_error_set_nth by now rewrite repeat_length.
  destruct (i =? mid)%nat; [reflexivity|]. now apply nth_error_repeat.
Qed.

(** Along the new, first axis every cell of the source that differs from 0
    is counted twice: against the zero slice before it and by the zero slice
    after it. *)
Lemma count_ne_first_new_axis (g : nat) (s : list nat) (mid : nat)
    (P : nd s) :
  (mid < g)%nat -> (2 <= g)%nat ->
  let E := assign_first g s mid (zeros (g :: s)) P in
  count_ne (g :: s) E (roll (g :: s) 0 E) = 2 * count_ne s P (zeros s).
Proof.
  intros Hm Hg E. rewrite roll_O.
  assert (HlE : length (A := nd s) E = g).
  { unfold E, assign_first, zeros. cbn [full].
    now rewrite length_set_nth, repeat_length. }
  transitivity (sum (map
    (fun i => (if (i =? mid)%nat then count_ne s P (zeros s) else 0)
              + (if (i =? (mid + 1) mod g)%nat
                 then count_ne s P (zeros s) else 0)) (seq 0 g)));
    [apply count_ne_rows|].
  4:{ rewrite sum_map_add, !sum_indicator; [ring | | assumption].
      apply Nat.mod_upper_bound. lia. }
  - exact HlE.
  - now rewrite length_rotr.
  - intros i x y Hx Hy.
    assert (Hi : (i < g)%nat).
    { rewrite <- HlE. apply nth_error_Some. congruence. }
    rewrite nth_error_rotr, HlE in Hy by lia.
    unfold E in Hx, Hy.
    rewrite nth_error_assign_first in Hx by assumption.
    rewrite nth_error_assign_first in Hy
      by (trivial; apply Nat.mod_upper_bound; lia).
    injection Hx as <-. injection Hy as <-.
    pose proof (pred_is_mid g mid i Hi Hm) as Hpm.
    assert (Hsm : ((mid + 1) mod g <> mid)%nat).
    { destruct (Nat.eq_dec (mid + 1) g) as [Hgm|Hgm].
      - rewrite Hgm, Nat.Div0.mod_same. lia.
      - rewrite Nat.mod_small by lia. lia. }
    destruct (Nat.eqb_spec i mid) as [H1|H1];
      destruct (Nat.eqb_spec ((i + g - 1) mod g) mid) as [H2|H2];
      destruct (Nat.eqb_spec i ((mid + 1) mod g)) as [H3|H3];
      try (exfalso; tauto); try (exfalso; congruence).
    + ring.
    + rewrite count_ne_sym. ring.
    + rewrite count_ne_refl. ring.
Qed.

(** Along an old axis only the slice that holds the source contributes. *)
Lemma count_ne_first_old_axis (g : nat) (s : list nat) (mid k : nat)
    (P : nd s) :
  (mid < g)%nat ->
  let E := assign_first g s mid (zeros (g :: s)) P in
  count_ne (g :: s) E (roll (g :: s) (S k) E) = count_ne s P (roll s k P).
Proof.
  intros Hm E. rewrite roll_S.
  assert (HlE : length (A := nd s) E = g).
  { unfold E, assign_first, zeros. cbn [full].
    now rewrite length_set_nth, repeat_length. }
  transitivity (sum (map
    (fun i => if (i =? mid)%nat then count_ne s P (roll s k P) else 0)
    (seq 0 g))); [apply count_ne_rows | now apply sum_indicator].
  - exact HlE.
  - now rewrite length_map.
  - intros i x y Hx Hy.
    assert (Hi : (i < g)%nat).
    { rewrite <- HlE. apply nth_error_Some. congruence. }
    rewrite nth_error_map, Hx in Hy. injection Hy as <-.
    unfold E in Hx. rewrite nth_error_assign_first in Hx by assumption.
    injection Hx as <-.
    destruct (i =? mid)%nat; [reflexivity|].
    apply (uniform_count_ne s 0); [|apply uniform_roll];
      unfold Spec.uniform, zeros; rewrite flatten_full;
      apply Forall_forall; intros c Hc; now apply repeat_spec in Hc.
Qed.

End EmbeddingCounts.

Section EmbeddingCountsLast.
Open Scope Z_scope.

Lemma nth_error_Some_lt {A : Type} (l : list A) (i : nat) (x : A) :
  nth_error l i = Some x -> (i < length l)%nat.
Proof. intros H. apply nth_error_Some. congruence. Qed.

(** An embedding along the last axis embeds row by row. *)
Lemma assign_last_rows (n : nat) (s : list nat) (m j : nat)
    (P : list (nd s)) :
  length P = n ->
  assign_last (n :: s) m j (zeros ((n :: s) ++ [m])) P
  = map (assign_last s m j (zeros (s ++ [m]))) P.
Proof.
  intros <-. unfold zeros.
  change ((length P :: s) ++ [m])%list with (length P :: (s ++ [m]))%list.
  cbn [assign_last full].
  induction P as [|x P IH]; [reflexivity|].
  cbn [length repeat combine map fst snd]. now rewrite IH.
Qed.

Lemma sum_combine_map {A B : Type} (F : B -> B -> Z) (f g : A -> B)
    (l : list A) :
  sum (map (fun p => F (fst p) (snd p)) (combine (map f l) (map g l)))
  = sum (map (fun x => F (f x) (g x)) l).
Proof.
  induction l as [|x l IH]; [reflexivity|].
  cbn [map combine sum fold_right fst snd]. unfold sum in IH. now rewrite IH.
Qed.

Lemma sum_combine_map_both {A B : Type} (F : B -> B -> Z) (f : A -> B)
    (a b : list A) :
  sum (map (fun p => F (fst p) (snd p)) (combine (map f a) (map f b)))
  = sum (map (fun p => F (f (fst p)) (f (snd p))) (combine a b)).
Proof. now rewrite combine_map_both, map_map. Qed.

(** Two arrays that agree except in one slice differ where the two slices
    differ. *)
Lemma count_ne_set_nth_both (g : nat) (s : list nat) (j : nat)
    (z x y : nd s) :
  (j < g)%nat ->
  count_ne (g :: s) (set_nth j x (repeat z g)) (set_nth j y (repeat z g))
  = count_ne s x y.
Proof.
  intros Hj.
  transitivity (sum (map
    (fun i => if (i =? j)%nat then count_ne s x y else 0) (seq 0 g)));
    [apply count_ne_rows | now apply sum_indicator].
  - now rewrite length_set_nth, repeat_length.
  - now rewrite length_set_nth, repeat_length.
  - intros i u v Hu Hv.
    assert (Hi : (i < g)%nat).
    { apply nth_error_Some_lt in Hu.
      now rewrite length_set_nth, repeat_length in Hu. }
    rewrite nth_error_set_nth in Hu, Hv by now rewrite repeat_length.
    destruct (i =? j)%nat.
    + injection Hu as <-. injection Hv as <-. reflexivity.
    + rewrite nth_error_repeat in Hu, Hv by assumption.
      injection Hu as <-. injection Hv as <-. apply count_ne_refl.
Qed.

(** Two embeddings differ where their sources differ. *)
Lemma count_ne_assign_last_both (s : list nat) (m j : nat) (x y : nd s) :
  wf s x -> wf s y -> (j < m)%nat ->
  count_ne (s ++ [m]) (assign_last s m j (zeros (s ++ [m])) x)
                      (assign_last s m j (zeros (s ++ [m])) y)
  = count_ne s x y.
Proof.
  revert x y. induction s as [|n s IH]; intros x y Hx Hy Hj.
  - exact (count_ne_set_nth_both m [] j 0 x y Hj).
  - destruct (proj1 (wf_cons n s x) Hx) as [Hlx Hfx].
    destruct (proj1 (wf_cons n s y) Hy) as [Hly Hfy].
    rewrite !assign_last_rows by assumption.
    change ((n :: s) ++ [m])%list with (n :: (s ++ [m]))%list.
    cbn [count_ne]. rewrite sum_combine_map_both. f_equal.
    apply map_ext_in. intros [u v] Hin. cbn [fst snd].
    rewrite Forall_forall in Hfx, Hfy.
    apply IH; trivial;
      [eapply Hfx, in_combine_l, Hin | eapply Hfy, in_combine_r, Hin].
Qed.

(** Along an old axis the embedding changes as often as its source. *)
Lemma count_ne_last_old_axis (s : list nat) (m j k : nat) (P : nd s) :
  wf s P -> (j < m)%nat -> (k < ndim s)%nat ->
  let E := assign_last s m j (zeros (s ++ [m])) P in
  count_ne (s ++ [m]) E (roll (s ++ [m]) k E) = count_ne s P (roll s k P).
Proof.
  revert k P. induction s as [|n s IH]; intros k P Hw Hj Hk E;
    [cbn in Hk; lia|].
  destruct (proj1 (wf_cons n s P) Hw) as [Hl Hf].
  unfold E. rewrite assign_last_rows by assumption.
  change ((n :: s) ++ [m])%list with (n :: (s ++ [m]))%list.
  destruct k as [|k]; rewrite ?roll_O, ?roll_S.
  - rewrite rotr_map. cbn [count_ne]. rewrite sum_combine_map_both.
    f_equal. apply map_ext_in. intros [u v] Hin. cbn [fst snd].
    pose proof (Forall_rotr (wf s) P Hf) as Hfr.
    rewrite Forall_forall in Hf, Hfr.
    apply count_ne_assign_last_both; trivial.
    + eapply Hf, in_combine_l, Hin.
    + eapply Hfr, in_combine_r, Hin.
  - rewrite map_map. cbn [count_ne].
    rewrite <- (map_id P) at 1. rewrite map_map.
    rewrite (sum_combine_map (count_ne (s ++ [m]))
               (assign_last s m j (zeros (s ++ [m])))
               (fun x => roll (s ++ [m]) k
                           (assign_last s m j (zeros (s ++ [m])) x))).
    rewrite <- (map_id P) at 2.
    rewrite (sum_combine_map (count_ne s) (fun x => x) (roll s k)).
    f_equal. apply map_ext_in. intros x Hin.
    rewrite Forall_forall in Hf. apply IH; auto.
    cbn [ndim length] in Hk. unfold ndim. lia.
Qed.

(** Along the new, last axis every cell of the source that differs from 0
    is counted twice. *)
Lemma count_ne_last_new_axis (s : list nat) (m j : nat) (P : nd s) :
  wf s P -> (j < m)%nat -> (2 <= m)%nat ->
  let E := assign_last s m j (zeros (s ++ [m])) P in
  count_ne (s ++ [m]) E (roll (s ++ [m]) (ndim s) E)
  = 2 * count_ne s P (zeros s).
Proof.
  revert P. induction s as [|n s IH]; intros P Hw Hj Hm E.
  - exact (count_ne_first_new_axis m [] j P Hj Hm).
  - destruct (proj1 (wf_cons n s P) Hw) as [Hl Hf].
    unfold E. rewrite assign_last_rows by assumption.
    change ((n :: s) ++ [m])%list with (n :: (s ++ [m]))%list.
    change (ndim (n :: s)) with (S (ndim s)). rewrite roll_S, map_map.
    cbn [count_ne].
    rewrite <- (map_id P) at 1. rewrite map_map.
    rewrite (sum_combine_map (count_ne (s ++ [m]))
               (assign_last s m j (zeros (s ++ [m])))
               (fun x => roll (s ++ [m]) (ndim s)
                           (assign_last s m j (zeros (s ++ [m])) x))).
    unfold zeros at 3. cbn [full]. fold (zeros s).
    rewrite <- Hl at 1.
    assert (Hz : forall l : list (nd s),
      sum (map (fun p => count_ne s (fst p) (snd p))
               (combine l (repeat (zeros s) (length l))))
      = sum (map (fun x => count_ne s x (zeros s)) l)).
    { induction l as [|x l IHl]; [reflexivity|].
      cbn [length repeat combine map sum fold_right fst snd].
      unfold sum in IHl. now rewrite IHl. }
    rewrite Hz, <- sum_map_scale. f_equal.
    apply map_ext_in. intros x Hin.
    rewrite Forall_forall in Hf. apply IH; auto.
Qed.

Lemma size_snoc (s : list nat) (m : nat) :
  size (s ++ [m]) = (size s * m)%nat.
Proof.
  induction s as [|n s IH]; cbn [app size fold_right]; [lia|].
  fold (size (s ++ [m])). fold (size s). rewrite IH. lia.
Qed.

(** The loop of [_calculate_integration] on an embedding along the last
    axis, in terms of the loop on its source. *)
Lemma integration_loop_assign_last (s : list nat) (m j : nat) (P : nd s) :
  wf s P -> (j < m)%nat -> (2 <= m)%nat ->
  integration_loop (s ++ [m]) (assign_last s m j (zeros (s ++ [m])) P)
  = (fst (integration_loop s P) + 2 * count_ne s P (zeros s),
     (Z.of_nat (ndim s) + 1) * (Z.of_nat (size s) * Z.of_nat m)).
Proof.
  intros Hw Hj Hm. rewrite !integration_loop_closed. cbn [fst].
  assert (Hd : ndim (s ++ [m]) = S (ndim s)).
  { unfold ndim. rewrite length_app. cbn [length]. lia. }
  rewrite Hd, seq_S, map_app, sum_app. cbn [map Nat.add].
  f_equal.
  - f_equal.
    + f_equal. apply map_ext_in. intros k Hk. apply in_seq in Hk.
      apply count_ne_last_old_axis; trivial. lia.
    + cbn [sum fold_right].
      rewrite (count_ne_last_new_axis s m j P Hw Hj Hm). ring.
  - rewrite size_snoc. lia.
Qed.

(** The same for an embedding along the first axis. *)
Lemma integration_loop_assign_first (g : nat) (s : list nat) (mid : nat)
    (P : nd s) :
  (mid < g)%nat -> (2 <= g)%nat ->
  integration_loop (g :: s) (assign_first g s mid (zeros (g :: s)) P)
  = (fst (integration_loop s P) + 2 * count_ne s P (zeros s),
     (Z.of_nat (ndim s) + 1) * (Z.of_nat (size s) * Z.of_nat g)).
Proof.
  intros Hm Hg. rewrite !integration_loop_closed. cbn [fst].
  change (ndim (g :: s)) with (S (ndim s)).
  cbn [seq map sum fold_right]. rewrite <- seq_shift, map_map.
  fold (sum (map (fun x => count_ne (g :: s)
    (assign_first g s mid (zeros (g :: s)) P)
    (roll (g :: s) (S x) (assign_first g s mid (zeros (g :: s)) P)))
    (seq 0 (ndim s)))).
  f_equal.
  - rewrite (count_ne_first_new_axis g s mid P Hm Hg).
    rewrite Z.add_comm. f_equal. f_equal. apply map_ext. intros k.
    now apply count_ne_first_old_axis.
  - cbn [size fold_right]. fold (size s). lia.
Qed.

End EmbeddingCountsLast.

(** The loop on a concrete embedding: 6 changes and 3 set cells in the
    source give 6 + 2 * 3 changes over 3 * (6 * 3) compared pairs. *)
Example integration_loop_embedding_sample :
  integration_loop [2; 3]%nat Samples.sample_2d = (6, 12)%Z /\
  integration_loop ([2; 3] ++ [3])%nat
    (assign_last [2; 3]%nat 3 1 (zeros ([2; 3] ++ [3])%nat) Samples.sample_2d)
  = (12, 54)%Z.
Proof. split; vm_compute; reflexivity. Qed.

(** ** The metric of an embedded pattern *)

Section EmbeddedPhi.

(** Phi of a pattern of [n] cells of which [a] are set, with [t] changes
    counted over [e] compared pairs. *)
Lemma calculate_phi_of_counts (s : list nat) (E : nd s) (a n t e : Z) :
  alive_cells s E = a -> n_cells s E = n -> integration_loop s E = (t, e) ->
  (0 < a < n)%Z -> (0 < e)%Z ->
  calculate_phi s E
  = ((IZR a / IZR n * (IZR t / IZR e)
      + Spec.binary_entropy (IZR a / IZR n))%R,
     (IZR a / IZR n)%R, (IZR t / IZR e)%R,
     Spec.binary_entropy (IZR a / IZR n)).
Proof.
  intros Ha Hn Hl Han He.
  assert (Hd : degenerate s E = false).
  { unfold degenerate. rewrite Ha, Hn. apply orb_false_iff.
    split; apply Z.eqb_neq; lia. }
  rewrite (calculate_phi_regular s E Hd). cbv zeta.
  unfold _calculate_integration. rewrite Ha, Hn, Hl.
  destruct (Z.gtb_spec e 0); [reflexivity | lia].
Qed.

Lemma binary_full (s : list nat) (v : Z) :
  v = 0%Z \/ v = 1%Z -> binary s (full s v).
Proof.
  intros Hv. unfold binary. rewrite flatten_full.
  apply Forall_forall. intros c Hc. apply repeat_spec in Hc. now subst.
Qed.

Lemma binary_cons (n : nat) (s : list nat) (a : list (nd s)) :
  binary (n :: s) a <-> Forall (binary s) a.
Proof. unfold binary. rewrite flatten_cons. apply Forall_flat_map. Qed.

Lemma binary_assign_first (g : nat) (s : list nat) (mid : nat) (P : nd s) :
  binary s P -> binary (g :: s) (assign_first g s mid (zeros (g :: s)) P).
Proof.
  intros HP. apply binary_cons. unfold assign_first, zeros. cbn [full].
  apply Forall_set_nth; [exact HP|].
  apply Forall_forall. intros x Hx. apply repeat_spec in Hx. subst.
  apply binary_full. now left.
Qed.

Lemma binary_assign_last (s : list nat) (m j : nat) (P : nd s) :
  wf s P -> binary s P ->
  binary (s ++ [m]) (assign_last s m j (zeros (s ++ [m])) P).
Proof.
  revert P. induction s as [|n s IH]; intros P Hw HP.
  - apply (binary_assign_first m [] j P HP).
  - destruct (proj1 (wf_cons n s P) Hw) as [Hl Hf].
    rewrite assign_last_rows by assumption.
    apply (binary_cons n (s ++ [m])). apply Forall_map.
    apply binary_cons in HP. rewrite Forall_forall in *.
    intros x Hx. apply IH; auto.
Qed.

Lemma n_cells_wf (s : list nat) (a : nd s) :
  wf s a -> n_cells s a = Z.of_nat (size s).
Proof. intros Hw. unfold n_cells. now rewrite length_flatten. Qed.

(** The counts of an embedding along the last axis of extent [m >= 2]. *)
Lemma embedded_counts_last (s : list nat) (m j : nat) (P : nd s) :
  wf s P -> binary s P -> (j < m)%nat -> (2 <= m)%nat ->
  let E := assign_last s m j (zeros (s ++ [m])) P in
  alive_cells (s ++ [m]) E = alive_cells s P /\
  n_cells (s ++ [m]) E = (n_cells s P * Z.of_nat m)%Z /\
  integration_loop (s ++ [m]) E
  = ((fst (integration_loop s P) + 2 * alive_cells s P)%Z,
     ((Z.of_nat (ndim s) + 1) * (n_cells s P * Z.of_nat m))%Z).
Proof.
  intros Hw Hb Hj Hm E. split; [|split].
  - now apply sum_assign_last_zeros.
  - rewrite !n_cells_wf; [|exact Hw|apply wf_assign_last; [apply wf_full|exact Hw]].
    rewrite size_snoc. lia.
  - unfold E. rewrite integration_loop_assign_last by assumption.
    rewrite (count_ne_zeros_binary s P Hw Hb), (n_cells_wf s P Hw).
    reflexivity.
Qed.

(** The counts of an embedding along the first axis of extent [g >= 2]. *)
Lemma embedded_counts_first (g : nat) (s : list nat) (mid : nat) (P : nd s) :
  wf s P -> binary s P -> (mid < g)%nat -> (2 <= g)%nat ->
  let E := assign_first g s mid (zeros (g :: s)) P in
  alive_cells (g :: s) E = alive_cells s P /\
  n_cells (g :: s) E = (n_cells s P * Z.of_nat g)%Z /\
  integration_loop (g :: s) E
  = ((fst (integration_loop s P) + 2 * alive_cells s P)%Z,
     ((Z.of_nat (ndim s) + 1) * (n_cells s P * Z.of_nat g))%Z).
Proof.
  intros Hw Hb Hmid Hg E. split; [|split].
  - now apply sum_assign_first_zeros.
  - rewrite !n_cells_wf;
      [|exact Hw|apply wf_assign_first; [apply wf_full|exact Hw]].
    change (size (g :: s)) with (g * size s)%nat.
    rewrite Nat2Z.inj_mul. ring.
  - unfold E. rewrite integration_loop_assign_first by assumption.
    rewrite (count_ne_zeros_binary s P Hw Hb), (n_cells_wf s P Hw).
    reflexivity.
Qed.

(** Phi of an embedding from its counts. *)
Lemma embedded_phi_of_counts (s s' : list nat) (P : nd s) (E : nd s')
    (m : nat) :
  binary s P -> (2 <= m)%nat -> (0 < alive_cells s P)%Z ->
  alive_cells s' E = alive_cells s P ->
  n_cells s' E = (n_cells s P * Z.of_nat m)%Z ->
  integration_loop s' E
  = ((fst (integration_loop s P) + 2 * alive_cells s P)%Z,
     ((Z.of_nat (ndim s) + 1) * (n_cells s P * Z.of_nat m))%Z) ->
  let R' := (IZR (alive_cells s P) / IZR (n_cells s P * Z.of_nat m))%R in
  let S' := (IZR (fst (integration_loop s P) + 2 * alive_cells s P)
             / IZR ((Z.of_nat (ndim s) + 1) * (n_cells s P * Z.of_nat m)))%R in
  calculate_phi s' E
  = ((R' * S' + Spec.binary_entropy R')%R, R', S', Spec.binary_entropy R').
Proof.
  intros Hb Hm Hpos Ha Hn Hl R' S'.
  pose proof (binary_alive_bounds s P Hb) as Hbd.
  assert (Hmz : (2 <= Z.of_nat m)%Z) by lia.
  assert (Hnm : (2 * n_cells s P <= n_cells s P * Z.of_nat m)%Z) by nia.
  assert (Hdz : (0 <= Z.of_nat (ndim s))%Z) by lia.
  apply calculate_phi_of_counts; trivial; [lia|].
  apply Z.mul_pos_pos; lia.
Qed.

End EmbeddedPhi.

(** ** The dilution law of a trial *)

Section Dilution.
Import Validator.
Open Scope R_scope.

Lemma record_of_components (pattern_id : Z) (name : String.string)
    (s_lo : list nat) (lo : nd s_lo) (s_hi : list nat) (hi : nd s_hi)
    (phi_lo R_lo S_lo D_lo phi_hi R_hi S_hi D_hi : float) :
  calculate_phi s_lo lo = (phi_lo, R_lo, S_lo, D_lo) ->
  calculate_phi s_hi hi = (phi_hi, R_hi, S_hi, D_hi) ->
  let r := record_of pattern_id name s_lo lo s_hi hi in
  phi_lower r = phi_lo /\ R_lower r = R_lo /\ S_lower r = S_lo /\
  D_lower r = D_lo /\
  phi_higher r = phi_hi /\ R_higher r = R_hi /\ S_higher r = S_hi /\
  D_higher r = D_hi /\
  ratio_phi r = ratio_or_zero phi_hi phi_lo /\
  ratio_R r = ratio_or_zero R_hi R_lo /\
  loss_pct r = (1 - ratio_or_zero phi_hi phi_lo) * 100.
Proof.
  intros Hlo Hhi. unfold record_of. rewrite Hlo, Hhi. cbn.
  repeat split.
Qed.

(** The components of a record whose lower-rank pattern [P] is not
    degenerate and whose higher-rank pattern [E] has the counts of an
    embedding of [P] along a new axis of extent [m]: each of R and S is a
    single quotient of counts. *)
Lemma record_of_dilution (pattern_id : Z) (name : String.string)
    (s s' : list nat) (P : nd s) (E : nd s') (m : nat) :
  wf s P -> binary s P -> (1 <= ndim s)%nat -> (1 <= m)%nat ->
  (m = 1%nat -> size s = 1%nat) ->
  ((2 <= m)%nat ->
   alive_cells s' E = alive_cells s P /\
   n_cells s' E = (n_cells s P * Z.of_nat m)%Z /\
   integration_loop s' E
   = ((fst (integration_loop s P) + 2 * alive_cells s P)%Z,
      ((Z.of_nat (ndim s) + 1) * (n_cells s P * Z.of_nat m))%Z)) ->
  let r := record_of pattern_id name s P s' E in
  let a := alive_cells s P in
  let n := n_cells s P in
  let t := fst (integration_loop s P) in
  let d := Z.of_nat (ndim s) in
  0 < phi_lower r ->
  (0 < a < n)%Z /\ (2 <= m)%nat /\
  R_lower r = IZR a / IZR n /\
  S_lower r = IZR t / IZR (d * n) /\
  R_higher r = IZR a / IZR (n * Z.of_nat m) /\
  S_higher r = IZR (t + 2 * a) / IZR ((d + 1) * (n * Z.of_nat m)) /\
  D_higher r = Spec.binary_entropy (R_higher r) /\
  phi_higher r = R_higher r * S_higher r + D_higher r /\
  0 < phi_higher r /\
  loss_pct r < 100.
Proof.
  intros Hw Hb Hd Hm1 Hm Hcounts r a n t d Hpos.
  (* the lower pattern is regular *)
  assert (Hdeg : degenerate s P = false).
  { apply (phi_positive_iff s P Hw Hb).
    destruct (record_of_fields pattern_id name s P s' E) as (H1 & _).
    fold r in H1. now rewrite <- H1. }
  pose proof (regular_alive_strict s P Hb Hdeg) as Han.
  pose proof (n_cells_wf s P Hw) as Hn.
  fold a n in Han.
  assert (Hm2 : (2 <= m)%nat).
  { destruct (Nat.eq_dec m 1) as [Heq|Hne]; [|lia].
    specialize (Hm Heq). unfold n in Han. rewrite Hn, Hm in Han. lia. }
  destruct (Hcounts Hm2) as (Ha' & Hn' & Hl').
  assert (Hdz : (1 <= d)%Z) by (unfold d; lia).
  assert (Hloop : integration_loop s P = (t, (d * n)%Z)).
  { unfold t, d, n. rewrite Hn, integration_loop_closed. reflexivity. }
  pose proof (calculate_phi_of_counts s P a n t (d * n)%Z eq_refl eq_refl
                Hloop Han ltac:(apply Z.mul_pos_pos; lia)) as Hlo.
  pose proof (embedded_phi_of_counts s s' P E m Hb Hm2 ltac:(unfold a in Han; lia)
                Ha' Hn' Hl') as Hhi.
  cbv zeta in Hhi. fold a n t d in Hhi.
  destruct (record_of_components pattern_id name s P s' E _ _ _ _ _ _ _ _
              Hlo Hhi)
    as (H1 & H2 & H3 & H4 & H5 & H6 & H7 & H8 & H9 & H10 & H11).
  fold r in H1, H2, H3, H4, H5, H6, H7, H8, H9, H10, H11.
  rewrite H1 in Hpos.
  split; [exact Han|]. split; [exact Hm2|].
  split; [exact H2|]. split; [exact H3|].
  split; [exact H6|]. split; [exact H7|].
  split; [now rewrite H8, H6|]. split; [now rewrite H5, H6, H7, H8|].
  (* positivity *)
  assert (Hmz : (2 <= Z.of_nat m)%Z) by lia.
  assert (Ht : (0 <= t)%Z).
  { unfold t. rewrite integration_loop_closed. cbn [fst].
    apply (sum_map_bounds (fun axis => count_ne s P (roll s axis P))
             (Z.of_nat (length (flatten s P)))).
    intros k. apply count_ne_bounds. }
  assert (Hnm : (0 < n * Z.of_nat m)%Z) by (apply Z.mul_pos_pos; lia).
  assert (Hanm : (0 < a < n * Z.of_nat m)%Z) by nia.
  set (R' := IZR a / IZR (n * Z.of_nat m)) in *.
  assert (HR' : 0 < R' < 1) by (apply ratio_strict; exact Hanm).
  pose proof (binary_entropy_pos R' HR') as HD'.
  set (S' := IZR (t + 2 * a) / IZR ((d + 1) * (n * Z.of_nat m))) in *.
  assert (HS' : 0 <= S').
  { unfold S'. apply Rle_mult_inv_pos.
    - apply IZR_le. lia.
    - apply IZR_lt. apply Z.mul_pos_pos; lia. }
  assert (Hphi' : 0 < R' * S' + Spec.binary_entropy R') by nra.
  split; [rewrite H5; exact Hphi'|].
  rewrite H11. unfold ratio_or_zero.
  destruct (Rlt_dec 0 _) as [Hlt|Hnlt]; [|lra].
  assert (0 < (R' * S' + Spec.binary_entropy R')
              / (IZR a / IZR n * (IZR t / IZR (d * n))
                 + Spec.binary_entropy (IZR a / IZR n)))
    by (apply Rdiv_lt_0_compat; assumption).
  lra.
Qed.

End Dilution.

(** ** The trials of the validator, by rank *)

Section TrialLaws.
Import Validator.

Variable randint : Z -> forall s : list nat, nd s.
Variable self : validator.
Hypothesis Hgen :
  forall seed s, wf s (randint seed s) /\ binary s (randint seed s).
Hypothesis Hg : (1 <= grid_size self)%Z.

(** What any of the three [test_*] methods returns, for the rank [d] of its
    lower pattern. *)
Lemma trial_shape (test : Z -> Z -> M TransitionRecord) (d : nat)
    (pattern_id seed : Z) (h : heap) :
  valid_seed seed = true ->
  In (test, d) [(test_1d_to_2d randint self, 1%nat);
                (test_2d_to_3d randint self, 2%nat);
                (test_3d_to_4d randint self, 3%nat)] ->
  let g := Z.to_nat (grid_size self) in
  exists (name : String.string) (s s' : list nat) (E : nd s'),
    let P := randint seed s in
    test pattern_id seed h
    = Ok (record_of pattern_id name s P s' E,
          (h ++ [mk_obj s P]) ++ [mk_obj s' E]) /\
    ndim s = d /\ (g = 1%nat -> size s = 1%nat) /\
    ((2 <= g)%nat ->
     alive_cells s' E = alive_cells s P /\
     n_cells s' E = (n_cells s P * Z.of_nat g)%Z /\
     integration_loop s' E
     = ((fst (integration_loop s P) + 2 * alive_cells s P)%Z,
        ((Z.of_nat (ndim s) + 1) * (n_cells s P * Z.of_nat g))%Z)).
Proof.
  intros Hseed Hin g.
  pose proof (proj2 (norm_index_mid _ Hg)) as Hmid.
  destruct Hin as [Heq|[Heq|[Heq|[]]]]; injection Heq as <- <-.
  - exists "1D→2D"%string, [g], [g; g],
      (assign_first g [g] (Z.to_nat (grid_size self / 2)) (zeros [g; g])
         (randint seed [g])).
    cbv zeta. split; [now apply (test_1d_to_2d_run randint self Hg)|].
    split; [reflexivity|]. split; [intros ->; reflexivity|]. intros Hg2.
    apply embedded_counts_first; trivial; apply Hgen.
  - exists "2D→3D"%string, [g; g], ([g; g] ++ [g])%list,
      (assign_last [g; g] g (Z.to_nat (grid_size self / 2))
         (zeros ([g; g] ++ [g])) (randint seed [g; g])).
    cbv zeta. split; [now apply (test_2d_to_3d_run randint self Hg)|].
    split; [reflexivity|]. split; [intros ->; reflexivity|]. intros Hg2.
    apply embedded_counts_last; trivial; apply Hgen.
  - exists "3D→4D"%string, [g; g; g], ([g; g; g] ++ [g])%list,
      (assign_last [g; g; g] g (Z.to_nat (grid_size self / 2))
         (zeros ([g; g; g] ++ [g])) (randint seed [g; g; g])).
    cbv zeta. split; [now apply (test_3d_to_4d_run randint self Hg)|].
    split; [reflexivity|]. split; [intros ->; reflexivity|]. intros Hg2.
    apply embedded_counts_last; trivial; apply Hgen.
Qed.

End TrialLaws.

Section TrialTheorems.
Import Validator.

(** X3. The dilution law of a trial.  In each of [test_1d_to_2d],
    [test_2d_to_3d] and [test_3d_to_4d], at grid size g >= 1, lower rank d
    and a seed numpy accepts, the trial returns a record, and whenever the
    lower-rank Phi is positive the components of the record are single
    quotients of counts of the generated pattern -- a set cells out of n,
    t cyclic changes -- in which embedding keeps a, adds 2a changes and
    multiplies the cells by g: R_lower = a / n, S_lower = t / (d * n),
    R_higher = a / (n * g), S_higher = (t + 2a) / ((d + 1) * n * g);
    D_higher is the binary entropy of R_higher,
    Phi_higher = R_higher * S_higher + D_higher is positive, and loss_pct
    is below 100. *)
Theorem trial_dilution_law (randint : Z -> forall s : list nat, nd s)
    (self : validator) (test : Z -> Z -> M TransitionRecord) (d : nat)
    (pattern_id seed : Z) (h : heap) :
  (forall seed s, wf s (randint seed s) /\ binary s (randint seed s)) ->
  (1 <= grid_size self)%Z -> (0 <= seed < 2 ^ 32)%Z ->
  In (test, d) [(test_1d_to_2d randint self, 1%nat);
                (test_2d_to_3d randint self, 2%nat);
                (test_3d_to_4d randint self, 3%nat)] ->
  exists (r : TransitionRecord) (h' : heap) (s : list nat) (P : nd s),
    test pattern_id seed h = Ok (r, h') /\
    nth_error h' (length h) = Some (mk_obj s P) /\
    ((0 < phi_lower r)%R ->
     let a := alive_cells s P in
     let n := n_cells s P in
     let t := fst (integration_loop s P) in
     let g := grid_size self in
     (0 < a < n)%Z /\ (2 <= g)%Z /\
     (R_lower r = IZR a / IZR n /\
      S_lower r = IZR t / IZR (Z.of_nat d * n) /\
      R_higher r = IZR a / IZR (n * g) /\
      S_higher r = IZR (t + 2 * a) / IZR ((Z.of_nat d + 1) * (n * g)) /\
      D_higher r = Spec.binary_entropy (R_higher r) /\
      phi_higher r = R_higher r * S_higher r + D_higher r /\
      0 < phi_higher r /\
      loss_pct r < 100)%R).
Proof.
  intros Hgen Hg Hseed Hin. apply valid_seed_range in Hseed.
  destruct (trial_shape randint self Hgen Hg test d pattern_id seed h Hseed
              Hin)
    as (name & s & s' & E & Hrun & Hd & H1 & Hcounts).
  cbv zeta in Hrun, Hcounts.
  exists (record_of pattern_id name s (randint seed s) s' E),
         ((h ++ [mk_obj s (randint seed s)]) ++ [mk_obj s' E]),
         s, (randint seed s).
  split; [exact Hrun|]. split; [apply nth_error_old, nth_error_new|].
  intros Hpos a n t g.
  destruct (Hgen seed s) as [Hw Hb].
  assert (Hds : (1 <= ndim s)%nat).
  { destruct Hin as [Heq|[Heq|[Heq|[]]]]; injection Heq as _ <-;
      rewrite Hd; lia. }
  destruct (record_of_dilution pattern_id name s s' (randint seed s) E
              (Z.to_nat (grid_size self)) Hw Hb Hds ltac:(lia) H1 Hcounts
              Hpos)
    as (Han & Hm2 & HRl & HSl & HRh & HSh & HD & Hphi & Hpos' & Hloss).
  rewrite Z2Nat.id in HRh, HSh by lia. rewrite Hd in HSl, HSh.
  split; [exact Han|]. split; [lia|].
  repeat split; assumption.
Qed.

Lemma trial_dilution_law_witness :
  let self := {| n_patterns := 1; grid_size := 4 |} in
  let test := test_2d_to_3d Samples.sample_randint self in
  ((forall seed s, wf s (Samples.sample_randint seed s) /\
                   binary s (Samples.sample_randint seed s)) /\
   (1 <= grid_size self)%Z /\ (0 <= 1000 < 2 ^ 32)%Z /\
   In (test, 2%nat) [(test_1d_to_2d Samples.sample_randint self, 1%nat);
                     (test_2d_to_3d Samples.sample_randint self, 2%nat);
                     (test_3d_to_4d Samples.sample_randint self, 3%nat)]) /\
  exists (r : TransitionRecord) (h' : heap) (s : list nat) (P : nd s),
    test 0%Z 1000%Z [] = Ok (r, h') /\
    nth_error h' (length (A := obj) []) = Some (mk_obj s P) /\
    ((0 < phi_lower r)%R ->
     let a := alive_cells s P in
     let n := n_cells s P in
     let t := fst (integration_loop s P) in
     let g := grid_size self in
     (0 < a < n)%Z /\ (2 <= g)%Z /\
     (R_lower r = IZR a / IZR n /\
      S_lower r = IZR t / IZR (Z.of_nat 2 * n) /\
      R_higher r = IZR a / IZR (n * g) /\
      S_higher r = IZR (t + 2 * a) / IZR ((Z.of_nat 2 + 1) * (n * g)) /\
      D_higher r = Spec.binary_entropy (R_higher r) /\
      phi_higher r = R_higher r * S_higher r + D_higher r /\
      0 < phi_higher r /\
      loss_pct r < 100)%R).
Proof.
  intros self test.
  assert (Hg : (1 <= grid_size self)%Z) by (cbn; lia).
  assert (Hin : In (test, 2%nat)
    [(test_1d_to_2d Samples.sample_randint self, 1%nat);
     (test_2d_to_3d Samples.sample_randint self, 2%nat);
     (test_3d_to_4d Samples.sample_randint self, 3%nat)])
    by (right; left; reflexivity).
  assert (Hseed : (0 <= 1000 < 2 ^ 32)%Z) by lia.
  split; [exact (conj sample_randint_ok (conj Hg (conj Hseed Hin)))|].
  exact (trial_dilution_law Samples.sample_randint self test 2%nat 0%Z 1000%Z
           [] sample_randint_ok Hg Hseed Hin).
Defined.

End TrialTheorems.

(** The stand-in generator gives a non-degenerate 4x4 pattern for seed 1000,
    so the law above speaks of an actual trial. *)
Example sample_trial_regular :
  degenerate [4; 4]%nat (Samples.sample_randint 1000 [4; 4]%nat) = false.
Proof. vm_compute. reflexivity. Qed.

Section TotalLoss.
Import Validator.

(** X4. A trial reports a loss of exactly 100 percent if and only if the
    generated lower-rank pattern is uniform (all 0 or all 1); for every
    other pattern the loss is strictly below 100.  This holds in each of
    [test_1d_to_2d], [test_2d_to_3d] and [test_3d_to_4d]. *)
Theorem total_loss_iff_uniform (randint : Z -> forall s : list nat, nd s)
    (self : validator) (test : Z -> Z -> M TransitionRecord) (d : nat)
    (pattern_id seed : Z) (h : heap) :
  (forall seed s, wf s (randint seed s) /\ binary s (randint seed s)) ->
  (1 <= grid_size self)%Z -> (0 <= seed < 2 ^ 32)%Z ->
  In (test, d) [(test_1d_to_2d randint self, 1%nat);
                (test_2d_to_3d randint self, 2%nat);
                (test_3d_to_4d randint self, 3%nat)] ->
  exists (r : TransitionRecord) (h' : heap) (s : list nat) (P : nd s),
    test pattern_id seed h = Ok (r, h') /\
    nth_error h' (length h) = Some (mk_obj s P) /\
    (loss_pct r <= 100)%R /\
    (loss_pct r = 100%R <->
     Spec.uniform s P 0 \/ Spec.uniform s P 1).
Proof.
  intros Hgen Hg Hseed Hin. apply valid_seed_range in Hseed.
  destruct (trial_shape randint self Hgen Hg test d pattern_id seed h Hseed
              Hin)
    as (name & s & s' & E & Hrun & Hd & H1 & Hcounts).
  cbv zeta in Hrun, Hcounts.
  destruct (Hgen seed s) as [Hw Hb].
  exists (record_of pattern_id name s (randint seed s) s' E),
         ((h ++ [mk_obj s (randint seed s)]) ++ [mk_obj s' E]),
         s, (randint seed s).
  split; [exact Hrun|]. split; [apply nth_error_old, nth_error_new|].
  pose proof (degenerate_uniform s (randint seed s) Hb) as Hu.
  pose proof (phi_positive_iff s (randint seed s) Hw Hb) as Hpos.
  destruct (record_of_fields pattern_id name s (randint seed s) s' E)
    as (Hphi & _).
  destruct (record_of_policy pattern_id name s (randint seed s) s' E)
    as (Hzero & _).
  rewrite <- Hphi in Hpos.
  destruct (degenerate s (randint seed s)) eqn:Hdeg.
  - assert (H0 : phi_lower (record_of pattern_id name s (randint seed s) s' E)
                 = 0%R).
    { rewrite Hphi. unfold calculate_phi. now rewrite Hdeg. }
    destruct (Hzero H0) as [_ Hl]. rewrite Hl. split; [lra|].
    split; [intros _; now apply Hu | reflexivity].
  - assert (Hlt : (loss_pct (record_of pattern_id name s (randint seed s) s' E)
                   < 100)%R).
    { apply (record_of_dilution pattern_id name s s' (randint seed s) E
               (Z.to_nat (grid_size self))); trivial; try lia.
      - destruct Hin as [Heq|[Heq|[Heq|[]]]]; injection Heq as _ <-;
          rewrite Hd; lia.
      - now apply Hpos. }
    split; [lra|]. split; [lra|].
    intros Hun. apply Hu in Hun. discriminate.
Qed.

Lemma total_loss_iff_uniform_witness :
  let self := {| n_patterns := 1; grid_size := 4 |} in
  let test := test_1d_to_2d Samples.sample_randint self in
  ((forall seed s, wf s (Samples.sample_randint seed s) /\
                   binary s (Samples.sample_randint seed s)) /\
   (1 <= grid_size self)%Z /\ (0 <= 100 < 2 ^ 32)%Z /\
   In (test, 1%nat) [(test_1d_to_2d Samples.sample_randint self, 1%nat);
                     (test_2d_to_3d Samples.sample_randint self, 2%nat);
                     (test_3d_to_4d Samples.sample_randint self, 3%nat)]) /\
  exists (r : TransitionRecord) (h' : heap) (s : list nat) (P : nd s),
    test 0%Z 100%Z [] = Ok (r, h') /\
    nth_error h' (length (A := obj) []) = Some (mk_obj s P) /\
    (loss_pct r <= 100)%R /\
    (loss_pct r = 100%R <->
     Spec.uniform s P 0 \/ Spec.uniform s P 1).
Proof.
  intros self test.
  assert (Hg : (1 <= grid_size self)%Z) by (cbn; lia).
  assert (Hin : In (test, 1%nat)
    [(test_1d_to_2d Samples.sample_randint self, 1%nat);
     (test_2d_to_3d Samples.sample_randint self, 2%nat);
     (test_3d_to_4d Samples.sample_randint self, 3%nat)])
    by (left; reflexivity).
  assert (Hseed : (0 <= 100 < 2 ^ 32)%Z) by lia.
  split; [exact (conj sample_randint_ok (conj Hg (conj Hseed Hin)))|].
  exact (total_loss_iff_uniform Samples.sample_randint self test 1%nat
           0%Z 100%Z [] sample_randint_ok Hg Hseed Hin).
Defined.

End TotalLoss.

(** ** The three loops of [run_all_tests] *)

Section Loops.
Import Validator.





End Loops.

Section RunAllTests.
Import Validator.




End RunAllTests.

(** ** The embedding helper of the HighLife test *)

Section HighLifeEmbedding.
Import HighLifeTest.

Lemma embed_2d_to_3d_run (h : heap) (grid_2d : loc) (x y : nat)
    (P : nd [x; y]) (z_size : Z) :
  nth_error h grid_2d = Some (mk_obj [x; y] P) -> (1 <= z_size)%Z ->
  embed_2d_to_3d grid_2d z_size h
  = Ok (length h,
        h ++ [mk_obj ([x; y] ++ [Z.to_nat z_size])
                (assign_last [x; y] (Z.to_nat z_size) (Z.to_nat (z_size / 2))
                   (zeros ([x; y] ++ [Z.to_nat z_size])) P)]).
Proof.
  intros Hs Hz. unfold embed_2d_to_3d.
  rewrite (bind_ok _ _ _ _ _ (load_run _ _ _ Hs)).
  cbn [shape mk_obj projT1]. cbv zeta.
  apply zeros_setitem_last_run; trivial.
  - apply forallb_forall. intros d [<-|[<-|[<-|[]]]]; apply Z.leb_le; lia.
  - cbn [map app]. now rewrite !Nat2Z.id.
  - apply norm_index_mid, Hz.
Qed.

Lemma embed_2d_to_3d_invalid (h : heap) (grid_2d : loc) (z_size : Z) :
  (z_size < 1)%Z -> exists e, embed_2d_to_3d grid_2d z_size h = Raise e.
Proof.
  intros Hz. unfold embed_2d_to_3d.
  destruct (nth_error h grid_2d) as [o|] eqn:Ho.
  - rewrite (bind_ok _ _ _ _ _ (load_run _ _ _ Ho)).
    destruct (shape o) as [|x [|y [|w rest]]];
      try (now exists ValueError). cbv zeta.
    destruct (Z.eq_dec z_size 0) as [->|Hn].
    + exists IndexError.
      apply (zeros_setitem_last_error _ _ o [x; y]
               [Z.of_nat x; Z.of_nat y; 0%Z] 0%nat);
        [|cbn [map app]; now rewrite !Nat2Z.id | exact Ho
         | apply norm_index_empty].
      apply forallb_forall.
      intros d [<-|[<-|[<-|[]]]]; apply Z.leb_le; lia.
    + exists ValueError. apply bind_raise, np_zeros_negative.
      cbn [forallb]. rewrite andb_true_r.
      apply andb_false_iff. right. apply andb_false_iff. right.
      apply Z.leb_gt. lia.
  - exists TypeError. apply bind_raise. unfold load. now rewrite Ho.
Qed.

(** X6. [embed_2d_to_3d] with a target extent z >= 1 allocates one new
    rank-3 array whose slice at index floor(z/2) along the last axis is the
    source pattern and whose every other cell is 0, leaves the source and
    every other existing array unchanged, and keeps [np.sum]. *)
Theorem embed_2d_to_3d_at_midpoint (h : heap) (grid_2d : loc) (x y : nat)
    (P : nd [x; y]) (z_size : Z) :
  nth_error h grid_2d = Some (mk_obj [x; y] P) -> wf [x; y] P ->
  (1 <= z_size)%Z ->
  Spec.embeds_last h [x; y] (Z.to_nat z_size) (Z.to_nat (z_size / 2)) P
    (embed_2d_to_3d grid_2d z_size h) /\
  exists (grid_3d : loc) (h' : heap),
    embed_2d_to_3d grid_2d z_size h = Ok (grid_3d, h') /\
    Validator.np_sum grid_3d h' = Ok (sum (flatten [x; y] P), h') /\
    Validator.np_sum grid_2d h' = Ok (sum (flatten [x; y] P), h').
Proof.
  intros Hs HP Hz. pose proof (proj2 (norm_index_mid _ Hz)) as Hmid.
  rewrite (embed_2d_to_3d_run h grid_2d x y P z_size Hs Hz). split.
  - now apply fresh_last.
  - do 2 eexists. split; [reflexivity|]. split.
    + erewrite np_sum_run by apply nth_error_new.
      now rewrite sum_assign_last_zeros.
    + apply np_sum_run. now apply nth_error_old.
Qed.

Lemma embed_2d_to_3d_at_midpoint_witness :
  let h := [mk_obj [2; 3]%nat Samples.sample_2d] in
  (nth_error h 0 = Some (mk_obj [2; 3]%nat Samples.sample_2d) /\
   wf [2; 3]%nat Samples.sample_2d /\ (1 <= 5)%Z) /\
  Spec.embeds_last h [2; 3]%nat (Z.to_nat 5) (Z.to_nat (5 / 2))
    Samples.sample_2d (embed_2d_to_3d 0%nat 5 h) /\
  exists (grid_3d : loc) (h' : heap),
    embed_2d_to_3d 0%nat 5 h = Ok (grid_3d, h') /\
    Validator.np_sum grid_3d h'
    = Ok (sum (flatten [2; 3]%nat Samples.sample_2d), h') /\
    Validator.np_sum 0%nat h'
    = Ok (sum (flatten [2; 3]%nat Samples.sample_2d), h').
Proof.
  intros h.
  assert (Hs : nth_error h 0 = Some (mk_obj [2; 3]%nat Samples.sample_2d))
    by reflexivity.
  assert (HP : wf [2; 3]%nat Samples.sample_2d)
    by (cbn; repeat (split || constructor)).
  assert (Hz : (1 <= 5)%Z) by lia.
  split; [exact (conj Hs (conj HP Hz))|].
  exact (embed_2d_to_3d_at_midpoint h 0%nat 2%nat 3%nat Samples.sample_2d 5%Z
           Hs HP Hz).
Defined.

(** X7. [embed_2d_to_3d] raises, and returns no array, when the target
    extent is less than 1 (whatever the argument), and raises [ValueError]
    when its argument is an array that does not have exactly two axes. *)
Theorem embed_2d_to_3d_rejects (h : heap) (grid_2d : loc) (z_size : Z) :
  ((z_size < 1)%Z -> exists e, embed_2d_to_3d grid_2d z_size h = Raise e) /\
  (forall o : obj, nth_error h grid_2d = Some o ->
     ndim (shape o) <> 2%nat ->
     embed_2d_to_3d grid_2d z_size h = Raise ValueError).
Proof.
  split.
  - apply embed_2d_to_3d_invalid.
  - intros o Ho Hrank. unfold embed_2d_to_3d.
    rewrite (bind_ok _ _ _ _ _ (load_run _ _ _ Ho)).
    unfold ndim in Hrank.
    destruct (shape o) as [|x [|y [|w rest]]]; try reflexivity.
    now contradiction Hrank.
Qed.

Lemma embed_2d_to_3d_rejects_witness :
  let h := [mk_obj [4%nat] Samples.sample_1d] in
  ((0 < 1)%Z /\ nth_error h 0 = Some (mk_obj [4%nat] Samples.sample_1d) /\
   ndim (shape (mk_obj [4%nat] Samples.sample_1d)) <> 2%nat) /\
  (exists e, embed_2d_to_3d 0%nat 0 h = Raise e) /\
  embed_2d_to_3d 0%nat 0 h = Raise ValueError.
Proof.
  intros h.
  assert (Hz : (0 < 1)%Z) by lia.
  assert (Ho : nth_error h 0 = Some (mk_obj [4%nat] Samples.sample_1d))
    by reflexivity.
  assert (Hr : ndim (shape (mk_obj [4%nat] Samples.sample_1d)) <> 2%nat)
    by (cbn; lia).
  split; [exact (conj Hz (conj Ho Hr))|]. split.
  - exact (proj1 (embed_2d_to_3d_rejects h 0%nat 0%Z) Hz).
  - exact (proj2 (embed_2d_to_3d_rejects h 0%nat 0%Z) _ Ho Hr).
Defined.

End HighLifeEmbedding.

(** ** Measuring an embedded pattern *)

Section MeasureEmbedded.

(** X8. Measuring after embedding.  For a rectangular 0/1 array with at
    least one set cell, [a] set cells out of [n] and [t] cyclic changes,
    [measure_phi] of the array returned by [embed_1d_to_2d] (rank d = 1) or
    [embed_2d_to_3d] (rank d = 2) at a target extent m >= 2 is
    (R' * S' + D', R', S', D') with R' = a / (n * m),
    S' = (t + 2 * a) / ((d + 1) * n * m) and D' the binary entropy of R'. *)
Theorem measure_after_embedding :
  (forall (h : heap) (grid_1d : loc) (x : nat) (P : nd [x]) (y_size : Z),
     nth_error h grid_1d = Some (mk_obj [x] P) ->
     wf [x] P -> binary [x] P -> (2 <= y_size)%Z ->
     (0 < alive_cells [x] P)%Z ->
     exists (grid_2d : loc) (h' : heap),
       Tests.embed_1d_to_2d grid_1d y_size h = Ok (grid_2d, h') /\
       let a := alive_cells [x] P in
       let n := n_cells [x] P in
       let t := fst (integration_loop [x] P) in
       let R' := (IZR a / IZR (n * y_size))%R in
       let S' := (IZR (t + 2 * a) / IZR ((1 + 1) * (n * y_size)))%R in
       GridSizeTest.measure_phi grid_2d h'
       = Ok (((R' * S' + Spec.binary_entropy R')%R, R', S',
              Spec.binary_entropy R'), h')) /\
  (forall (h : heap) (grid_2d : loc) (x y : nat) (P : nd [x; y])
          (z_size : Z),
     nth_error h grid_2d = Some (mk_obj [x; y] P) ->
     wf [x; y] P -> binary [x; y] P -> (2 <= z_size)%Z ->
     (0 < alive_cells [x; y] P)%Z ->
     exists (grid_3d : loc) (h' : heap),
       HighLifeTest.embed_2d_to_3d grid_2d z_size h = Ok (grid_3d, h') /\
       let a := alive_cells [x; y] P in
       let n := n_cells [x; y] P in
       let t := fst (integration_loop [x; y] P) in
       let R' := (IZR a / IZR (n * z_size))%R in
       let S' := (IZR (t + 2 * a) / IZR ((2 + 1) * (n * z_size)))%R in
       HighLifeTest.measure_phi grid_3d h'
       = Ok (((R' * S' + Spec.binary_entropy R')%R, R', S',
              Spec.binary_entropy R'), h')).
Proof.
  split.
  - intros h grid_1d x P y_size Hs Hw Hb Hy Hpos.
    rewrite (embed_1d_to_2d_run h grid_1d x P y_size Hs ltac:(lia)).
    do 2 eexists. split; [reflexivity|]. cbv zeta.
    unfold GridSizeTest.measure_phi.
    erewrite calculate_phi_at_run by apply nth_error_new.
    destruct (norm_index_mid y_size ltac:(lia)) as [_ Hmid].
    destruct (embedded_counts_last [x] (Z.to_nat y_size)
                (Z.to_nat (y_size / 2)) P Hw Hb Hmid ltac:(lia))
      as (Ha & Hn & Hl).
    rewrite (embedded_phi_of_counts [x] _ P _ (Z.to_nat y_size) Hb
               ltac:(lia) Hpos Ha Hn Hl).
    cbv zeta. rewrite Z2Nat.id by lia. reflexivity.
  - intros h grid_2d x y P z_size Hs Hw Hb Hz Hpos.
    rewrite (embed_2d_to_3d_run h grid_2d x y P z_size Hs ltac:(lia)).
    do 2 eexists. split; [reflexivity|]. cbv zeta.
    unfold HighLifeTest.measure_phi.
    erewrite calculate_phi_at_run by apply nth_error_new.
    destruct (norm_index_mid z_size ltac:(lia)) as [_ Hmid].
    destruct (embedded_counts_last [x; y] (Z.to_nat z_size)
                (Z.to_nat (z_size / 2)) P Hw Hb Hmid ltac:(lia))
      as (Ha & Hn & Hl).
    rewrite (embedded_phi_of_counts [x; y] _ P _ (Z.to_nat z_size) Hb
               ltac:(lia) Hpos Ha Hn Hl).
    cbv zeta. rewrite Z2Nat.id by lia. reflexivity.
Qed.

Lemma measure_after_embedding_witness :
  let h := [mk_obj [4%nat] Samples.sample_1d] in
  (nth_error h 0 = Some (mk_obj [4%nat] Samples.sample_1d) /\
   wf [4%nat] Samples.sample_1d /\ binary [4%nat] Samples.sample_1d /\
   (2 <= 3)%Z /\ (0 < alive_cells [4%nat] Samples.sample_1d)%Z) /\
  exists (grid_2d : loc) (h' : heap),
    Tests.embed_1d_to_2d 0%nat 3 h = Ok (grid_2d, h') /\
    let a := alive_cells [4%nat] Samples.sample_1d in
    let n := n_cells [4%nat] Samples.sample_1d in
    let t := fst (integration_loop [4%nat] Samples.sample_1d) in
    let R' := (IZR a / IZR (n * 3))%R in
    let S' := (IZR (t + 2 * a) / IZR ((1 + 1) * (n * 3)))%R in
    GridSizeTest.measure_phi grid_2d h'
    = Ok (((R' * S' + Spec.binary_entropy R')%R, R', S',
           Spec.binary_entropy R'), h').
Proof.
  intros h.
  assert (Hs : nth_error h 0 = Some (mk_obj [4%nat] Samples.sample_1d))
    by reflexivity.
  assert (Hw : wf [4%nat] Samples.sample_1d)
    by (cbn; repeat (split || constructor)).
  assert (Hb : binary [4%nat] Samples.sample_1d)
    by (unfold binary; cbn; repeat constructor; auto).
  assert (Hy : (2 <= 3)%Z) by lia.
  assert (Hpos : (0 < alive_cells [4%nat] Samples.sample_1d)%Z)
    by (vm_compute; reflexivity).
  split; [exact (conj Hs (conj Hw (conj Hb (conj Hy Hpos))))|].
  exact (proj1 measure_after_embedding h 0%nat 4%nat Samples.sample_1d 3%Z
           Hs Hw Hb Hy Hpos).
Defined.

End MeasureEmbedded.

(** ** The trials of the test scripts *)

Section ScriptTrials.
Open Scope R_scope.

(** The loss computed from a pattern and an array with the counts of its
    embedding. *)
Lemma loss_of_embedding (s s' : list nat) (P : nd s) (E : nd s') (m : nat) :
  wf s P -> binary s P -> (1 <= ndim s)%nat -> (1 <= m)%nat ->
  (m = 1%nat -> size s = 1%nat) ->
  ((2 <= m)%nat ->
   alive_cells s' E = alive_cells s P /\
   n_cells s' E = (n_cells s P * Z.of_nat m)%Z /\
   integration_loop s' E
   = ((fst (integration_loop s P) + 2 * alive_cells s P)%Z,
      ((Z.of_nat (ndim s) + 1) * (n_cells s P * Z.of_nat m))%Z)) ->
  let phi_lo := fst (fst (fst (calculate_phi s P))) in
  let phi_hi := fst (fst (fst (calculate_phi s' E))) in
  let loss := (1 - Validator.ratio_or_zero phi_hi phi_lo) * 100 in
  loss <= 100 /\
  (loss = 100 <-> Spec.uniform s P 0 \/ Spec.uniform s P 1) /\
  (0 < phi_lo -> 0 < phi_hi).
Proof.
  intros Hw Hb Hd Hm1 Hm Hcounts phi_lo phi_hi loss.
  pose (r := Validator.record_of 0 EmptyString s P s' E).
  destruct (record_of_fields 0 EmptyString s P s' E)
    as (Hlo & Hhi & Hr & Hl & _). fold r in Hlo, Hhi, Hr, Hl.
  assert (Hloss : loss = Validator.loss_pct r).
  { unfold loss, phi_lo, phi_hi. now rewrite Hl, Hr, Hhi, Hlo. }
  pose proof (degenerate_uniform s P Hb) as Hu.
  pose proof (phi_positive_iff s P Hw Hb) as Hpos. fold phi_lo in Hpos.
  destruct (degenerate s P) eqn:Hdeg.
  - assert (H0 : phi_lo = 0).
    { unfold phi_lo, calculate_phi. now rewrite Hdeg. }
    assert (Hl100 : loss = 100).
    { unfold loss, Validator.ratio_or_zero. rewrite H0.
      destruct (Rlt_dec 0 0); lra. }
    rewrite Hl100. split; [lra|]. split; [|lra].
    split; [intros _; now apply Hu | reflexivity].
  - assert (Hp : 0 < Validator.phi_lower r)
      by (rewrite Hlo; now apply Hpos).
    destruct (record_of_dilution 0 EmptyString s s' P E m Hw Hb Hd Hm1 Hm
                Hcounts Hp)
      as (_ & _ & _ & _ & _ & _ & _ & _ & Hphi & Hlt).
    fold r in Hphi, Hlt. rewrite Hloss. split; [lra|]. split.
    + split; [lra|]. intros Hun. apply Hu in Hun. discriminate.
    + intros _. unfold phi_hi. now rewrite <- Hhi.
Qed.

End ScriptTrials.

Section GridSizeTrial.
Import GridSizeTest.

Variable choice : Z -> forall s : list nat, nd s.

Lemma test_1d_to_2d_size_run (pattern_id grid_size seed_start : Z)
    (h : heap) :
  valid_seed (seed_start + pattern_id) = true -> (1 <= grid_size)%Z ->
  let g := Z.to_nat grid_size in
  let P := choice (seed_start + pattern_id) [g] in
  let E := assign_last [g] g (Z.to_nat (grid_size / 2))
             (zeros ([g] ++ [g])) P in
  let phi_lo := fst (fst (fst (calculate_phi [g] P))) in
  let phi_hi := fst (fst (fst (calculate_phi ([g] ++ [g]) E))) in
  test_1d_to_2d_size choice pattern_id grid_size seed_start h
  = Ok ({| pattern_id := pattern_id;
           GridSizeTest.grid_size := grid_size;
           loss_pct := ((1 - Validator.ratio_or_zero phi_hi phi_lo) * 100)%R;
           ratio_phi := Validator.ratio_or_zero phi_hi phi_lo;
           phi_1d := phi_lo;
           phi_2d := phi_hi |},
        (h ++ [mk_obj [g] P]) ++ [mk_obj ([g] ++ [g]) E]).
Proof.
  intros Hseed Hg g P E phi_lo phi_hi.
  unfold test_1d_to_2d_size, generate_pattern_1d. cbv zeta.
  rewrite Hseed.
  replace (0 <=? grid_size)%Z with true by (symmetry; apply Z.leb_le; lia).
  fold g. fold P.
  erewrite bind_ok by reflexivity.
  unfold measure_phi.
  erewrite bind_ok by (apply calculate_phi_at_run, nth_error_new).
  subst phi_lo.
  destruct (calculate_phi [g] P) as [[[phi1 R1] S1] D1]. cbn [fst].
  erewrite bind_ok
    by (apply embed_1d_to_2d_run; [apply nth_error_new | exact Hg]).
  fold g. fold E.
  erewrite bind_ok by (apply calculate_phi_at_run, nth_error_new).
  subst phi_hi.
  destruct (calculate_phi ([g] ++ [g]) E) as [[[phi2 R2] S2] D2]. cbn [fst].
  erewrite bind_ok by apply div_if_positive_run.
  reflexivity.
Qed.

Lemma test_1d_to_2d_size_invalid (pattern_id grid_size seed_start : Z)
    (h : heap) :
  valid_seed (seed_start + pattern_id) = false \/ (grid_size <= 0)%Z ->
  exists e,
    test_1d_to_2d_size choice pattern_id grid_size seed_start h = Raise e.
Proof.
  intros Hbad. unfold test_1d_to_2d_size, generate_pattern_1d. cbv zeta.
  destruct (valid_seed (seed_start + pattern_id)) eqn:Hseed;
    [|now exists ValueError].
  destruct Hbad as [Hbad|Hg]; [discriminate|].
  destruct (0 <=? grid_size)%Z eqn:H0; [|now exists ValueError].
  erewrite bind_ok by reflexivity.
  unfold measure_phi.
  erewrite bind_ok by (apply calculate_phi_at_run, nth_error_new).
  destruct (calculate_phi _ _) as [[[phi1 R1] S1] D1].
  destruct (embed_1d_to_2d_invalid
              (h ++ [mk_obj [Z.to_nat grid_size]
                       (choice (seed_start + pattern_id)
                          [Z.to_nat grid_size])])
              (length h) grid_size ltac:(lia)) as [e He].
  exists e. now apply bind_raise.
Qed.

(** X9. [test_1d_to_2d_size] with a seed [seed_start + pattern_id] in
    [0, 2^32) and a grid size of at least 1 returns a record and leaves
    exactly two new arrays, the generated pattern and its embedding; the
    record carries the trial number and the grid size, its [phi_1d] is the
    measure of the generated pattern, its ratio is [phi_2d / phi_1d] with a
    positive [phi_2d] when [phi_1d] is positive, and its loss is at most
    100 percent, with equality exactly when the generated pattern is
    uniform.  With a seed outside that range or a grid size of 0 or less
    the trial raises and returns no record. *)
Theorem test_1d_to_2d_size_result (pattern_id grid_size seed_start : Z)
    (h : heap) :
  (forall seed s, wf s (choice seed s) /\ binary s (choice seed s)) ->
  ((0 <= seed_start + pattern_id < 2 ^ 32)%Z -> (1 <= grid_size)%Z ->
   let P := choice (seed_start + pattern_id) [Z.to_nat grid_size] in
   exists (r : SizeRecord) (E : obj),
     test_1d_to_2d_size choice pattern_id grid_size seed_start h
     = Ok (r, h ++ [mk_obj [Z.to_nat grid_size] P; E]) /\
     GridSizeTest.pattern_id r = pattern_id /\
     GridSizeTest.grid_size r = grid_size /\
     phi_1d r = fst (fst (fst (calculate_phi [Z.to_nat grid_size] P))) /\
     loss_pct r = ((1 - ratio_phi r) * 100)%R /\
     (0 < phi_1d r ->
      0 < phi_2d r /\ ratio_phi r = phi_2d r / phi_1d r)%R /\
     (loss_pct r <= 100)%R /\
     (loss_pct r = 100%R <->
      Spec.uniform [Z.to_nat grid_size] P 0 \/
      Spec.uniform [Z.to_nat grid_size] P 1)) /\
  (~ (0 <= seed_start + pattern_id < 2 ^ 32)%Z \/ (grid_size <= 0)%Z ->
   exists e,
     test_1d_to_2d_size choice pattern_id grid_size seed_start h = Raise e).
Proof.
  intros Hgen. split.
  - intros Hseed Hg P. apply valid_seed_range in Hseed.
    pose proof (test_1d_to_2d_size_run pattern_id grid_size seed_start h
                  Hseed Hg) as Hrun. cbv zeta in Hrun. fold P in Hrun.
    destruct (Hgen (seed_start + pattern_id)%Z [Z.to_nat grid_size])
      as [Hw Hb]. fold P in Hw, Hb.
    set (g := Z.to_nat grid_size) in *.
    set (E := assign_last [g] g (Z.to_nat (grid_size / 2))
                (zeros ([g] ++ [g])) P) in *.
    assert (Hmid : (Z.to_nat (grid_size / 2) < g)%nat)
      by (exact (proj2 (norm_index_mid _ Hg))).
    destruct (loss_of_embedding [g] ([g] ++ [g]) P E g Hw Hb) as
      (Hle & Hiff & Hpos).
    { cbn. lia. }
    { unfold g. lia. }
    { intros ->. reflexivity. }
    { intros H2. now apply embedded_counts_last. }
    eexists; exists (mk_obj ([g] ++ [g]) E). split.
    { rewrite Hrun. now rewrite <- app_assoc. }
    cbn [GridSizeTest.pattern_id GridSizeTest.grid_size phi_1d phi_2d
         loss_pct ratio_phi].
    do 4 (split; [reflexivity|]). split; [|exact (conj Hle Hiff)].
    intros Hp. split; [now apply Hpos|].
    unfold Validator.ratio_or_zero.
    destruct (Rlt_dec _ _); [reflexivity|contradiction].
  - intros [Hseed|Hg]; apply test_1d_to_2d_size_invalid.
    + left. destruct (valid_seed _) eqn:Hv; [|reflexivity].
      apply valid_seed_range in Hv. contradiction.
    + now right.
Qed.

End GridSizeTrial.

Lemma test_1d_to_2d_size_result_witness :
  let choice := Samples.sample_randint in
  let P := choice (6000 + 0)%Z [Z.to_nat 4] in
  ((forall seed s, wf s (choice seed s) /\ binary s (choice seed s)) /\
   (0 <= 6000 + 0 < 2 ^ 32)%Z /\ (1 <= 4)%Z /\ (0 <= 0)%Z) /\
  (exists (r : GridSizeTest.SizeRecord) (E : obj),
     GridSizeTest.test_1d_to_2d_size choice 0 4 6000 []
     = Ok (r, [] ++ [mk_obj [Z.to_nat 4] P; E]) /\
     GridSizeTest.pattern_id r = 0%Z /\
     GridSizeTest.grid_size r = 4%Z /\
     GridSizeTest.phi_1d r
     = fst (fst (fst (calculate_phi [Z.to_nat 4] P))) /\
     GridSizeTest.loss_pct r = ((1 - GridSizeTest.ratio_phi r) * 100)%R /\
     (0 < GridSizeTest.phi_1d r ->
      0 < GridSizeTest.phi_2d r /\
      GridSizeTest.ratio_phi r
      = GridSizeTest.phi_2d r / GridSizeTest.phi_1d r)%R /\
     (GridSizeTest.loss_pct r <= 100)%R /\
     (GridSizeTest.loss_pct r = 100%R <->
      Spec.uniform [Z.to_nat 4] P 0 \/ Spec.uniform [Z.to_nat 4] P 1)) /\
  (exists e,
     GridSizeTest.test_1d_to_2d_size choice 0 0 6000 [] = Raise e).
Proof.
  intros choice P.
  assert (Hseed : (0 <= 6000 + 0 < 2 ^ 32)%Z) by lia.
  assert (Hg : (1 <= 4)%Z) by lia.
  assert (H0 : (0 <= 0)%Z) by lia.
  split; [exact (conj sample_randint_ok (conj Hseed (conj Hg H0)))|]. split.
  - exact (proj1 (test_1d_to_2d_size_result choice 0 4 6000 []
                    sample_randint_ok) Hseed Hg).
  - exact (proj2 (test_1d_to_2d_size_result choice 0 0 6000 []
                    sample_randint_ok) (or_intror H0)).
Defined.

(** The stand-in generator gives a non-uniform pattern of four cells for
    seed 6000. *)
Example sample_size_trial_regular :
  degenerate [4]%nat (Samples.sample_randint 6000 [4]%nat) = false.
Proof. vm_compute. reflexivity. Qed.

Section HighLifeTrial.
Import HighLifeTest.

Variable choice : Z -> forall s : list nat, nd s.

Lemma test_2d_to_3d_highlife_run (pattern_id grid_size seed_start : Z)
    (h : heap) :
  valid_seed (seed_start + pattern_id) = true ->
  (1 <= grid_size)%Z ->
  let g := Z.to_nat grid_size in
  let P := choice (seed_start + pattern_id) [g; g] in
  let E := assign_last [g; g] g (Z.to_nat (grid_size / 2))
             (zeros ([g; g] ++ [g])) P in
  let phi_lo := fst (fst (fst (calculate_phi [g; g] P))) in
  let phi_hi := fst (fst (fst (calculate_phi ([g; g] ++ [g]) E))) in
  test_2d_to_3d_highlife choice pattern_id grid_size seed_start h
  = Ok ({| pattern_id := pattern_id;
           loss_pct := ((1 - Validator.ratio_or_zero phi_hi phi_lo) * 100)%R;
           ratio_phi := Validator.ratio_or_zero phi_hi phi_lo;
           phi_2d := phi_lo;
           phi_3d := phi_hi |},
        (h ++ [mk_obj [g; g] P]) ++ [mk_obj ([g; g] ++ [g]) E]).
Proof.
  intros Hseed Hg g P E phi_lo phi_hi.
  unfold test_2d_to_3d_highlife, generate_pattern_2d. cbv zeta.
  rewrite Hseed.
  replace (0 <=? grid_size)%Z with true by (symmetry; apply Z.leb_le; lia).
  fold g. fold P.
  erewrite bind_ok by reflexivity.
  unfold measure_phi.
  erewrite bind_ok by (apply calculate_phi_at_run, nth_error_new).
  subst phi_lo.
  destruct (calculate_phi [g; g] P) as [[[phi1 R1] S1] D1]. cbn [fst].
  erewrite bind_ok
    by (apply embed_2d_to_3d_run; [apply nth_error_new | exact Hg]).
  fold g. fold E.
  erewrite bind_ok by (apply calculate_phi_at_run, nth_error_new).
  subst phi_hi.
  destruct (calculate_phi ([g; g] ++ [g]) E) as [[[phi2 R2] S2] D2].
  cbn [fst]. erewrite bind_ok by apply div_if_positive_run.
  reflexivity.
Qed.

Lemma test_2d_to_3d_highlife_invalid (pattern_id grid_size seed_start : Z)
    (h : heap) :
  valid_seed (seed_start + pattern_id) = false \/
  (grid_size <= 0)%Z ->
  exists e,
    test_2d_to_3d_highlife choice pattern_id grid_size seed_start h
    = Raise e.
Proof.
  intros Hbad. unfold test_2d_to_3d_highlife, generate_pattern_2d. cbv zeta.
  destruct (valid_seed (seed_start + pattern_id)) eqn:Hseed;
    [|now exists ValueError].
  destruct Hbad as [Hbad|Hg]; [discriminate|].
  destruct (0 <=? grid_size)%Z eqn:H0; [|now exists ValueError].
  erewrite bind_ok by reflexivity.
  unfold measure_phi.
  erewrite bind_ok by (apply calculate_phi_at_run, nth_error_new).
  destruct (calculate_phi _ _) as [[[phi1 R1] S1] D1].
  destruct (embed_2d_to_3d_invalid
              (h ++ [mk_obj [Z.to_nat grid_size; Z.to_nat grid_size]
                       (choice (seed_start + pattern_id)
                          [Z.to_nat grid_size; Z.to_nat grid_size])])
              (length h) grid_size ltac:(lia)) as [e He].
  exists e. now apply bind_raise.
Qed.

(** X10. [test_2d_to_3d_highlife] with a seed [seed_start + pattern_id] in
    [0, 2^32) and a grid size of at least 1 returns a record and leaves
    exactly two new arrays, the generated square pattern and its embedding;
    the record carries the trial number, its [phi_2d] is the measure of the
    generated pattern, its ratio is [phi_3d / phi_2d] with a positive
    [phi_3d] when [phi_2d] is positive, and its loss is at most 100
    percent, with equality exactly when the generated pattern is uniform.
    With a seed outside that range or a grid size of 0 or less the trial
    raises and returns no record. *)
Theorem test_2d_to_3d_highlife_result (pattern_id grid_size seed_start : Z)
    (h : heap) :
  (forall seed s, wf s (choice seed s) /\ binary s (choice seed s)) ->
  ((0 <= seed_start + pattern_id < 2 ^ 32)%Z -> (1 <= grid_size)%Z ->
   let s := [Z.to_nat grid_size; Z.to_nat grid_size] in
   let P := choice (seed_start + pattern_id) s in
   exists (r : HighLifeRecord) (E : obj),
     test_2d_to_3d_highlife choice pattern_id grid_size seed_start h
     = Ok (r, h ++ [mk_obj s P; E]) /\
     HighLifeTest.pattern_id r = pattern_id /\
     phi_2d r = fst (fst (fst (calculate_phi s P))) /\
     loss_pct r = ((1 - ratio_phi r) * 100)%R /\
     (0 < phi_2d r ->
      0 < phi_3d r /\ ratio_phi r = phi_3d r / phi_2d r)%R /\
     (loss_pct r <= 100)%R /\
     (loss_pct r = 100%R <-> Spec.uniform s P 0 \/ Spec.uniform s P 1)) /\
  (~ (0 <= seed_start + pattern_id < 2 ^ 32)%Z \/ (grid_size <= 0)%Z ->
   exists e,
     test_2d_to_3d_highlife choice pattern_id grid_size seed_start h
     = Raise e).
Proof.
  intros Hgen. split.
  - intros Hseed Hg s P. apply valid_seed_range in Hseed.
    pose proof (test_2d_to_3d_highlife_run pattern_id grid_size seed_start h
                  Hseed Hg) as Hrun. cbv zeta in Hrun.
    fold s in Hrun. fold P in Hrun.
    destruct (Hgen (seed_start + pattern_id)%Z s) as [Hw Hb].
    fold P in Hw, Hb.
    set (g := Z.to_nat grid_size) in *.
    set (E := assign_last s g (Z.to_nat (grid_size / 2))
                (zeros (s ++ [g])) P) in *.
    assert (Hmid : (Z.to_nat (grid_size / 2) < g)%nat)
      by (exact (proj2 (norm_index_mid _ Hg))).
    destruct (loss_of_embedding s (s ++ [g]) P E g Hw Hb) as
      (Hle & Hiff & Hpos).
    { cbn. lia. }
    { unfold g. lia. }
    { intros Hg1. unfold s. fold g. rewrite Hg1. reflexivity. }
    { intros H2. now apply embedded_counts_last. }
    eexists; exists (mk_obj (s ++ [g]) E). split.
    { rewrite Hrun. now rewrite <- app_assoc. }
    cbn [HighLifeTest.pattern_id phi_2d phi_3d loss_pct ratio_phi].
    do 3 (split; [reflexivity|]). split; [|exact (conj Hle Hiff)].
    intros Hp. split; [now apply Hpos|].
    unfold Validator.ratio_or_zero.
    destruct (Rlt_dec _ _); [reflexivity|contradiction].
  - intros [Hseed|Hg]; apply test_2d_to_3d_highlife_invalid.
    + left. destruct (valid_seed _) eqn:Hv; [|reflexivity].
      apply valid_seed_range in Hv. contradiction.
    + now right.
Qed.

End HighLifeTrial.

Lemma test_2d_to_3d_highlife_result_witness :
  let choice := Samples.sample_randint in
  let s := [Z.to_nat 4; Z.to_nat 4] in
  let P := choice (5000 + 0)%Z s in
  ((forall seed s, wf s (choice seed s) /\ binary s (choice seed s)) /\
   (0 <= 5000 + 0 < 2 ^ 32)%Z /\ (1 <= 4)%Z /\ (-1 <= 0)%Z) /\
  (exists (r : HighLifeTest.HighLifeRecord) (E : obj),
     HighLifeTest.test_2d_to_3d_highlife choice 0 4 5000 []
     = Ok (r, [] ++ [mk_obj s P; E]) /\
     HighLifeTest.pattern_id r = 0%Z /\
     HighLifeTest.phi_2d r = fst (fst (fst (calculate_phi s P))) /\
     HighLifeTest.loss_pct r = ((1 - HighLifeTest.ratio_phi r) * 100)%R /\
     (0 < HighLifeTest.phi_2d r ->
      0 < HighLifeTest.phi_3d r /\
      HighLifeTest.ratio_phi r
      = HighLifeTest.phi_3d r / HighLifeTest.phi_2d r)%R /\
     (HighLifeTest.loss_pct r <= 100)%R /\
     (HighLifeTest.loss_pct r = 100%R <->
      Spec.uniform s P 0 \/ Spec.uniform s P 1)) /\
  (exists e,
     HighLifeTest.test_2d_to_3d_highlife choice 0 (-1) 5000 [] = Raise e).
Proof.
  intros choice s P.
  assert (Hseed : (0 <= 5000 + 0 < 2 ^ 32)%Z) by lia.
  assert (Hg : (1 <= 4)%Z) by lia.
  assert (H0 : (-1 <= 0)%Z) by lia.
  split; [exact (conj sample_randint_ok (conj Hseed (conj Hg H0)))|]. split.
  - exact (proj1 (test_2d_to_3d_highlife_result choice 0 4 5000 []
                    sample_randint_ok) Hseed Hg).
  - exact (proj2 (test_2d_to_3d_highlife_result choice 0 (-1) 5000 []
                    sample_randint_ok) (or_intror H0)).
Defined.

(** ** The statistics of a run *)

Section StatisticsFacts.
Import Statistics.
Open Scope R_scope.

Lemma fold_min_spec (x : R) (l : list R) :
  In (fold_right Rmin x l) (x :: l) /\
  forall y, In y (x :: l) -> fold_right Rmin x l <= y.
Proof.
  induction l as [|a l [IHin IHle]].
  - cbn. split; [now left|]. intros y [<-|[]]. lra.
  - cbn [fold_right]. split.
    + set (m := fold_right Rmin x l) in *. unfold Rmin.
      destruct (Rle_dec a m).
      * right. now left.
      * destruct IHin as [H|H]; [left; exact H|right; right; exact H].
    + intros y Hy.
      pose proof (Rmin_l a (fold_right Rmin x l)).
      pose proof (Rmin_r a (fold_right Rmin x l)).
      destruct Hy as [<-|[<-|Hy]].
      * pose proof (IHle x (or_introl eq_refl)). lra.
      * lra.
      * pose proof (IHle y (or_intror Hy)). lra.
Qed.

Lemma fold_max_spec (x : R) (l : list R) :
  In (fold_right Rmax x l) (x :: l) /\
  forall y, In y (x :: l) -> y <= fold_right Rmax x l.
Proof.
  induction l as [|a l [IHin IHle]].
  - cbn. split; [now left|]. intros y [<-|[]]. lra.
  - cbn [fold_right]. split.
    + set (m := fold_right Rmax x l) in *. unfold Rmax.
      destruct (Rle_dec a m).
      * destruct IHin as [H|H]; [left; exact H|right; right; exact H].
      * right. now left.
    + intros y Hy.
      pose proof (Rmax_l a (fold_right Rmax x l)).
      pose proof (Rmax_r a (fold_right Rmax x l)).
      destruct Hy as [<-|[<-|Hy]].
      * pose proof (IHle x (or_introl eq_refl)). lra.
      * lra.
      * pose proof (IHle y (or_intror Hy)). lra.
Qed.

Lemma insert_In (x y : R) (l : list R) :
  In y (insert x l) <-> y = x \/ In y l.
Proof.
  induction l as [|a l IH]; cbn [insert].
  - cbn. intuition.
  - destruct (Rle_dec x a); cbn [In]; [intuition|].
    rewrite IH. intuition.
Qed.

Lemma insert_length (x : R) (l : list R) :
  length (insert x l) = S (length l).
Proof.
  induction l as [|a l IH]; cbn [insert]; [reflexivity|].
  destruct (Rle_dec x a); cbn [length]; [reflexivity|]. now rewrite IH.
Qed.

Lemma insert_sorted (x : R) (l : list R) :
  StronglySorted Rle l -> StronglySorted Rle (insert x l).
Proof.
  induction 1 as [|a l Hs IH Ha]; cbn [insert].
  - constructor; constructor.
  - destruct (Rle_dec x a) as [Hle|Hgt].
    + constructor; [now constructor|]. constructor; [exact Hle|].
      rewrite Forall_forall in Ha |- *. intros y Hy.
      pose proof (Ha y Hy). lra.
    + constructor; [exact IH|].
      rewrite Forall_forall in Ha |- *. intros y Hy.
      apply insert_In in Hy. destruct Hy as [->|Hy]; [lra|now apply Ha].
Qed.

Lemma np_sort_In (l : list R) (y : R) : In y (np_sort l) <-> In y l.
Proof.
  induction l as [|a l IH]; [reflexivity|].
  cbn [np_sort fold_right]. fold (np_sort l). rewrite insert_In, IH.
  cbn. intuition.
Qed.

Lemma np_sort_length (l : list R) : length (np_sort l) = length l.
Proof.
  induction l as [|a l IH]; [reflexivity|].
  cbn [np_sort fold_right]. fold (np_sort l).
  now rewrite insert_length, IH.
Qed.

Lemma np_sort_sorted (l : list R) : StronglySorted Rle (np_sort l).
Proof.
  induction l as [|a l IH]; [constructor|].
  cbn [np_sort fold_right]. fold (np_sort l). now apply insert_sorted.
Qed.

Lemma sorted_nth (a : list R) :
  StronglySorted Rle a ->
  forall i j, (i <= j < length a)%nat -> nth i a 0 <= nth j a 0.
Proof.
  induction 1 as [|x a Hs IH Hx]; intros i j Hij.
  - cbn in Hij. lia.
  - destruct j as [|j].
    + replace i with 0%nat by lia. lra.
    + destruct i as [|i].
      * cbn [nth]. rewrite Forall_forall in Hx. apply Hx, nth_In.
        cbn in Hij. lia.
      * cbn [nth]. apply IH. cbn in Hij. lia.
Qed.

(** The interpolated value lies between its two neighbours. *)
Lemma at_virtual_index_bounds (a : list R) (n : nat) (num : Z) :
  (forall i j, (i <= j < n)%nat -> nth i a 0 <= nth j a 0) ->
  (1 <= n)%nat -> (0 <= num <= 100 * (Z.of_nat n - 1))%Z ->
  let previous := Z.to_nat (num / 100) in
  let next := Nat.min (previous + 1) (n - 1) in
  (previous <= next < n)%nat /\
  nth previous a 0 <= at_virtual_index a n num <= nth next a 0.
Proof.
  intros Hs Hn Hnum previous next.
  assert (Hq : (0 <= num / 100 <= Z.of_nat n - 1)%Z).
  { split; [apply Z.div_pos; lia|].
    apply Z.div_le_upper_bound; lia. }
  assert (Hp : (previous <= n - 1)%nat) by (unfold previous; lia).
  assert (Hpn : (previous <= next < n)%nat) by (unfold next; lia).
  split; [exact Hpn|].
  pose proof (Z.mod_pos_bound num 100 ltac:(lia)) as Hm.
  assert (Hg : 0 <= IZR (num mod 100) / 100 < 1).
  { destruct Hm as [Hm0 Hm1]. apply IZR_le in Hm0. apply IZR_lt in Hm1.
    split.
    - apply Rmult_le_pos; lra.
    - apply Rmult_lt_reg_r with 100; [lra|]. unfold Rdiv.
      rewrite Rmult_assoc, Rinv_l by lra. lra. }
  pose proof (Hs previous next Hpn) as Hle.
  unfold at_virtual_index. fold previous. fold next.
  set (g := IZR (num mod 100) / 100) in *.
  set (u := nth previous a 0) in *. set (v := nth next a 0) in *.
  split; nra.
Qed.

(** The interpolated value grows with the virtual index. *)
Lemma at_virtual_index_mono (a : list R) (n : nat) (num1 num2 : Z) :
  (forall i j, (i <= j < n)%nat -> nth i a 0 <= nth j a 0) ->
  (1 <= n)%nat -> (0 <= num1 <= num2)%Z ->
  (num2 <= 100 * (Z.of_nat n - 1))%Z ->
  at_virtual_index a n num1 <= at_virtual_index a n num2.
Proof.
  intros Hs Hn H12 H2.
  destruct (at_virtual_index_bounds a n num1 Hs Hn ltac:(lia))
    as [Hi1 [Hl1 Hu1]].
  destruct (at_virtual_index_bounds a n num2 Hs Hn ltac:(lia))
    as [Hi2 [Hl2 Hu2]].
  assert (Hdiv : (num1 / 100 <= num2 / 100)%Z)
    by (apply Z.div_le_mono; lia).
  assert (H0 : (0 <= num1 / 100)%Z) by (apply Z.div_pos; lia).
  destruct (Z.eq_dec (num1 / 100) (num2 / 100)) as [Heq|Hne].
  - unfold at_virtual_index in *. rewrite <- Heq in *.
    set (u := nth (Z.to_nat (num1 / 100)) a 0) in *.
    set (v := nth (Nat.min (Z.to_nat (num1 / 100) + 1) (n - 1)) a 0) in *.
    assert (Hmod : (num1 mod 100 <= num2 mod 100)%Z).
    { rewrite !Z.mod_eq by lia. rewrite Heq. lia. }
    apply IZR_le in Hmod.
    assert (Huv : u <= v) by (apply Hs; exact Hi1).
    assert (Hgg : IZR (num1 mod 100) / 100 <= IZR (num2 mod 100) / 100)
      by lra.
    nra.
  - apply Rle_trans with (1 := Hu1). apply Rle_trans with (2 := Hl2).
    apply Hs. lia.
Qed.

(** Over the reals the median is the 50th percentile. *)
Lemma np_median_percentile (l : list R) :
  np_median l = np_percentile l 50.
Proof.
  destruct l as [|x l]; [reflexivity|].
  unfold np_median, np_percentile, at_virtual_index.
  set (m := length (x :: l)). set (a := np_sort (x :: l)).
  assert (Hm : (1 <= m)%nat) by (unfold m; cbn; lia).
  destruct (Nat.even m) eqn:He.
  - apply Nat.even_spec in He. destruct He as [k Hk].
    assert (Hdiv : (50 * (Z.of_nat m - 1) / 100 = Z.of_nat k - 1)%Z).
    { symmetry. apply (Z.div_unique _ _ _ 50); lia. }
    assert (Hmod : ((50 * (Z.of_nat m - 1)) mod 100 = 50)%Z).
    { symmetry. apply (Z.mod_unique _ _ (Z.of_nat k - 1)); lia. }
    rewrite Hdiv, Hmod.
    replace (m / 2)%nat with k
      by (rewrite Hk, Nat.mul_comm, Nat.div_mul; lia).
    replace (Z.to_nat (Z.of_nat k - 1)) with (k - 1)%nat by lia.
    replace (Nat.min (k - 1 + 1) (m - 1)) with k by lia.
    f_equal. lra.
  - assert (Ho : Nat.odd m = true)
      by (rewrite <- Nat.negb_even, He; reflexivity).
    apply Nat.odd_spec in Ho. destruct Ho as [k Hk].
    assert (Hdiv : (50 * (Z.of_nat m - 1) / 100 = Z.of_nat k)%Z).
    { symmetry. apply (Z.div_unique _ _ _ 0); lia. }
    assert (Hmod : ((50 * (Z.of_nat m - 1)) mod 100 = 0)%Z).
    { symmetry. apply (Z.mod_unique _ _ (Z.of_nat k)); lia. }
    rewrite Hdiv, Hmod.
    replace ((m - 1) / 2)%nat with k
      by (replace (m - 1)%nat with (k * 2)%nat by lia;
          rewrite Nat.div_mul; lia).
    rewrite Nat2Z.id. f_equal. lra.
Qed.

End StatisticsFacts.

Section StatisticsOfLosses.
Import Validator Statistics.
Open Scope R_scope.

Lemma percentile_between (x : R) (xs : list R) (q : Z) :
  (0 <= q <= 100)%Z ->
  exists v, np_percentile (x :: xs) q = Num v /\
    fold_right Rmin x xs <= v <= fold_right Rmax x xs.
Proof.
  intros Hq. unfold np_percentile.
  set (l := x :: xs). set (a := np_sort l). set (m := length l).
  assert (Hm : (1 <= m)%nat) by (unfold m, l; cbn; lia).
  assert (Hs : forall i j, (i <= j < m)%nat -> nth i a 0 <= nth j a 0).
  { intros i j Hij. apply sorted_nth; [apply np_sort_sorted|].
    unfold a. now rewrite np_sort_length. }
  destruct (at_virtual_index_bounds a m (q * (Z.of_nat m - 1)) Hs Hm
              ltac:(nia)) as [Hi [Hlo Hhi]].
  eexists. split; [reflexivity|].
  destruct (fold_min_spec x xs) as [_ Hmin].
  destruct (fold_max_spec x xs) as [_ Hmax].
  assert (Hin : forall i, (i < m)%nat -> In (nth i a 0) l).
  { intros i Hi'. apply np_sort_In. apply nth_In.
    unfold a. now rewrite np_sort_length. }
  split.
  - apply Rle_trans with (2 := Hlo). apply Hmin, Hin. lia.
  - apply Rle_trans with (1 := Hhi). apply Hmax, Hin. lia.
Qed.

Lemma percentile_mono (x : R) (xs : list R) (q1 q2 : Z) (v1 v2 : R) :
  (0 <= q1 <= q2)%Z -> (q2 <= 100)%Z ->
  np_percentile (x :: xs) q1 = Num v1 ->
  np_percentile (x :: xs) q2 = Num v2 -> v1 <= v2.
Proof.
  intros H12 H2 E1 E2.
  assert (F : forall q, np_percentile (x :: xs) q
              = Num (at_virtual_index (np_sort (x :: xs)) (length (x :: xs))
                       (q * (Z.of_nat (length (x :: xs)) - 1))))
    by reflexivity.
  rewrite F in E1, E2. clear F.
  set (l := x :: xs) in *. set (m := length l) in *.
  assert (Hm : (1 <= m)%nat) by (unfold m, l; cbn; lia).
  assert (F1 : v1 = at_virtual_index (np_sort l) m (q1 * (Z.of_nat m - 1)))
    by congruence.
  assert (F2 : v2 = at_virtual_index (np_sort l) m (q2 * (Z.of_nat m - 1)))
    by congruence.
  rewrite F1, F2.
  apply at_virtual_index_mono; trivial; try nia.
  intros i j Hij. apply sorted_nth; [apply np_sort_sorted|].
  now rewrite np_sort_length.
Qed.

(** The entry computed from a non-empty list of records. *)
Lemma stats_of_summarises (l : list TransitionRecord) (h : heap) :
  l <> [] ->
  exists e, stats_of l h = Ok (e, h) /\ summarises e (map loss_pct l) /\
            mean_loss_pct e = np_mean (map loss_pct l).
Proof.
  intros Hl. unfold stats_of. cbv zeta.
  destruct (map loss_pct l) as [|x xs] eqn:Hlosses.
  { destruct l; [contradiction | discriminate]. }
  set (losses := x :: xs).
  assert (Hlen : 0 < INR (length losses)).
  { apply lt_0_INR. unfold losses. cbn. lia. }
  destruct (fold_min_spec x xs) as [Hmin_in Hmin].
  destruct (fold_max_spec x xs) as [Hmax_in Hmax].
  destruct (percentile_between x xs 25 ltac:(lia)) as (q25 & E25 & B25).
  destruct (percentile_between x xs 50 ltac:(lia)) as (med & E50 & B50).
  destruct (percentile_between x xs 75 ltac:(lia)) as (q75 & E75 & B75).
  eexists. split; [reflexivity|]. split; [|reflexivity].
  unfold summarises.
  cbn [n mean_loss_pct std_loss_pct sem_loss_pct min_loss_pct max_loss_pct
       median_loss_pct q25_loss_pct q75_loss_pct].
  split; [reflexivity|]. split; [exact Hmin_in|]. split; [exact Hmax_in|].
  split; [intros y Hy; split; [now apply Hmin | now apply Hmax]|].
  split.
  { exists (rsum losses / INR (length losses)), med, q25, q75.
    split; [reflexivity|].
    split; [now rewrite np_median_percentile|].
    split; [exact E25|]. split; [exact E75|].
    split; [apply B25|].
    split; [apply (percentile_mono x xs 25 50 q25 med); trivial; lia|].
    split; [apply (percentile_mono x xs 50 75 med q75); trivial; lia|].
    apply B75. }
  unfold np_std_ddof1, f64_div, losses.
  destruct xs as [|x' xs'].
  - split; [split; reflexivity|]. split; [split; reflexivity|].
    split; intros y Hy; discriminate.
  - split; [split; [discriminate | cbn; lia]|].
    split; [split; [discriminate | cbn; lia]|].
    split.
    + intros y Hy. injection Hy as <-. apply sqrt_pos.
    + intros y Hy. injection Hy as <-.
      apply Rmult_le_pos; [apply sqrt_pos|].
      apply Rlt_le, Rinv_0_lt_compat. unfold sqrt_len.
      apply sqrt_lt_R0. exact Hlen.
Qed.

End StatisticsOfLosses.

Section StatisticsTheorems.
Import Validator Statistics.

(** X11. [calculate_statistics] on results with at least one record for
    every transition raises nothing, allocates nothing and returns one
    entry per transition that summarises the losses of that transition:
    their number, their least and greatest value (each attained by a loss
    and bounding every loss), a mean that is a number, and a median and
    quartiles with min <= q25 <= median <= q75 <= max; the standard
    deviation and standard error are [nan] exactly when there is one
    record and are not negative otherwise.  If a transition has no record,
    it raises [ValueError]. *)
Theorem calculate_statistics_summary (self : validator) (results : Results)
    (h : heap) :
  (test_1d_2d results <> [] -> test_2d_3d results <> [] ->
   test_3d_4d results <> [] ->
   exists t : StatsTable,
     calculate_statistics self results h = Ok (t, h) /\
     summarises (stats_1d_2d t) (map loss_pct (test_1d_2d results)) /\
     summarises (stats_2d_3d t) (map loss_pct (test_2d_3d results)) /\
     summarises (stats_3d_4d t) (map loss_pct (test_3d_4d results))) /\
  (test_1d_2d results = [] \/ test_2d_3d results = [] \/
   test_3d_4d results = [] ->
   calculate_statistics self results h = Raise ValueError).
Proof.
  unfold calculate_statistics. split.
  - intros H1 H2 H3.
    destruct (stats_of_summarises _ h H1) as (e1 & R1 & S1 & _).
    destruct (stats_of_summarises _ h H2) as (e2 & R2 & S2 & _).
    destruct (stats_of_summarises _ h H3) as (e3 & R3 & S3 & _).
    rewrite (bind_ok _ _ _ _ _ R1), (bind_ok _ _ _ _ _ R2),
      (bind_ok _ _ _ _ _ R3).
    eexists. split; [reflexivity|]. cbn [stats_1d_2d stats_2d_3d stats_3d_4d].
    auto.
  - intros Hempty.
    destruct (test_1d_2d results) as [|r1 l1] eqn:E1; [reflexivity|].
    destruct (stats_of_summarises (r1 :: l1) h ltac:(discriminate))
      as (e1 & R1 & _).
    rewrite (bind_ok _ _ _ _ _ R1).
    destruct (test_2d_3d results) as [|r2 l2] eqn:E2; [reflexivity|].
    destruct (stats_of_summarises (r2 :: l2) h ltac:(discriminate))
      as (e2 & R2 & _).
    rewrite (bind_ok _ _ _ _ _ R2).
    destruct Hempty as [H|[H|H]]; try discriminate.
    now rewrite H.
Qed.

Lemma calculate_statistics_summary_witness :
  let self := {| n_patterns := 2; grid_size := 3 |} in
  let r := record_of 0 "1D→2D" [2%nat] (Samples.sample_randint 0 [2%nat])
             [2; 2]%nat (Samples.sample_randint 1 [2; 2]%nat) in
  let results :=
    {| test_1d_2d := [r; r]; test_2d_3d := [r]; test_3d_4d := [r; r; r] |} in
  let none := {| test_1d_2d := [r]; test_2d_3d := []; test_3d_4d := [r] |} in
  (test_1d_2d results <> [] /\ test_2d_3d results <> [] /\
   test_3d_4d results <> [] /\
   (test_1d_2d none = [] \/ test_2d_3d none = [] \/ test_3d_4d none = [])) /\
  (exists t : StatsTable,
     calculate_statistics self results [] = Ok (t, []) /\
     summarises (stats_1d_2d t) (map loss_pct (test_1d_2d results)) /\
     summarises (stats_2d_3d t) (map loss_pct (test_2d_3d results)) /\
     summarises (stats_3d_4d t) (map loss_pct (test_3d_4d results))) /\
  calculate_statistics self none [] = Raise ValueError.
Proof.
  intros self r results none.
  assert (H1 : test_1d_2d results <> []) by discriminate.
  assert (H2 : test_2d_3d results <> []) by discriminate.
  assert (H3 : test_3d_4d results <> []) by discriminate.
  assert (H4 : test_1d_2d none = [] \/ test_2d_3d none = [] \/
               test_3d_4d none = []) by (right; left; reflexivity).
  split; [exact (conj H1 (conj H2 (conj H3 H4)))|]. split.
  - exact (proj1 (calculate_statistics_summary self results []) H1 H2 H3).
  - exact (proj2 (calculate_statistics_summary self none []) H4).
Defined.

End StatisticsTheorems.

Section RunStatistics.
Import Validator Statistics.

Variable randint : Z -> forall s : list nat, nd s.
Variable self : validator.
Hypothesis Hgen :
  forall seed s, wf s (randint seed s) /\ binary s (randint seed s).






End RunStatistics.

Section RunStatisticsSample.
Import Validator.


End RunStatisticsSample.
